(** * styled-native: theme variable and length resolution

    A shallow embedding of [src/formatValues.ts] and of the resolution engine of
    [src/theme.tsx] (placeholder registry, [resolveLengthUnit], [findNestedObj],
    [resolveThemeVariables]), together with the part of the JavaScript run time
    these functions rest on: IEEE-754 doubles, the Number <-> String conversions,
    the coercions behind [+], [*], [<=], [&] and [||], and a few String methods.

    Modelling conventions
    - a JS number is a binary64 value ([spec_float] with [prec = 53],
      [emax = 1024]); arithmetic is the correctly rounded arithmetic of
      [SpecFloat];
    - a JS string is a [string]: a sequence of 8-bit code units (the programs
      only inspect ASCII characters);
    - a plain JS object is the list of its own enumerable properties in
      enumeration order; what a property read finds beyond them, along the
      prototype chain or among the properties that are not enumerable, is
      given by the engine: the [builtins] of the [Externals];
    - [throw new Error(..)] is the left injection of a sum type. *)

From Stdlib Require Import ZArith NArith Bool Ascii String List Lia.
From Stdlib Require Import DecimalString HexadecimalString DecimalN DecimalPos
  HexadecimalN HexadecimalPos HexadecimalFacts.
From Stdlib Require Import Floats.SpecFloat.
From stdpp Require Import gmap strings.

Set Warnings "-register-all".

Local Open Scope Z_scope.

(** ** Strings *)

Module Str.

Definition code (c : ascii) : N := N_of_ascii c.

Definition is_digit (c : ascii) : bool :=
  ((48 <=? code c) && (code c <=? 57))%N.

(** WhiteSpace and LineTerminator code units below 256: TAB, LF, VT, FF, CR,
    SP and NBSP. *)
Definition is_whitespace (c : ascii) : bool :=
  ((code c =? 9) || (code c =? 10) || (code c =? 11) || (code c =? 12)
   || (code c =? 13) || (code c =? 32) || (code c =? 160))%N.

Definition is_empty (s : string) : bool :=
  match s with EmptyString => true | String _ _ => false end.

Fixpoint all_chars (p : ascii -> bool) (s : string) : bool :=
  match s with
  | EmptyString => true
  | String c s' => p c && all_chars p s'
  end.

Fixpoint any_char (p : ascii -> bool) (s : string) : bool :=
  match s with
  | EmptyString => false
  | String c s' => p c || any_char p s'
  end.

(** [strip_prefix p s] is [Some r] when [s = p +:+ r]. *)
Fixpoint strip_prefix (p s : string) : option string :=
  match p, s with
  | EmptyString, _ => Some s
  | String a p', String b s' => if Ascii.eqb a b then strip_prefix p' s' else None
  | String _ _, EmptyString => None
  end.

(** [String.prototype.startsWith] *)
Definition startsWith (s p : string) : bool :=
  match strip_prefix p s with Some _ => true | None => false end.

Fixpoint trimStart (s : string) : string :=
  match s with
  | String c s' => if is_whitespace c then trimStart s' else s
  | EmptyString => EmptyString
  end.

Fixpoint trimEnd (s : string) : string :=
  match s with
  | EmptyString => EmptyString
  | String c s' =>
      let t := trimEnd s' in
      if is_whitespace c && is_empty t then EmptyString else String c t
  end.

(** [String.prototype.trim] *)
Definition trim (s : string) : string := trimEnd (trimStart s).

(** [s.replace(pat, rep)] for a string pattern: the first occurrence of [pat]
    is replaced.  The programs only call it with [rep = ''], so the [$]
    patterns of a replacement string do not arise. *)
Fixpoint replace (s pat rep : string) : string :=
  match strip_prefix pat s with
  | Some rest => rep +:+ rest
  | None =>
      match s with
      | EmptyString => EmptyString
      | String c s' => String c (replace s' pat rep)
      end
  end.

(** [s.substring(1)] *)
Definition substring1 (s : string) : string :=
  match s with EmptyString => EmptyString | String _ s' => s' end.

Fixpoint repeat_char (c : ascii) (n : nat) : string :=
  match n with O => EmptyString | S n' => String c (repeat_char c n') end.

(** [s.padStart(n, c)] for a one-character filler. *)
Definition padStart (s : string) (n : nat) (c : ascii) : string :=
  repeat_char c (n - String.length s) +:+ s.

Definition upper_char (c : ascii) : ascii :=
  if ((97 <=? code c) && (code c <=? 122))%N then ascii_of_N (code c - 32) else c.

(** [s.toUpperCase()] on ASCII text. *)
Fixpoint toUpperCase (s : string) : string :=
  match s with
  | EmptyString => EmptyString
  | String c s' => String (upper_char c) (toUpperCase s')
  end.

Fixpoint take (n : nat) (s : string) : string :=
  match n, s with
  | S n', String c s' => String c (take n' s')
  | _, _ => EmptyString
  end.

Fixpoint drop (n : nat) (s : string) : string :=
  match n, s with
  | S n', String _ s' => drop n' s'
  | _, _ => s
  end.

(** The longest prefix of decimal digits, and what follows it. *)
Fixpoint span_digits (s : string) : string * string :=
  match s with
  | String c s' =>
      if is_digit c then
        let (d, r) := span_digits s' in (String c d, r)
      else (EmptyString, s)
  | EmptyString => (EmptyString, EmptyString)
  end.

(** Value of a string of digits in base [b] ([None] on a foreign character);
    letters count from ten, in either case. *)
Definition digit_value (c : ascii) : option N :=
  if is_digit c then Some (code c - 48)%N
  else if ((97 <=? code c) && (code c <=? 122))%N then Some (code c - 87)%N
  else if ((65 <=? code c) && (code c <=? 90))%N then Some (code c - 55)%N
  else None.

Fixpoint digits_value (b : N) (acc : N) (s : string) : option N :=
  match s with
  | EmptyString => Some acc
  | String c s' =>
      match digit_value c with
      | Some d => if (d <? b)%N then digits_value b (acc * b + d)%N s' else None
      | None => None
      end
  end.

Definition decimal_value (s : string) : N :=
  match digits_value 10 0 s with Some n => n | None => 0%N end.

(** Decimal and lower-case hexadecimal numerals of a natural number. *)
Definition of_N (n : N) : string :=
  DecimalString.NilEmpty.string_of_uint (N.to_uint n).

Definition hex_of_N (n : N) : string :=
  HexadecimalString.NilEmpty.string_of_uint (N.to_hex_uint n).

End Str.

(** ** Numbers: IEEE-754 binary64 *)

Module Num.

Definition prec : Z := 53.
Definition emax : Z := 1024.

Definition double : Type := spec_float.

Definition nan : double := S754_nan.
Definition zero : double := S754_zero false.
Definition infinity : double := S754_infinity false.

Definition of_Z (z : Z) : double := binary_normalize prec emax z 0 false.

Definition add : double -> double -> double := SFadd prec emax.
Definition sub : double -> double -> double := SFsub prec emax.
Definition mul : double -> double -> double := SFmul prec emax.
Definition div : double -> double -> double := SFdiv prec emax.
Definition opp : double -> double := SFopp.

(** [x === y] and [x <= y] on numbers: false as soon as one side is NaN. *)
Definition eqb : double -> double -> bool := SFeqb.
Definition leb : double -> double -> bool := SFleb.
Definition ltb : double -> double -> bool := SFltb.

Definition is_nan (x : double) : bool :=
  match x with S754_nan => true | _ => false end.

(** ToBoolean on a number: false for +0, -0 and NaN. *)
Definition truthy (x : double) : bool :=
  match x with S754_zero _ | S754_nan => false | _ => true end.

(** The double nearest to [m * 10^e] (ties to even). *)
Definition of_decimal (m : N) (e : Z) : double :=
  match m with
  | N0 => zero
  | Npos p =>
      if 0 <=? e then binary_normalize prec emax (Zpos p * 10 ^ e) 0 false
      else div (S754_finite false p 0) (S754_finite false (Z.to_pos (10 ^ (- e))) 0)
  end.

(** *** Number::toString, radix 10 *)

(** A positive finite double [m * 2^e] as a fraction. *)
Definition ratio (m : positive) (e : Z) : Z * Z :=
  if 0 <=? e then (Zpos m * 2 ^ e, 1) else (Zpos m, 2 ^ (- e)).

Fixpoint first_scale (fuel : nat) (j : Z) (num den : Z) : Z :=
  match fuel with
  | O => j
  | S f => if den <=? num * 10 ^ j then j else first_scale f (j + 1) num den
  end.

(** The [n] with [10^(n-1) <= num/den < 10^n]. *)
Definition decimal_exponent (num den : Z) : Z :=
  if den <=? num then Z.of_nat (String.length (Str.of_N (Z.to_N (num / den))))
  else 1 - first_scale 400 1 num den.

(** The [k]-digit integers [s] next to [x * 10^(k-n)] that read back as [x];
    the nearer one when both do, the even one on a tie. *)
Definition candidate (x : double) (num den n0 k : Z) : option (Z * Z) :=
  let p := k - n0 in
  let ynum := if 0 <=? p then num * 10 ^ p else num in
  let yden := if 0 <=? p then den else den * 10 ^ (- p) in
  let lo := ynum / yden in
  let r := ynum mod yden in
  let hi := if lo + 1 <? 10 ^ k then (lo + 1, n0) else (10 ^ (k - 1), n0 + 1) in
  let reads_back (c : Z * Z) := eqb (of_decimal (Z.to_N (fst c)) (snd c - k)) x in
  match reads_back (lo, n0), reads_back hi with
  | true, true =>
      Some match 2 * r ?= yden with
           | Lt => (lo, n0)
           | Gt => hi
           | Eq => if Z.even lo then (lo, n0) else hi
           end
  | true, false => Some (lo, n0)
  | false, true => Some hi
  | false, false => None
  end.

(** The digits [s] and the exponent [n] of step 5 of Number::toString: the
    least number of digits [k] for which a candidate exists. *)
Fixpoint shortest (fuel : nat) (k : Z) (x : double) (num den n0 : Z) : Z * Z :=
  match fuel with
  | O => (0, n0)
  | S f =>
      match candidate x num den n0 k with
      | Some c => c
      | None => shortest f (k + 1) x num den n0
      end
  end.

(** Steps 6 to 10: lay the digits [ds] out around the decimal point, or in
    exponent notation. *)
Definition format_decimal (ds : string) (n : Z) : string :=
  let k := Z.of_nat (String.length ds) in
  if (k <=? n) && (n <=? 21) then ds +:+ Str.repeat_char "0" (Z.to_nat (n - k))
  else if (0 <? n) && (n <=? 21) then
    Str.take (Z.to_nat n) ds +:+ "." +:+ Str.drop (Z.to_nat n) ds
  else if (-6 <? n) && (n <=? 0) then
    "0." +:+ Str.repeat_char "0" (Z.to_nat (- n)) +:+ ds
  else
    let e := n - 1 in
    let es := (if e <? 0 then "-" else "+") +:+ Str.of_N (Z.to_N (Z.abs e)) in
    match ds with
    | String d EmptyString => String d ("e" +:+ es)
    | String d rest => String d ("." +:+ rest +:+ "e" +:+ es)
    | EmptyString => "e" +:+ es
    end.

Definition to_string (x : double) : string :=
  match x with
  | S754_nan => "NaN"
  | S754_zero _ => "0"
  | S754_infinity s => if s then "-Infinity" else "Infinity"
  | S754_finite s m e =>
      let (num, den) := ratio m e in
      let (d, n) :=
        shortest 17 1 (S754_finite false m e) num den (decimal_exponent num den) in
      (if s then "-" else "") +:+ format_decimal (Str.of_N (Z.to_N d)) n
  end.

(** *** StrDecimalLiteral: the prefix read by [parseFloat] *)

Definition is_exponent_indicator (c : ascii) : bool :=
  (Str.code c =? 101)%N || (Str.code c =? 69)%N.

(** ExponentPart, if one starts here: its text, its value and the rest. *)
Definition scan_exponent (s : string) : string * Z * string :=
  match s with
  | String c s1 =>
      if is_exponent_indicator c then
        let '(sign, neg, s2) :=
          match Str.strip_prefix "+" s1, Str.strip_prefix "-" s1 with
          | Some t, _ => ("+", false, t)
          | None, Some t => ("-", true, t)
          | None, None => ("", false, s1)
          end in
        let (ds, r) := Str.span_digits s2 in
        if Str.is_empty ds then ("", 0, s)
        else
          let v := Z.of_N (Str.decimal_value ds) in
          (String c (sign +:+ ds), if neg then - v else v, r)
      else ("", 0, s)
  | EmptyString => ("", 0, s)
  end.

(** StrUnsignedDecimalLiteral: the text read, its value, and the rest. *)
Definition scan_unsigned (s : string) : option (string * double * string) :=
  match Str.strip_prefix "Infinity" s with
  | Some r => Some ("Infinity", infinity, r)
  | None =>
      let (ip, r1) := Str.span_digits s in
      match Str.strip_prefix "." r1 with
      | Some r2 =>
          let (fp, r3) := Str.span_digits r2 in
          if Str.is_empty ip && Str.is_empty fp then None
          else
            let '(et, ev, r4) := scan_exponent r3 in
            Some (ip +:+ "." +:+ fp +:+ et,
                  of_decimal (Str.decimal_value (ip +:+ fp))
                    (ev - Z.of_nat (String.length fp)),
                  r4)
      | None =>
          if Str.is_empty ip then None
          else
            let '(et, ev, r4) := scan_exponent r1 in
            Some (ip +:+ et, of_decimal (Str.decimal_value ip) ev, r4)
      end
  end.

(** StrDecimalLiteral: an optional sign before the unsigned literal. *)
Definition scan_decimal (s : string) : option (string * double * string) :=
  match Str.strip_prefix "+" s, Str.strip_prefix "-" s with
  | Some t, _ =>
      match scan_unsigned t with
      | Some (txt, v, r) => Some (String "+" txt, v, r)
      | None => None
      end
  | None, Some t =>
      match scan_unsigned t with
      | Some (txt, v, r) => Some (String "-" txt, opp v, r)
      | None => None
      end
  | None, None => scan_unsigned s
  end.

(** [Number.parseFloat] on a string: the value of the longest prefix of the
    input, leading white space skipped, that is a StrDecimalLiteral. *)
Definition parseFloat (s : string) : double :=
  match scan_decimal (Str.trimStart s) with
  | Some (_, v, _) => v
  | None => nan
  end.

(** The text of that prefix: the magnitude as it is written ([""] if none). *)
Definition written_magnitude (s : string) : string :=
  match scan_decimal (Str.trimStart s) with
  | Some (txt, _, _) => txt
  | None => ""
  end.

(** NonDecimalIntegerLiteral: [0x], [0o] and [0b] numerals. *)
Definition scan_radix (s : string) : option double :=
  match s with
  | String "0" (String c ds) =>
      let base : option N :=
        if ((Str.code c =? 120) || (Str.code c =? 88))%N then Some 16%N
        else if ((Str.code c =? 111) || (Str.code c =? 79))%N then Some 8%N
        else if ((Str.code c =? 98) || (Str.code c =? 66))%N then Some 2%N
        else None in
      match base with
      | Some b =>
          if Str.is_empty ds then None
          else option_map (fun n => of_Z (Z.of_N n)) (Str.digits_value b 0 ds)
      | None => None
      end
  | _ => None
  end.

(** StringToNumber, the ToNumber conversion of a string: the whole trimmed
    text must be a numeric literal. *)
Definition of_string (s : string) : double :=
  let t := Str.trim s in
  if Str.is_empty t then zero
  else
    match scan_decimal t with
    | Some (_, v, EmptyString) => v
    | _ => match scan_radix t with Some v => v | None => nan end
    end.

(** *** ToInt32 *)

Definition truncate (x : double) : Z :=
  match x with
  | S754_finite s m e =>
      let a := if 0 <=? e then Zpos m * 2 ^ e else Zpos m / 2 ^ (- e) in
      if s then - a else a
  | _ => 0
  end.

Definition to_int32 (x : double) : Z :=
  let i := truncate x mod 2 ^ 32 in
  if 2 ^ 31 <=? i then i - 2 ^ 32 else i.

End Num.

(** ** Values and coercions *)

(** A function value is opaque: [VFun src] only carries the text that
    [Function.prototype.toString] gives for it. *)
Inductive value : Type :=
| VUndefined
| VNull
| VBool (b : bool)
| VNum (x : Num.double)
| VStr (s : string)
| VObj (props : list (string * value))
| VFun (src : string).

(** Own enumerable properties, in enumeration order. *)
Definition object : Type := list (string * value).

Fixpoint obj_lookup (o : object) (k : string) : option value :=
  match o with
  | [] => None
  | (k', v) :: o' => if String.eqb k k' then Some v else obj_lookup o' k
  end.

(** [o[k]] *)
Definition obj_get (o : object) (k : string) : value :=
  match obj_lookup o k with Some v => v | None => VUndefined end.

(** [o[k] = v]: an existing property keeps its place, a new one comes last. *)
Fixpoint obj_set (o : object) (k : string) (v : value) : object :=
  match o with
  | [] => [(k, v)]
  | (k', v') :: o' =>
      if String.eqb k k' then (k', v) :: o' else (k', v') :: obj_set o' k v
  end.

(** [delete o[k]] *)
Fixpoint obj_delete (o : object) (k : string) : object :=
  match o with
  | [] => []
  | (k', v') :: o' =>
      if String.eqb k k' then o' else (k', v') :: obj_delete o' k
  end.

Definition obj_keys (o : object) : list string := map fst o.

(** ToBoolean *)
Definition truthy (v : value) : bool :=
  match v with
  | VUndefined | VNull => false
  | VBool b => b
  | VNum x => Num.truthy x
  | VStr s => negb (Str.is_empty s)
  | VObj _ | VFun _ => true
  end.

(** ToString; a plain object has no [toString] of its own. *)
Definition to_string (v : value) : string :=
  match v with
  | VUndefined => "undefined"
  | VNull => "null"
  | VBool b => if b then "true" else "false"
  | VNum x => Num.to_string x
  | VStr s => s
  | VObj _ => "[object Object]"
  | VFun src => src
  end.

(** ToPrimitive *)
Definition to_primitive (v : value) : value :=
  match v with
  | VObj _ | VFun _ => VStr (to_string v)
  | _ => v
  end.

(** ToNumber *)
Definition to_number (v : value) : Num.double :=
  match v with
  | VUndefined => Num.nan
  | VNull => Num.zero
  | VBool b => if b then Num.of_Z 1 else Num.zero
  | VNum x => x
  | VStr s => Num.of_string s
  | VObj _ | VFun _ => Num.of_string (to_string v)
  end.

Definition is_string (v : value) : bool :=
  match v with VStr _ => true | _ => false end.

(** [typeof v === 'number'] *)
Definition is_number (v : value) : bool :=
  match v with VNum _ => true | _ => false end.

(** [Number.isNaN] *)
Definition isNaN (v : value) : bool :=
  match v with VNum x => Num.is_nan x | _ => false end.

(** [Number.parseFloat(v)] *)
Definition parseFloat (v : value) : Num.double := Num.parseFloat (to_string v).

(** [a + b] *)
Definition js_add (a b : value) : value :=
  let pa := to_primitive a in
  let pb := to_primitive b in
  if is_string pa || is_string pb then VStr (to_string pa +:+ to_string pb)
  else VNum (Num.add (to_number pa) (to_number pb)).

(** [a * b] *)
Definition js_mul (a b : value) : Num.double := Num.mul (to_number a) (to_number b).

(** [x <= b] for a number [x]: the comparison is numeric, and false on NaN. *)
Definition js_le (x : Num.double) (b : value) : bool := Num.leb x (to_number b).

(** [x > b] for a number [x]. *)
Definition js_gt (x : Num.double) (b : value) : bool := Num.ltb (to_number b) x.

(** [a & b] *)
Definition js_bitand (a b : value) : value :=
  VNum (Num.of_Z (Z.land (Num.to_int32 (to_number a)) (Num.to_int32 (to_number b)))).

(** [a || b] and [a && b] *)
Definition js_or (a b : value) : value := if truthy a then a else b.
Definition js_and (a b : value) : value := if truthy a then b else a.

(** A canonical array index: the decimal numeral of a natural number. *)
Definition array_index (k : string) : option nat :=
  match Str.digits_value 10 0 k with
  | Some n => if negb (Str.is_empty k) && String.eqb (Str.of_N n) k
              then Some (N.to_nat n) else None
  | None => None
  end.

(** What the run time adds to the properties a value of the model holds:
    [proto v k] is what [v[k]] gives when [k] is not one of them, that is the
    property found along the prototype chain of [v] ([String.prototype.small],
    [Object.prototype.constructor], ...) or an own property that is not
    enumerable (the [length] and the [name] of a function), and [undefined]
    when there is none.  The prototypes belong to the engine, not to the two
    files.  A read that throws (the [caller] of a strict function) is outside
    the model. *)
Definition Builtins : Type := value -> string -> value.

(** [v[k]]: the own properties first (the properties of a plain object, the
    length and the code units of a string), then what the run time adds.  The
    programs read no property of [undefined] or [null]: they test the value
    first. *)
Definition get_prop (proto : Builtins) (v : value) (k : string) : value :=
  match v with
  | VUndefined | VNull => VUndefined
  | VObj o =>
      match obj_lookup o k with
      | Some x => x
      | None => proto v k
      end
  | VStr s =>
      if String.eqb k "length" then VNum (Num.of_Z (Z.of_nat (String.length s)))
      else match array_index k with
           | Some i => match String.get i s with
                       | Some c => VStr (String c EmptyString)
                       | None => proto v k
                       end
           | None => proto v k
           end
  | VBool _ | VNum _ | VFun _ => proto v k
  end.

(** [ScaledSize] of react-native; only the two sides are read. *)
Record ScaledSize : Type := { width : Num.double; height : Num.double }.

(** A theme: its own properties, and what calling the function stored under
    [elevation] returns. *)
Record Theme : Type := {
  theme_props : object;
  elevation_fn : value -> object;
}.

Definition theme_get (theme : Theme) (k : string) : value :=
  obj_get (theme_props theme) k.

(** ** Errors *)

Inductive error : Type :=
| ExpectedString (str : value)
| NoUnit (str : string)
| UnknownUnit (str unit : string)
| UndefinedColorVariable (nameVariables : string)
| UndefinedVariable (nameVariables : string)
| NotAFunction (v : value).

(** The text given to [new Error]. *)
Definition message (e : error) : string :=
  match e with
  | ExpectedString str => "expected " +:+ to_string str +:+ " to be a string"
  | NoUnit str => "length string '" +:+ str +:+ "' contains no unit"
  | UnknownUnit str unit =>
      "cannot parse length string '" +:+ str +:+ "', unknown unit '" +:+ unit +:+ "'"
  | UndefinedColorVariable n =>
      "the color variable '$" +:+ n +:+ "' has not been defined in the theme."
  | UndefinedVariable n =>
      "the variable '" +:+ n +:+ "' has not been defined in the theme."
  | NotAFunction v => to_string v +:+ " is not a function"
  end.

Definition result (A : Type) : Type := error + A.
Definition ok {A : Type} (a : A) : result A := inr a.
Definition throw {A : Type} (e : error) : result A := inl e.

Definition bind {A B : Type} (r : result A) (f : A -> result B) : result B :=
  match r with inl e => inl e | inr a => f a end.

Notation "x <- r ;; k" := (bind r (fun x => k))
  (at level 100, r at next level, right associativity).

(** ** formatValues.ts *)

Definition formatValue (style : object) (dimensions : ScaledSize) (key : string)
  : value :=
  let widthValue := parseFloat (obj_get style "width") in
  let heightValue := parseFloat (obj_get style "height") in
  let unitWidth :=
    Str.replace (Str.trim (to_string (obj_get style "width")))
      (Num.to_string widthValue) "" in
  let unitHeight :=
    Str.replace (Str.trim (to_string (obj_get style "height")))
      (Num.to_string heightValue) "" in
  let returnValueWidth := if Str.is_empty unitWidth then "px" else unitWidth in
  let returnValueHeight := if Str.is_empty unitHeight then "px" else unitHeight in
  let somaRightLeft := js_add (obj_get style "marginLeft") (obj_get style "marginRight") in
  let somaTopBottom := js_add (obj_get style "marginTop") (obj_get style "marginBottom") in
  if truthy (obj_get style "width") && String.eqb key "width" then
    if js_le widthValue somaRightLeft then
      VStr (Num.to_string widthValue +:+ returnValueWidth)
    else
      VStr (Num.to_string
              (Num.sub widthValue
                 (Num.div (js_mul (VNum (Num.of_Z 100)) somaRightLeft)
                    (width dimensions)))
            +:+ returnValueWidth)
  else if truthy (obj_get style "height") && String.eqb key "height" then
    if js_le heightValue somaTopBottom then
      VStr (Num.to_string heightValue +:+ returnValueWidth)
    else
      VStr (Num.to_string
              (Num.sub heightValue
                 (Num.div (js_mul (VNum (Num.of_Z 100)) somaTopBottom)
                    (height dimensions)))
            +:+ returnValueHeight)
  else VUndefined.

(** ** theme.tsx: resolveLengthUnit *)

Definition resolveLengthUnit (str : value) (theme : Theme)
    (windowDimensions : ScaledSize) : result value :=
  if negb (truthy str) || is_number str then ok str
  else
    match str with
    | VStr s =>
        let value := Num.parseFloat s in
        if Num.eqb value Num.zero then ok (VNum Num.zero)
        else
          let unit := Str.replace (Str.trim s) (Num.to_string value) "" in
          if Str.is_empty unit then throw (NoUnit s)
          else if String.eqb unit "rem" then
            ok (js_or (VNum (js_mul (VNum value) (theme_get theme "rem")))
                  (VNum (Num.of_Z 8)))
          else if String.eqb unit "px" then ok (VNum value)
          else if String.eqb unit "%" then ok str
          else if String.eqb unit "vw" then
            ok (VNum (Num.div (Num.mul value (width windowDimensions))
                        (Num.of_Z 100)))
          else if String.eqb unit "vh" then
            ok (VNum (Num.div (Num.mul value (height windowDimensions))
                        (Num.of_Z 100)))
          else throw (UnknownUnit s unit)
    | _ => throw (ExpectedString str)
    end.

(** ** theme.tsx: the placeholder registry *)

(** [themeVariables], [currentColorId], and the number of calls made so far to
    the external [hashGenerate]. *)
Record Registry : Type := {
  hexForVarName : gmap string string;
  nameForHex : gmap string string;
  currentColorId : N;
  hashCalls : nat;
}.

Definition initialRegistry : Registry :=
  {| hexForVarName := ∅; nameForHex := ∅; currentColorId := 1; hashCalls := 0 |}.

(** [Map.prototype.get] with any value as the key: the keys are strings. *)
Definition map_get (m : gmap string string) (k : value) : option string :=
  match k with VStr s => m !! s | _ => None end.

(** [`#${n.toString(16).padStart(6, '0').toUpperCase()}00`] *)
Definition colorHash (n : N) : string :=
  "#" +:+ Str.toUpperCase (Str.padStart (Str.hex_of_N n) 6 "0") +:+ "00".

(** What both encoders return (lines 115-120 and 134-139): the placeholder,
    or with a truthy [fallback] the placeholder twice. *)
Definition placeholderFor (reg : Registry) (variableName : string)
    (fallback : option string) : string :=
  let bound :=
    match hexForVarName reg !! variableName with
    | Some h => h
    | None => "undefined"
    end in
  match fallback with
  | Some f => if Str.is_empty f then bound else bound +:+ " " +:+ bound
  | None => bound
  end.

(** [hashGenerate] is external: [hashGenerate i] is what its call number [i] returns. *)
Definition resolverLengsVariables (hashGenerate : nat -> string) (variableName : string)
    (fallback : option string) (reg : Registry) : string * Registry :=
  let reg' :=
    match hexForVarName reg !! variableName with
    | Some _ => reg
    | None =>
        let hash := hashGenerate (hashCalls reg) in
        {| hexForVarName := <[variableName := hash]> (hexForVarName reg);
           nameForHex := <[hash := Str.substring1 variableName]> (nameForHex reg);
           currentColorId := currentColorId reg;
           hashCalls := S (hashCalls reg) |}
    end in
  (placeholderFor reg' variableName fallback, reg').

(** The counter is a natural number here; as a double it is exact, and [++]
    advances it, up to [2^53]. *)
Definition resolveColorVariablePlaceholder (variableName : string)
    (fallback : option string) (reg : Registry) : string * Registry :=
  let reg' :=
    match hexForVarName reg !! variableName with
    | Some _ => reg
    | None =>
        let hash := colorHash (currentColorId reg) in
        {| hexForVarName := <[variableName := hash]> (hexForVarName reg);
           nameForHex := <[hash := Str.substring1 variableName]> (nameForHex reg);
           currentColorId := (currentColorId reg + 1)%N;
           hashCalls := hashCalls reg |}
    end in
  (placeholderFor reg' variableName fallback, reg').

(** A call to one of the two encoders. *)
Inductive call : Type :=
| CallColor (variableName : string) (fallback : option string)
| CallLength (variableName : string) (fallback : option string).

Definition run_call (hashGenerate : nat -> string) (c : call) (reg : Registry)
  : string * Registry :=
  match c with
  | CallColor n f => resolveColorVariablePlaceholder n f reg
  | CallLength n f => resolverLengsVariables hashGenerate n f reg
  end.

Definition call_name (c : call) : string :=
  match c with CallColor n _ | CallLength n _ => n end.

Definition call_fallback (c : call) : option string :=
  match c with CallColor _ f | CallLength _ f => f end.

(** The registry after a sequence of calls. *)
Definition run_calls (hashGenerate : nat -> string) (cs : list call) (reg : Registry)
  : Registry :=
  fold_left (fun r c => snd (run_call hashGenerate c r)) cs reg.

(** ** theme.tsx: findNestedObj *)

(** The replacer handed to [JSON.stringify]: [foundObj] is overwritten by every
    visited value that is truthy and on which [keyToFind] reads as a truthy
    value, be the property its own or inherited. *)
Definition replacer (proto : Builtins) (keyToFind : string)
    (foundObj nestedValue : value) : value :=
  if truthy nestedValue && truthy (get_prop proto nestedValue keyToFind)
  then nestedValue else foundObj.

(** [JSON.stringify] calls the replacer on the value, then serialises what it
    returned (the value itself): property after property for an object. *)
Fixpoint stringify (proto : Builtins) (keyToFind : string) (v : value)
    (foundObj : value) : value :=
  let foundObj := replacer proto keyToFind foundObj v in
  match v with
  | VObj props =>
      (fix props_loop (ps : list (string * value)) (foundObj : value) : value :=
         match ps with
         | [] => foundObj
         | (_, child) :: ps' =>
             props_loop ps' (stringify proto keyToFind child foundObj)
         end) props foundObj
  | _ => foundObj
  end.

Definition findNestedObj (proto : Builtins) (entireObj : value)
    (keyToFind : string) : value :=
  stringify proto keyToFind entireObj VUndefined.

(** The values [JSON.stringify] visits, in the order it visits them. *)
Fixpoint visited (v : value) : list value :=
  v :: match v with
       | VObj props =>
           (fix props_loop (ps : list (string * value)) : list value :=
              match ps with
              | [] => []
              | (_, child) :: ps' => visited child ++ props_loop ps'
              end) props
       | _ => []
       end.

(** A visited value under which the variable can be read. *)
Definition defines (proto : Builtins) (keyToFind : string) (v : value) : bool :=
  truthy v && truthy (get_prop proto v keyToFind).



(** ** theme.tsx: resolveThemeVariables *)

(** The collaborators that are not part of these two files, and the built-in
    properties of the engine the program runs on. *)
Record Externals : Type := {
  colorAttributes : string -> bool;
  lengthAttributes : string -> bool;
  convertValue : string -> value -> value -> value;
  plattformIsWeb : bool;
  builtins : Builtins;
}.

(** Lines 193-200 *)
Definition expandElevation (theme : Theme) (key : string) (styleObject : object)
  : result object :=
  if String.eqb key "elevation" && truthy (theme_get theme "elevation") then
    match theme_get theme "elevation" with
    | VFun _ =>
        let shadowStyleObject := elevation_fn theme (obj_get styleObject key) in
        ok (fold_left (fun o kv => obj_set o (fst kv) (snd kv))
              shadowStyleObject styleObject)
    | f => throw (NotAFunction f)
    end
  else ok styleObject.

(** Lines 207-219 and 226-235: the value bound to a registered placeholder. *)
Definition substituteVariable (proto : Builtins) (reg : Registry)
    (theme : Theme) (key : string) (hex : value)
    (undefinedError : string -> error) (styleObject : object)
  : result object :=
  match map_get (nameForHex reg) hex with
  | Some nameVariables =>
      if Str.is_empty nameVariables then ok styleObject
      else
        let findSize :=
          findNestedObj proto (VObj (theme_props theme)) nameVariables in
        if truthy findSize && truthy (get_prop proto findSize nameVariables) then
          ok (obj_set styleObject key (get_prop proto findSize nameVariables))
        else throw (undefinedError nameVariables)
  | None => ok styleObject
  end.

(** Lines 204-220 *)
Definition resolveColor (ext : Externals) (reg : Registry) (theme : Theme)
    (key : string) (styleObject : object) : result object :=
  if colorAttributes ext key then
    substituteVariable (builtins ext) reg theme key (obj_get styleObject key)
      UndefinedColorVariable styleObject
  else ok styleObject.

(** Lines 237-244: the expression evaluator on [calc], [max] and [min], then
    the unit conversion. *)
Definition convertLength (ext : Externals) (theme : Theme)
    (windowDimensions : ScaledSize) (units : value) (key : string)
    (styleObject : object) : result object :=
  let keyValue := to_string (obj_get styleObject key) in
  let styleObject :=
    if Str.startsWith keyValue "calc" || Str.startsWith keyValue "max"
       || Str.startsWith keyValue "min" then
      let converted := convertValue ext key (obj_get styleObject key) units in
      if negb (isNaN converted) then obj_set styleObject key converted
      else styleObject
    else styleObject in
  v <- resolveLengthUnit (obj_get styleObject key) theme windowDimensions ;;
  ok (obj_set styleObject key v).

(** Lines 222-245 *)
Definition resolveLength (ext : Externals) (reg : Registry) (theme : Theme)
    (windowDimensions : ScaledSize) (units : value) (key : string)
    (styleObject : object) : result object :=
  if lengthAttributes ext key then
    styleObject <-
      substituteVariable (builtins ext) reg theme key
        (VStr (to_string (obj_get styleObject key) +:+ "px"))
        UndefinedVariable styleObject ;;
    convertLength ext theme windowDimensions units key styleObject
  else ok styleObject.

(** The body of the [for .. in] loop, lines 193-245. *)
Definition resolveProperty (ext : Externals) (reg : Registry) (theme : Theme)
    (windowDimensions : ScaledSize) (units : value) (key : string)
    (styleObject : object) : result object :=
  styleObject <- expandElevation theme key styleObject ;;
  let styleObject :=
    if String.eqb key "cursor" && negb (plattformIsWeb ext)
    then obj_delete styleObject "cursor" else styleObject in
  styleObject <- resolveColor ext reg theme key styleObject ;;
  resolveLength ext reg theme windowDimensions units key styleObject.

(** Line 253: the test guarding the recomputation of width and height. *)
Definition marginCheck (styleObject : object) : bool :=
  let marginLeft := js_or (obj_get styleObject "marginLeft") VUndefined in
  let marginRight := js_or (obj_get styleObject "marginRight") VUndefined in
  let marginTop := js_or (obj_get styleObject "marginTop") VUndefined in
  let marginBottom := js_or (obj_get styleObject "marginBottom") VUndefined in
  truthy (js_and marginLeft
            (js_bitand (js_bitand marginRight marginTop) marginBottom)).

(** Lines 254-260 *)
Definition recomputeDimensions (styleObject : object) (theme : Theme)
    (windowDimensions : ScaledSize) : result object :=
  let widthValue := formatValue styleObject windowDimensions "width" in
  let heightValue := formatValue styleObject windowDimensions "height" in
  w <- resolveLengthUnit widthValue theme windowDimensions ;;
  let styleObject := obj_set styleObject "width" w in
  h <- resolveLengthUnit heightValue theme windowDimensions ;;
  ok (obj_set styleObject "height" h).

(** The loop runs over the keys the object has when it starts: a property
    added on the way (by the elevation) is not visited, and the only property
    removed, [cursor], is removed while it is the current one. *)
Definition resolveProperties (ext : Externals) (reg : Registry) (theme : Theme)
    (windowDimensions : ScaledSize) (units : value) (keys : list string)
    (styleObject : object) : result object :=
  fold_left
    (fun (acc : result object) (key : string) =>
       styleObject <- acc ;;
       resolveProperty ext reg theme windowDimensions units key styleObject)
    keys (ok styleObject).

Definition resolveThemeVariables (ext : Externals) (reg : Registry)
    (styleObject : object) (theme : Theme) (windowDimensions : ScaledSize)
    (units : value) : result object :=
  styleObject <-
    resolveProperties ext reg theme windowDimensions units
      (obj_keys styleObject) styleObject ;;
  if marginCheck styleObject then
    recomputeDimensions styleObject theme windowDimensions
  else ok styleObject.

(** ** Vocabulary of the statements *)

(** The unit [formatValue] keeps for a declared width or height (lines 7-11):
    what is left of the trimmed text once the magnitude is deleted, ['px'] when
    nothing is left. *)
Definition declaredUnit (v : value) : string :=
  let unit :=
    Str.replace (Str.trim (to_string v)) (Num.to_string (parseFloat v)) "" in
  if Str.is_empty unit then "px" else unit.

(** The unit as it is written: the text that follows the numeral
    [Number.parseFloat] reads, without the white space around (the whole
    trimmed text when no numeral starts it). *)
Definition writtenUnit (s : string) : string :=
  match Num.scan_decimal (Str.trimStart s) with
  | Some (_, _, rest) => Str.trimEnd rest
  | None => Str.trim s
  end.

(** That unit, or ['px'] when the text has none. *)
Definition writtenUnitOrPx (v : value) : string :=
  let unit := writtenUnit (to_string v) in
  if Str.is_empty unit then "px" else unit.

(** The unit [resolveLengthUnit] computes for a length string (line 154). *)
Definition unitText (s : string) : string :=
  Str.replace (Str.trim s) (Num.to_string (Num.parseFloat s)) "".

(** The units of the [switch] of line 156. *)
Definition knownUnits : list string := ["rem"; "px"; "%"; "vw"; "vh"].

(** A code unit that can begin a StrDecimalLiteral. *)
Definition starts_literal (c : ascii) : bool :=
  Str.is_digit c || Ascii.eqb "." c || Ascii.eqb "+" c || Ascii.eqb "-" c
  || Ascii.eqb "I" c.

(** Text before which a numeral ends: empty, or starting with a code unit that
    cannot continue a StrDecimalLiteral. *)
Definition ends_literal (r : string) : bool :=
  match r with
  | EmptyString => true
  | String c _ =>
      negb (Str.is_digit c || Ascii.eqb "." c || Num.is_exponent_indicator c)
  end.

(** What may follow the digits of a numeral: an exponent part [x] that the
    scanner reads in full, then text [r] that it leaves. *)
Definition literal_tail (x r : string) : Prop :=
  (exists v, Num.scan_exponent (x +:+ r) = (x, v, r))
  /\ match x +:+ r with
     | EmptyString => True
     | String c _ => Str.is_digit c = false /\ Ascii.eqb "." c = false
     end.

(** The two margins [formatValue] adds up for a dimension (lines 13-14). *)
Definition axisMargins (key : string) : string * string :=
  if String.eqb key "width" then ("marginLeft", "marginRight")
  else ("marginTop", "marginBottom").

(** A property that is missing, or holds a number. *)
Definition missingOrNumber (o : object) (k : string) : Prop :=
  match obj_lookup o k with
  | None => True
  | Some v => is_number v = true
  end.

(** What holds of the registry after any sequence of calls: every placeholder
    in it was made by the color counter or by [hashGenerate], and no two names
    share one. *)
Definition registry_inv (hashGenerate : nat -> string) (reg : Registry) : Prop :=
  (1 <= currentColorId reg)%N
  /\ (forall name h, hexForVarName reg !! name = Some h ->
       (exists n, (1 <= n < currentColorId reg)%N /\ h = colorHash n)
       \/ (exists i, (i < hashCalls reg)%nat /\ h = hashGenerate i))
  /\ (forall a b h, hexForVarName reg !! a = Some h ->
       hexForVarName reg !! b = Some h -> a = b).

(** On some value the serialiser visits in the theme, this name reads as a
    truthy value. *)
Definition definedIn (proto : Builtins) (theme : Theme) (name : string) : bool :=
  existsb (defines proto name) (visited (VObj (theme_props theme))).

Definition is_undefined (v : value) : bool :=
  match v with VUndefined => true | _ => false end.

(** No value of the theme has a property of this name, of its own or
    inherited. *)
Definition absentFrom (proto : Builtins) (theme : Theme) (name : string) : bool :=
  forallb (fun v => is_undefined (get_prop proto v name))
    (visited (VObj (theme_props theme))).

(** The two maps of the registry mirror each other: the placeholder of a name
    leads back to the name without its first character, and every placeholder
    known to [nameForHex] is the placeholder of such a name. *)
Definition registry_consistent (reg : Registry) : Prop :=
  (forall name h, hexForVarName reg !! name = Some h ->
     nameForHex reg !! h = Some (Str.substring1 name))
  /\ (forall h n, nameForHex reg !! h = Some n ->
      exists name, hexForVarName reg !! name = Some h /\ n = Str.substring1 name).

(** An upper-case hexadecimal digit. *)
Definition is_upper_hex (c : ascii) : bool :=
  Str.is_digit c || ((65 <=? Str.code c) && (Str.code c <=? 70))%N.

(** [o'] differs from [o] at most in the property [key]; key uniqueness is
    kept. *)
Definition touches_only (key : string) (o o' : object) : Prop :=
  (forall k, k <> key -> obj_lookup o' k = obj_lookup o k)
  /\ (NoDup (obj_keys o) -> NoDup (obj_keys o')).

(** A property on which the per-property pass has nothing to do: no elevation
    to expand, no [cursor] to remove, no registered placeholder, and for a
    length a value that is a number or falsy already. *)
Definition settled (ext : Externals) (reg : Registry) (theme : Theme)
    (styleObject : object) (key : string) : Prop :=
  (key <> "elevation" \/ truthy (theme_get theme "elevation") = false)
  /\ (key <> "cursor" \/ plattformIsWeb ext = true)
  /\ (colorAttributes ext key = false
      \/ map_get (nameForHex reg) (obj_get styleObject key) = None)
  /\ (lengthAttributes ext key = false
      \/ (nameForHex reg !! (to_string (obj_get styleObject key) +:+ "px") = None
          /\ (truthy (obj_get styleObject key) = false
              \/ is_number (obj_get styleObject key) = true))).

(** ** Sample data *)

Definition sampleViewport : ScaledSize :=
  {| width := Num.of_Z 100; height := Num.of_Z 100 |}.

(** A built-in function, as a value. *)
Definition nativeFunction (name : string) : value :=
  VFun ("function " +:+ name +:+ "() { [native code] }").

(** The methods of the standard prototypes (ECMAScript 2023, Annex B
    included). *)
Definition objectPrototype : list string :=
  ["hasOwnProperty"; "isPrototypeOf"; "propertyIsEnumerable"; "toLocaleString";
   "toString"; "valueOf"; "__defineGetter__"; "__defineSetter__";
   "__lookupGetter__"; "__lookupSetter__"].

Definition stringPrototype : list string :=
  ["anchor"; "at"; "big"; "blink"; "bold"; "charAt"; "charCodeAt";
   "codePointAt"; "concat"; "endsWith"; "fixed"; "fontcolor"; "fontsize";
   "includes"; "indexOf"; "italics"; "lastIndexOf"; "link"; "localeCompare";
   "match"; "matchAll"; "normalize"; "padEnd"; "padStart"; "repeat"; "replace";
   "replaceAll"; "search"; "slice"; "small"; "split"; "startsWith"; "strike";
   "sub"; "substr"; "substring"; "sup"; "toLocaleLowerCase";
   "toLocaleUpperCase"; "toLowerCase"; "toUpperCase"; "trim"; "trimEnd";
   "trimLeft"; "trimRight"; "trimStart"].

Definition numberPrototype : list string :=
  ["toExponential"; "toFixed"; "toPrecision"].

Definition functionPrototype : list string := ["apply"; "bind"; "call"].

(** The built-in properties of the samples: the standard prototypes of
    strings, numbers, booleans, functions and plain objects; the functions of
    the sample themes are [elevation] functions of one parameter. *)
Definition sampleBuiltins : Builtins := fun v k =>
  let methods :=
    match v with
    | VStr _ => stringPrototype
    | VNum _ => numberPrototype
    | VFun _ => functionPrototype
    | _ => []
    end ++ objectPrototype in
  let constructorName :=
    match v with
    | VStr _ => "String"
    | VNum _ => "Number"
    | VBool _ => "Boolean"
    | VFun _ => "Function"
    | _ => "Object"
    end in
  match v with
  | VUndefined | VNull => VUndefined
  | _ =>
      if String.eqb k "constructor" then nativeFunction constructorName
      else if String.eqb k "__proto__" then VObj []
      else
        match v, k with
        | VFun _, "length" => VNum (Num.of_Z 1)
        | VFun _, "name" => VStr "elevation"
        | _, _ => if bool_decide (k ∈ methods) then nativeFunction k
                  else VUndefined
        end
  end.

(** Attribute sets in the manner of [attribute-sets]; no expression evaluator
    is needed by the samples. *)
Definition sampleExternals : Externals :=
  {| colorAttributes := fun k => bool_decide (k ∈ ["color"; "backgroundColor"]);
     lengthAttributes := fun k =>
       bool_decide (k ∈ ["width"; "height"; "marginLeft"; "marginRight";
                          "marginTop"; "marginBottom"]);
     convertValue := fun _ _ _ => VNum Num.nan;
     plattformIsWeb := false;
     builtins := sampleBuiltins |}.

(** A theme in which both [sizes] and [colors] define [accent]. *)
Definition sampleTheme : Theme :=
  {| theme_props :=
       [("rem", VNum (Num.of_Z 8));
        ("sizes", VObj [("accent", VStr "4px")]);
        ("colors", VObj [("accent", VStr "red")])];
     elevation_fn := fun _ => [] |}.

(** All four margins truthy, with [1 & 2 = 0] among them. *)
Definition sampleMargins : object :=
  [("width", VNum (Num.of_Z 50));
   ("marginLeft", VNum (Num.of_Z 1)); ("marginRight", VNum (Num.of_Z 1));
   ("marginTop", VNum (Num.of_Z 2)); ("marginBottom", VNum (Num.of_Z 1))].

(** The registry once [$accent] has been given a color placeholder, which is
    ['#00000100']. *)
Definition sampleRegistry : Registry :=
  snd (resolveColorVariablePlaceholder "$accent" None initialRegistry).

(** A token generator for the samples: ['px'], ['hpx'], ['hhpx'], ... *)
Definition sampleHashGenerate (i : nat) : string :=
  Str.repeat_char "h" i +:+ "px".

(** * Properties *)

(** ** String functions *)

Lemma append_cons (c : ascii) (s t : string) :
  String c s +:+ t = String c (s +:+ t).
Proof. reflexivity. Qed.

Lemma append_empty_l (t : string) : "" +:+ t = t.
Proof. reflexivity. Qed.

Lemma append_empty_r (s : string) : s +:+ "" = s.
Proof. induction s as [|c s IH]; [ reflexivity | ]. now rewrite append_cons, IH. Qed.

Lemma append_assoc (a b c : string) : (a +:+ b) +:+ c = a +:+ (b +:+ c).
Proof.
  induction a as [|x a IH]; [ reflexivity | ]. now rewrite !append_cons, IH.
Qed.

Lemma is_empty_true (s : string) : Str.is_empty s = true -> s = "".
Proof. now destruct s. Qed.

Lemma is_empty_false (s : string) : Str.is_empty s = false -> s <> "".
Proof. now destruct s. Qed.

Lemma strip_prefix_app (p r : string) : Str.strip_prefix p (p +:+ r) = Some r.
Proof.
  induction p as [|c p IH]; [ now destruct r | ].
  rewrite append_cons. cbn [Str.strip_prefix]. now rewrite Ascii.eqb_refl.
Qed.

Lemma strip_prefix_Some (p s r : string) :
  Str.strip_prefix p s = Some r -> s = p +:+ r.
Proof.
  revert s. induction p as [|c p IH]; intros s.
  - destruct s; intros [= <-]; reflexivity.
  - destruct s as [|d s]; cbn [Str.strip_prefix]; [ discriminate | ].
    destruct (Ascii.eqb_spec c d) as [->|]; [ | discriminate ].
    intros H. rewrite append_cons. f_equal. now apply IH.
Qed.

Lemma strip_prefix_head (c d : ascii) (p s : string) :
  Ascii.eqb c d = false -> Str.strip_prefix (String c p) (String d s) = None.
Proof. intros H. cbn [Str.strip_prefix]. now rewrite H. Qed.

(** [replace] either leaves the text as it is, or takes one occurrence of the
    pattern out of it. *)
Lemma replace_cases (t pat : string) :
  Str.replace t pat "" = t
  \/ exists a b, t = a +:+ pat +:+ b /\ Str.replace t pat "" = a +:+ b.
Proof.
  induction t as [|c t IH].
  - cbn [Str.replace]. destruct (Str.strip_prefix pat "") eqn:E; [ | now left ].
    right. exists "", s.
      split; [ rewrite append_empty_l; now apply strip_prefix_Some | reflexivity ].
  - cbn [Str.replace]. destruct (Str.strip_prefix pat (String c t)) eqn:E.
    + right. exists "", s.
      split; [ rewrite append_empty_l; now apply strip_prefix_Some | reflexivity ].
    + destruct IH as [IH | (a & b & Ht & IH)]; rewrite IH.
      * now left.
      * right. exists (String c a), b. now rewrite Ht, !append_cons.
Qed.

Lemma trimEnd_split (u : string) :
  exists w, u = Str.trimEnd u +:+ w /\ Str.all_chars Str.is_whitespace w = true.
Proof.
  induction u as [|c u (w & Hu & Hw)]; [ now exists "" | ].
  cbn [Str.trimEnd].
  destruct (Str.is_whitespace c) eqn:Hc; cbn [andb];
    [ destruct (Str.is_empty (Str.trimEnd u)) eqn:He | ].
  - exists (String c u). split; [ reflexivity | ].
    cbn [Str.all_chars]. rewrite Hc. apply is_empty_true in He.
    rewrite He in Hu. cbn in Hu. now rewrite Hu.
  - exists w. rewrite append_cons. now rewrite <- Hu.
  - exists w. rewrite append_cons. now rewrite <- Hu.
Qed.

Lemma span_digits_app (d r : string) :
  Str.all_chars Str.is_digit d = true ->
  match r with EmptyString => true | String c _ => negb (Str.is_digit c) end = true ->
  Str.span_digits (d +:+ r) = (d, r).
Proof.
  intros Hd Hr. induction d as [|c d IH].
  - destruct r as [|c r]; [ reflexivity | ].
    cbn [String.append Str.span_digits]. change ("" +:+ String c r) with (String c r).
    cbn [Str.span_digits]. now destruct (Str.is_digit c).
  - cbn [Str.all_chars] in Hd. apply andb_prop in Hd as [Hc Hd].
    rewrite append_cons. cbn [Str.span_digits]. now rewrite Hc, IH.
Qed.

Lemma all_chars_app (p : ascii -> bool) (a b : string) :
  Str.all_chars p (a +:+ b) = Str.all_chars p a && Str.all_chars p b.
Proof.
  induction a as [|c a IH]; [ reflexivity | ].
  rewrite append_cons. cbn [Str.all_chars]. now rewrite IH, andb_assoc.
Qed.

Lemma all_chars_repeat (p : ascii -> bool) (c : ascii) (n : nat) :
  p c = true -> Str.all_chars p (Str.repeat_char c n) = true.
Proof.
  intros H. induction n as [|n IH]; [ reflexivity | ].
  cbn [Str.repeat_char Str.all_chars]. now rewrite H, IH.
Qed.

Lemma all_chars_take (p : ascii -> bool) (n : nat) (s : string) :
  Str.all_chars p s = true -> Str.all_chars p (Str.take n s) = true.
Proof.
  revert s. induction n as [|n IH]; intros [|c s]; try reflexivity.
  cbn [Str.all_chars Str.take]. intros H. apply andb_prop in H as [-> H].
  now rewrite IH.
Qed.

Lemma all_chars_drop (p : ascii -> bool) (n : nat) (s : string) :
  Str.all_chars p s = true -> Str.all_chars p (Str.drop n s) = true.
Proof.
  revert s. induction n as [|n IH]; intros [|c s]; try (now intros); cbn [Str.drop].
  cbn [Str.all_chars]. intros H. apply andb_prop in H as [_ H]. now apply IH.
Qed.

Lemma take_drop (n : nat) (s : string) : Str.take n s +:+ Str.drop n s = s.
Proof.
  revert s. induction n as [|n IH]; intros [|c s]; try reflexivity.
  cbn [Str.take Str.drop]. now rewrite append_cons, IH.
Qed.

(** Decimal numerals are non-empty strings of digits. *)
Lemma of_N_digits (n : N) : Str.all_chars Str.is_digit (Str.of_N n) = true.
Proof.
  unfold Str.of_N. induction (N.to_uint n); cbn; auto.
Qed.

Lemma of_N_nonempty (n : N) : Str.of_N n <> "".
Proof.
  unfold Str.of_N. destruct n as [|p]; [ discriminate | ].
  cbn [N.to_uint]. pose proof (DecimalPos.Unsigned.to_uint_nonnil p) as H.
  destruct (Pos.to_uint p); try discriminate. congruence.
Qed.

(** ** Numbers *)

Lemma SFcompare_Lt_Gt (x y : spec_float) :
  SFcompare x y = Some Lt -> SFcompare y x = Some Gt.
Proof.
  destruct x as [sx|sx| |sx mx ex], y as [sy|sy| |sy my ey]; simpl;
    try destruct sx; try destruct sy; simpl; try congruence.
  - rewrite (Z.compare_antisym ex ey).
    destruct (ex ?= ey) eqn:E; simpl; try congruence.
    pose proof (Pos.compare_cont_antisym mx my Eq) as A; simpl in A; rewrite <- A.
    destruct (Pos.compare_cont Eq mx my); simpl; congruence.
  - rewrite (Z.compare_antisym ex ey).
    destruct (ex ?= ey) eqn:E; simpl; try congruence.
    pose proof (Pos.compare_cont_antisym mx my Eq) as A; simpl in A; rewrite <- A.
    destruct (Pos.compare_cont Eq mx my); simpl; congruence.
Qed.

(** [y < x] excludes [x <= y]. *)
Lemma ltb_leb_false (x y : Num.double) :
  Num.ltb y x = true -> Num.leb x y = false.
Proof.
  unfold Num.ltb, Num.leb, SFltb, SFleb.
  destruct (SFcompare y x) as [[]|] eqn:E; try discriminate.
  intros _. now rewrite (SFcompare_Lt_Gt _ _ E).
Qed.

Lemma add_nan_l (x : Num.double) : Num.add Num.nan x = Num.nan.
Proof. reflexivity. Qed.

Lemma add_nan_r (x : Num.double) : Num.add x Num.nan = Num.nan.
Proof. now destruct x. Qed.

Lemma sub_nan_r (x : Num.double) : Num.sub x Num.nan = Num.nan.
Proof. now destruct x. Qed.

Lemma leb_nan_r (x : Num.double) : Num.leb x Num.nan = false.
Proof. now destruct x. Qed.

Lemma mul_nan_r (x : Num.double) : Num.mul x Num.nan = Num.nan.
Proof. now destruct x. Qed.

(** A product with a falsy factor on the right is falsy, unless it is NaN
    already: in both cases [p || 8] is [8]. *)
Lemma mul_falsy_r (x y : Num.double) :
  Num.truthy y = false -> Num.truthy (Num.mul x y) = false.
Proof.
  destruct y as [s|s| |s m e]; try discriminate; intros _.
  - now destruct x.
  - now destruct x.
Qed.

(** ** The unit as written *)

Lemma any_char_app (p : ascii -> bool) (a b : string) :
  Str.any_char p (a +:+ b) = Str.any_char p a || Str.any_char p b.
Proof.
  induction a as [|c a IH]; [ reflexivity | ].
  rewrite append_cons. cbn [Str.any_char]. now rewrite IH, orb_assoc.
Qed.

Lemma digit_not_whitespace (c : ascii) :
  Str.is_digit c = true -> Str.is_whitespace c = false.
Proof. destruct c as [[] [] [] [] [] [] [] []]; cbn; intros; try discriminate; auto. Qed.

Lemma exponent_indicator_not_whitespace (c : ascii) :
  Num.is_exponent_indicator c = true -> Str.is_whitespace c = false.
Proof. destruct c as [[] [] [] [] [] [] [] []]; cbn; intros; try discriminate; auto. Qed.

Lemma digits_no_whitespace (d : string) :
  Str.all_chars Str.is_digit d = true -> Str.any_char Str.is_whitespace d = false.
Proof.
  induction d as [|c d IH]; [ reflexivity | ]. cbn [Str.all_chars Str.any_char].
  intros H. apply andb_prop in H as [Hc Hd].
  now rewrite (digit_not_whitespace c Hc), IH.
Qed.

(** The digits [span_digits] reads, and what it leaves. *)
Lemma span_digits_spec (s d r : string) :
  Str.span_digits s = (d, r) ->
  s = d +:+ r /\ Str.all_chars Str.is_digit d = true.
Proof.
  revert d r. induction s as [|c s IH]; intros d r; cbn [Str.span_digits].
  - intros [= <- <-]. now split.
  - destruct (Str.is_digit c) eqn:Hc.
    + destruct (Str.span_digits s) as [d' r'].
      intros [= <- <-]. destruct (IH d' r' eq_refl) as [-> Hd].
      split; [ reflexivity | ]. cbn [Str.all_chars]. now rewrite Hc.
    + intros [= <- <-]. now split.
Qed.

(** The scanners split their input into the text they read and the rest, and
    read no white space. *)
Lemma scan_exponent_spec (s et r : string) (ev : Z) :
  Num.scan_exponent s = (et, ev, r) ->
  s = et +:+ r /\ Str.any_char Str.is_whitespace et = false.
Proof.
  unfold Num.scan_exponent. destruct s as [|c s1]; [ intros [= <- <- <-]; now split | ].
  destruct (Num.is_exponent_indicator c) eqn:Hc; [ | intros [= <- <- <-]; now split ].
  assert (Hsign : exists sign neg s2,
            match Str.strip_prefix "+" s1, Str.strip_prefix "-" s1 with
            | Some t, _ => ("+", false, t)
            | None, Some t => ("-", true, t)
            | None, None => ("", false, s1)
            end = (sign, neg, s2)
            /\ s1 = sign +:+ s2
            /\ Str.any_char Str.is_whitespace sign = false).
  { destruct (Str.strip_prefix "+" s1) as [t|] eqn:Ep.
    - apply strip_prefix_Some in Ep. now exists "+", false, t.
    - destruct (Str.strip_prefix "-" s1) as [t|] eqn:Em.
      + apply strip_prefix_Some in Em. now exists "-", true, t.
      + now exists "", false, s1. }
  destruct Hsign as (sign & neg & s2 & -> & -> & Hsign).
  destruct (Str.span_digits s2) as [ds r'] eqn:Hspan.
  apply span_digits_spec in Hspan as [-> Hds].
  destruct (Str.is_empty ds); [ intros [= <- <- <-]; now split | ].
  intros [= <- <- <-]. split.
  - now rewrite !append_cons, append_assoc.
  - cbn [Str.any_char].
    rewrite (exponent_indicator_not_whitespace c Hc), any_char_app, Hsign.
    now rewrite (digits_no_whitespace ds Hds).
Qed.

Lemma scan_unsigned_spec (s txt r : string) (v : Num.double) :
  Num.scan_unsigned s = Some (txt, v, r) ->
  s = txt +:+ r /\ Str.any_char Str.is_whitespace txt = false /\ txt <> "".
Proof.
  unfold Num.scan_unsigned.
  destruct (Str.strip_prefix "Infinity" s) as [r0|] eqn:Ei.
  - intros [= <- <- <-]. apply strip_prefix_Some in Ei.
    split; [ exact Ei | split; [ reflexivity | discriminate ] ].
  - destruct (Str.span_digits s) as [ip r1] eqn:Hip.
    apply span_digits_spec in Hip as [-> Hipd].
    destruct (Str.strip_prefix "." r1) as [r2|] eqn:Edot.
    + apply strip_prefix_Some in Edot. subst r1.
      destruct (Str.span_digits r2) as [fp r3] eqn:Hfp.
      apply span_digits_spec in Hfp as [-> Hfpd].
      destruct (Str.is_empty ip && Str.is_empty fp); [ discriminate | ].
      destruct (Num.scan_exponent r3) as [[et ev] r4] eqn:He.
      apply scan_exponent_spec in He as [-> Het].
      intros [= <- <- <-]. split; [ now rewrite !append_assoc | ]. split.
      * rewrite !any_char_app, (digits_no_whitespace ip Hipd),
          (digits_no_whitespace fp Hfpd), Het. reflexivity.
      * destruct ip; [ rewrite append_empty_l | rewrite append_cons ];
          discriminate.
    + destruct (Str.is_empty ip) eqn:Hne; [ discriminate | ].
      destruct (Num.scan_exponent r1) as [[et ev] r4] eqn:He.
      apply scan_exponent_spec in He as [-> Het].
      intros [= <- <- <-]. split; [ now rewrite !append_assoc | ]. split.
      * now rewrite any_char_app, (digits_no_whitespace ip Hipd), Het.
      * destruct ip; [ discriminate | rewrite append_cons; discriminate ].
Qed.

Lemma scan_decimal_spec (s txt r : string) (v : Num.double) :
  Num.scan_decimal s = Some (txt, v, r) ->
  s = txt +:+ r /\ Str.any_char Str.is_whitespace txt = false /\ txt <> "".
Proof.
  unfold Num.scan_decimal.
  destruct (Str.strip_prefix "+" s) as [t|] eqn:Ep.
  - apply strip_prefix_Some in Ep. subst s.
    destruct (Num.scan_unsigned t) as [[[txt' v'] r']|] eqn:E; [ | discriminate ].
    apply scan_unsigned_spec in E as (-> & Hw & _).
    intros [= <- <- <-]. split; [ reflexivity | ].
    split; [ cbn [Str.any_char]; now rewrite Hw | discriminate ].
  - destruct (Str.strip_prefix "-" s) as [t|] eqn:Em.
    + apply strip_prefix_Some in Em. subst s.
      destruct (Num.scan_unsigned t) as [[[txt' v'] r']|] eqn:E; [ | discriminate ].
      apply scan_unsigned_spec in E as (-> & Hw & _).
      intros [= <- <- <-]. split; [ reflexivity | ].
      split; [ cbn [Str.any_char]; now rewrite Hw | discriminate ].
    + apply scan_unsigned_spec.
Qed.

Lemma trimEnd_app (a b : string) :
  a <> "" -> Str.any_char Str.is_whitespace a = false ->
  Str.trimEnd (a +:+ b) = a +:+ Str.trimEnd b.
Proof.
  induction a as [|c a IH]; [ congruence | ]. intros _.
  cbn [Str.any_char]. intros H. apply orb_false_elim in H as [Hc Ha].
  rewrite !append_cons. cbn [Str.trimEnd]. rewrite Hc. cbn [andb].
  destruct a as [|c' a]; [ reflexivity | ].
  rewrite IH; [ reflexivity | discriminate | exact Ha ].
Qed.

Lemma replace_unfold (s pat rep : string) :
  Str.replace s pat rep =
    match Str.strip_prefix pat s with
    | Some rest => rep +:+ rest
    | None =>
        match s with
        | EmptyString => EmptyString
        | String c s' => String c (Str.replace s' pat rep)
        end
    end.
Proof. destruct s; reflexivity. Qed.

Lemma replace_prefix (p t : string) : Str.replace (p +:+ t) p "" = t.
Proof. now rewrite replace_unfold, strip_prefix_app. Qed.

(** For a text whose magnitude is written as [String] renders it, what
    [replace] leaves is the unit as written. *)
Lemma canonical_unit (s : string) :
  Num.written_magnitude s = Num.to_string (Num.parseFloat s) ->
  Str.replace (Str.trim s) (Num.to_string (Num.parseFloat s)) "" = writtenUnit s.
Proof.
  unfold Num.written_magnitude, Num.parseFloat, writtenUnit, Str.trim.
  destruct (Num.scan_decimal (Str.trimStart s)) as [[[txt x] rest]|] eqn:E;
    [ | discriminate ].
  intros <-. apply scan_decimal_spec in E as (-> & Hw & Hne).
  now rewrite (trimEnd_app txt rest Hne Hw), replace_prefix.
Qed.

Lemma declaredUnit_canonical (v : value) :
  Num.written_magnitude (to_string v) = Num.to_string (parseFloat v) ->
  declaredUnit v = writtenUnitOrPx v.
Proof.
  intros H. unfold declaredUnit, writtenUnitOrPx, parseFloat in *.
  now rewrite (canonical_unit _ H).
Qed.

(** ** formatValue *)

(** C8, as the code has it.  When the declared width is truthy, its magnitude
    is strictly greater than [marginLeft + marginRight], and that magnitude is
    written the way [String] renders it (['50px'], ['0.5rem'], the number 50;
    not ['.5rem'], ['+50px'] or ['5.0px']), [formatValue(style, viewport,
    'width')] is the text of [magnitude - (100 * (marginLeft + marginRight)) /
    viewport.width] followed by the unit of the declared width, that is the
    text written after the magnitude (['px'] when there is none). *)
Theorem formatValue_width_adjusted (style : object) (dimensions : ScaledSize) :
  truthy (obj_get style "width") = true ->
  js_gt (parseFloat (obj_get style "width"))
    (js_add (obj_get style "marginLeft") (obj_get style "marginRight")) = true ->
  Num.written_magnitude (to_string (obj_get style "width"))
  = Num.to_string (parseFloat (obj_get style "width")) ->
  formatValue style dimensions "width" =
    VStr (Num.to_string
            (Num.sub (parseFloat (obj_get style "width"))
               (Num.div
                  (js_mul (VNum (Num.of_Z 100))
                     (js_add (obj_get style "marginLeft") (obj_get style "marginRight")))
                  (width dimensions)))
          +:+ writtenUnitOrPx (obj_get style "width")).
Proof.
  intros Hw Hgt Hcan. rewrite <- (declaredUnit_canonical _ Hcan).
  unfold formatValue, declaredUnit.
  rewrite Hw. cbn [andb String.eqb Ascii.eqb Bool.eqb].
  unfold js_gt in Hgt. unfold js_le.
  now rewrite (ltb_leb_false _ _ Hgt).
Qed.

(** The example of the specification: width ['50px'], margins 10 and 10,
    viewport width 100. *)
Lemma formatValue_width_adjusted_30px :
  formatValue
    [("width", VStr "50px"); ("marginLeft", VNum (Num.of_Z 10));
     ("marginRight", VNum (Num.of_Z 10))]
    {| width := Num.of_Z 100; height := Num.of_Z 100 |} "width"
  = VStr "30px".
Proof.
  rewrite formatValue_width_adjusted;
    [ | reflexivity | reflexivity | vm_compute; reflexivity ].
  vm_compute. reflexivity.
Defined.

(** C8 as the specification states it fails on widths whose magnitude is
    written otherwise: the unit of ['+50px'] and of ['.5rem'] is ['px'] and
    ['rem'], and what is appended is ['+px'] and ['.5rem']. *)
Lemma formatValue_width_written_otherwise :
  writtenUnit "+50px" = "px"
  /\ formatValue
       [("width", VStr "+50px"); ("marginLeft", VNum (Num.of_Z 10));
        ("marginRight", VNum (Num.of_Z 10))] sampleViewport "width"
     = VStr "30+px"
  /\ writtenUnit ".5rem" = "rem"
  /\ formatValue
       [("width", VStr ".5rem"); ("marginLeft", VNum (Num.of_decimal 1 (-1)));
        ("marginRight", VNum (Num.of_decimal 1 (-1)))] sampleViewport "width"
     = VStr "0.3.5rem".
Proof. vm_compute. repeat split. Qed.

(** C2. When the declared height is truthy and its magnitude is at most
    [marginTop + marginBottom], [formatValue(style, viewport, 'height')] is
    the magnitude followed by the unit of the declared _width_ (line 22 reads
    [returnValueWidth]), not by the unit of the height. *)
Theorem formatValue_height_dominated (style : object) (dimensions : ScaledSize) :
  truthy (obj_get style "height") = true ->
  js_le (parseFloat (obj_get style "height"))
    (js_add (obj_get style "marginTop") (obj_get style "marginBottom")) = true ->
  formatValue style dimensions "height" =
    VStr (Num.to_string (parseFloat (obj_get style "height"))
          +:+ declaredUnit (obj_get style "width")).
Proof.
  intros Hh Hle. unfold formatValue, declaredUnit.
  cbn [String.eqb Ascii.eqb Bool.eqb]. rewrite andb_false_r.
  rewrite Hh. cbn [andb]. now rewrite Hle.
Qed.

(** A height of ['10vh'] under margins 6 and 6 comes back as ['10rem'] when the
    width is ['5rem']. *)
Lemma formatValue_height_dominated_10rem :
  declaredUnit (VStr "10vh") = "vh" /\
  formatValue
    [("width", VStr "5rem"); ("height", VStr "10vh");
     ("marginTop", VNum (Num.of_Z 6)); ("marginBottom", VNum (Num.of_Z 6))]
    {| width := Num.of_Z 100; height := Num.of_Z 100 |} "height"
  = VStr "10rem".
Proof.
  split; [ vm_compute; reflexivity | ].
  rewrite formatValue_height_dominated; [ | reflexivity | reflexivity ].
  vm_compute. reflexivity.
Defined.

(** The sum of two margins one of which is missing, the other missing or a
    number, is NaN. *)
Lemma missing_margin_sum (style : object) (a b : string) :
  obj_lookup style a = None \/ obj_lookup style b = None ->
  missingOrNumber style a -> missingOrNumber style b ->
  js_add (obj_get style a) (obj_get style b) = VNum Num.nan.
Proof.
  unfold missingOrNumber, obj_get.
  destruct (obj_lookup style a) as [va|], (obj_lookup style b) as [vb|];
    intros [H|H] Ha Hb; try discriminate; try reflexivity.
  - destruct va; try discriminate. unfold js_add. cbn. now rewrite add_nan_r.
  - destruct vb; try discriminate. reflexivity.
Qed.

(** C4, as the code has it.  The margin sums are the JS sums of the stored
    values: a missing margin reads as [undefined], not as 0.  When a margin of
    the axis is missing and the other one is missing or a number, the sum is
    NaN and a truthy dimension comes back as ['NaN'] followed by its unit. *)
Theorem formatValue_missing_margin (style : object) (dimensions : ScaledSize)
    (key : string) :
  key = "width" \/ key = "height" ->
  truthy (obj_get style key) = true ->
  obj_lookup style (fst (axisMargins key)) = None
    \/ obj_lookup style (snd (axisMargins key)) = None ->
  missingOrNumber style (fst (axisMargins key)) ->
  missingOrNumber style (snd (axisMargins key)) ->
  formatValue style dimensions key =
    VStr ("NaN" +:+ declaredUnit (obj_get style key)).
Proof.
  intros [-> | ->] Hk Hmiss Ha Hb; cbn in Hmiss, Ha, Hb;
    pose proof (missing_margin_sum _ _ _ Hmiss Ha Hb) as Hsum;
    unfold formatValue, declaredUnit; rewrite Hsum;
    cbn [String.eqb Ascii.eqb Bool.eqb].
  - rewrite Hk. cbn [andb]. unfold js_le, js_mul. cbn [to_number].
    now rewrite leb_nan_r, mul_nan_r, sub_nan_r.
  - rewrite andb_false_r, Hk. cbn [andb]. unfold js_le, js_mul. cbn [to_number].
    now rewrite leb_nan_r, mul_nan_r, sub_nan_r.
Qed.

(** With [marginRight] missing, a width of ['50px'] comes back as ['NaNpx']. *)
Lemma formatValue_missing_margin_NaNpx :
  formatValue [("width", VStr "50px"); ("marginLeft", VNum (Num.of_Z 10))]
    {| width := Num.of_Z 100; height := Num.of_Z 100 |} "width"
  = VStr "NaNpx".
Proof.
  rewrite (formatValue_missing_margin _ _ "width");
    [ reflexivity | left; reflexivity | reflexivity | right; reflexivity
    | reflexivity | exact I ].
Defined.

(** The example of C4 as the specification states it: the result is not
    ['40px'], it is a NaN-valued string. *)
Lemma formatValue_missing_margin_not_40px :
  let r :=
    formatValue [("width", VStr "50px"); ("marginLeft", VNum (Num.of_Z 10))]
      {| width := Num.of_Z 100; height := Num.of_Z 100 |} "width" in
  r <> VStr "40px" /\ r = VStr "NaNpx".
Proof. vm_compute. split; [ discriminate | reflexivity ]. Qed.

(** ** resolveLengthUnit *)

Lemma falsy_to_number (v : value) :
  truthy v = false -> Num.truthy (to_number v) = false.
Proof.
  destruct v as [ | |b|x|s| |]; cbn; try discriminate; try reflexivity.
  - now destruct b.
  - trivial.
  - now destruct s.
Qed.

Lemma unitText_nonempty (s : string) : unitText s <> "" -> s <> "".
Proof. intros H ->. now apply H. Qed.

(** C3, as the code has it.  For a length in [rem] the result is
    [value * theme.rem || 8]: the default applies to the product.  With a falsy
    root metric the product is 0 or NaN, and every [rem] length resolves
    to 8. *)
Theorem resolveLengthUnit_rem_falsy_root (s : string) (theme : Theme)
    (windowDimensions : ScaledSize) :
  Num.eqb (Num.parseFloat s) Num.zero = false ->
  unitText s = "rem" ->
  truthy (theme_get theme "rem") = false ->
  resolveLengthUnit (VStr s) theme windowDimensions = ok (VNum (Num.of_Z 8)).
Proof.
  intros Hnz Hunit Hrem. unfold resolveLengthUnit.
  assert (Hs : s <> "") by (apply unitText_nonempty; rewrite Hunit; discriminate).
  destruct s as [|c s]; [ congruence | ]. cbn [truthy Str.is_empty negb is_number orb].
  rewrite Hnz. fold (unitText (String c s)). rewrite Hunit.
  cbn [Str.is_empty String.eqb Ascii.eqb Bool.eqb].
  unfold js_or, js_mul. cbn [truthy to_number].
  now rewrite (mul_falsy_r _ _ (falsy_to_number _ Hrem)).
Qed.

(** ['2rem'] under a root metric of 0 is 8, not 16. *)
Lemma resolveLengthUnit_2rem_root_0 :
  resolveLengthUnit (VStr "2rem")
    {| theme_props := [("rem", VNum Num.zero)]; elevation_fn := fun _ => [] |}
    {| width := Num.of_Z 100; height := Num.of_Z 100 |}
  = ok (VNum (Num.of_Z 8))
  /\ VNum (Num.of_Z 8) <> VNum (Num.of_Z 16).
Proof.
  split.
  - apply resolveLengthUnit_rem_falsy_root; reflexivity.
  - vm_compute. discriminate.
Defined.

(** ['2rem'] under a root metric of 10 is 20. *)
Lemma resolveLengthUnit_2rem_root_10 (windowDimensions : ScaledSize) :
  resolveLengthUnit (VStr "2rem")
    {| theme_props := [("rem", VNum (Num.of_Z 10))]; elevation_fn := fun _ => [] |}
    windowDimensions
  = ok (VNum (Num.of_Z 20)).
Proof. reflexivity. Qed.

Lemma knownUnits_spec (u : string) :
  u ∈ knownUnits <->
  u = "rem" \/ u = "px" \/ u = "%" \/ u = "vw" \/ u = "vh".
Proof.
  unfold knownUnits. rewrite !elem_of_cons, elem_of_nil. tauto.
Qed.

(** A non-empty string with a non-zero parsed magnitude: the outcome is
    decided by the unit text alone. *)
Lemma resolveLengthUnit_string (s : string) (theme : Theme)
    (windowDimensions : ScaledSize) :
  s <> "" ->
  Num.eqb (Num.parseFloat s) Num.zero = false ->
  (unitText s = "" ->
   resolveLengthUnit (VStr s) theme windowDimensions = throw (NoUnit s))
  /\ (unitText s ∈ knownUnits ->
      exists v, resolveLengthUnit (VStr s) theme windowDimensions = ok v)
  /\ (unitText s <> "" -> unitText s ∉ knownUnits ->
      resolveLengthUnit (VStr s) theme windowDimensions
      = throw (UnknownUnit s (unitText s))).
Proof.
  intros Hs Hnz. unfold resolveLengthUnit.
  destruct s as [|c s]; [ congruence | ].
  cbn [truthy Str.is_empty negb is_number orb]. rewrite Hnz.
  fold (unitText (String c s)).
  split; [ | split ].
  - now intros ->.
  - intros Hin. apply knownUnits_spec in Hin.
    destruct Hin as [-> | [-> | [-> | [-> | ->]]]]; now eexists.
  - intros Hne Hin. rewrite knownUnits_spec in Hin.
    destruct (unitText (String c s)) as [|u us] eqn:E; [ congruence | ].
    cbn [Str.is_empty].
    repeat match goal with
    | |- context [String.eqb ?a ?b] =>
        destruct (String.eqb_spec a b); [ exfalso; apply Hin; tauto | ]
    end.
    reflexivity.
Qed.

(** C6. [resolveLengthUnit] throws in exactly three cases: a truthy input
    that is neither a number nor a string; a string with a non-zero parsed
    magnitude and no unit text left; a string with a non-zero parsed
    magnitude whose unit text is none of [rem], [px], [%], [vw], [vh] (the
    error names the unit and the string).  Falsy and numeric inputs come back
    unchanged, and a parsed magnitude of 0 gives 0 whatever the unit. *)
Theorem resolveLengthUnit_failure (str : value) (theme : Theme)
    (windowDimensions : ScaledSize) :
  (forall e : error,
     resolveLengthUnit str theme windowDimensions = throw e <->
     (truthy str = true /\ is_number str = false /\ is_string str = false
      /\ e = ExpectedString str)
     \/ (exists s, str = VStr s /\ truthy str = true
         /\ Num.eqb (Num.parseFloat s) Num.zero = false
         /\ unitText s = "" /\ e = NoUnit s)
     \/ (exists s, str = VStr s /\ truthy str = true
         /\ Num.eqb (Num.parseFloat s) Num.zero = false
         /\ unitText s <> "" /\ (unitText s ∉ knownUnits)
         /\ e = UnknownUnit s (unitText s)))
  /\ (truthy str = false \/ is_number str = true ->
      resolveLengthUnit str theme windowDimensions = ok str)
  /\ (forall s, str = VStr s -> truthy str = true ->
      Num.eqb (Num.parseFloat s) Num.zero = true ->
      resolveLengthUnit str theme windowDimensions = ok (VNum Num.zero))
  /\ (forall s unit,
      message (UnknownUnit s unit)
      = "cannot parse length string '" +:+ s +:+ "', unknown unit '"
        +:+ unit +:+ "'").
Proof.
  split; [ | split; [ | split; [ | reflexivity ] ] ].
  - intros e.
    destruct (truthy str) eqn:Ht; [ destruct (is_number str) eqn:Hn | ].
    + (* a number *)
      unfold resolveLengthUnit. rewrite Ht, Hn. cbn. split.
      * discriminate.
      * intros [(_ & ? & _) | [(s & -> & _) | (s & -> & _)]]; discriminate.
    + destruct str as [ | |b|x|s|o|src]; try discriminate.
      * (* a boolean *)
        unfold resolveLengthUnit. rewrite Ht. cbn. split.
        -- intros [= <-]. left. auto.
        -- intros [(_ & _ & _ & ->) | [(s & ? & _) | (s & ? & _)]];
             try discriminate; reflexivity.
      * (* a string *)
        assert (Hs : s <> "") by (intros ->; discriminate).
        destruct (Num.eqb (Num.parseFloat s) Num.zero) eqn:Hz.
        -- unfold resolveLengthUnit. cbn [is_number orb]. rewrite Ht, Hz. cbn.
           split; [ discriminate | ].
           intros [(_ & _ & ? & _) | [(s' & [= <-] & _ & ? & _)
                                     | (s' & [= <-] & _ & ? & _)]];
             congruence.
        -- destruct (resolveLengthUnit_string s theme windowDimensions Hs Hz)
             as (Hnone & Hknown & Hunknown).
           destruct (decide (unitText s = "")) as [Hu | Hu];
             [ | destruct (decide (unitText s ∈ knownUnits)) as [Hin | Hin] ].
           ++ rewrite (Hnone Hu). split.
              ** intros [= <-]. right; left. exists s. auto.
              ** intros [(_ & _ & ? & _) | [(s' & [= <-] & _ & _ & _ & ->)
                                           | (s' & [= <-] & _ & _ & ? & _)]];
                   try discriminate; try reflexivity. congruence.
           ++ destruct (Hknown Hin) as (v & ->). split; [ discriminate | ].
              intros [(_ & _ & ? & _) | [(s' & [= <-] & _ & _ & ? & _)
                                        | (s' & [= <-] & _ & _ & _ & ? & _)]];
                try discriminate; congruence.
           ++ rewrite (Hunknown Hu Hin). split.
              ** intros [= <-]. right; right. exists s. auto 10.
              ** intros [(_ & _ & ? & _) | [(s' & [= <-] & _ & _ & ? & _)
                                           | (s' & [= <-] & _ & _ & _ & _ & ->)]];
                   try discriminate; try reflexivity. congruence.
      * (* an object *)
        unfold resolveLengthUnit. cbn. split.
        -- intros [= <-]. left. auto.
        -- intros [(_ & _ & _ & ->) | [(s & ? & _) | (s & ? & _)]];
             try discriminate; reflexivity.
      * (* a function *)
        unfold resolveLengthUnit. cbn. split.
        -- intros [= <-]. left. auto.
        -- intros [(_ & _ & _ & ->) | [(s & ? & _) | (s & ? & _)]];
             try discriminate; reflexivity.
    + (* falsy *)
      unfold resolveLengthUnit. rewrite Ht. cbn. split.
      * discriminate.
      * intros [(? & _) | [(s & _ & ? & _) | (s & _ & ? & _)]]; discriminate.
  - intros H. unfold resolveLengthUnit.
    destruct H as [-> | ->]; [ reflexivity | now rewrite orb_true_r ].
  - intros s -> Ht Hz. unfold resolveLengthUnit.
    cbn [is_number orb]. rewrite Ht, Hz. reflexivity.
Qed.

(** ** The unit of a length string *)

Lemma digit_not_literal_mark (c : ascii) :
  Str.is_digit c = true ->
  Ascii.eqb "." c = false /\ Ascii.eqb "+" c = false /\ Ascii.eqb "-" c = false
  /\ Ascii.eqb "I" c = false /\ Num.is_exponent_indicator c = false.
Proof. destruct c as [[] [] [] [] [] [] [] []]; cbn; intros; try discriminate; auto. Qed.

Lemma exponent_indicator_not_digit (c : ascii) :
  Num.is_exponent_indicator c = true ->
  Str.is_digit c = false /\ Ascii.eqb "." c = false.
Proof. destruct c as [[] [] [] [] [] [] [] []]; cbn; intros; try discriminate; auto. Qed.

Lemma whitespace_starts_literal (c : ascii) :
  Str.is_whitespace c = true -> starts_literal c = false.
Proof. destruct c as [[] [] [] [] [] [] [] []]; cbn; intros; try discriminate; auto. Qed.

Lemma whitespace_ends_literal (w : string) :
  Str.all_chars Str.is_whitespace w = true -> ends_literal w = true.
Proof.
  destruct w as [|c w]; [ reflexivity | ]. cbn [Str.all_chars ends_literal].
  intros H. apply andb_prop in H as [H _]. revert H.
  destruct c as [[] [] [] [] [] [] [] []]; cbn; intros; try discriminate; auto.
Qed.

Lemma literal_tail_none (r : string) : ends_literal r = true -> literal_tail "" r.
Proof.
  intros H. unfold literal_tail. rewrite append_empty_l.
  destruct r as [|c r]; [ split; [ now exists 0 | exact I ] | ].
  cbn [ends_literal] in H. apply negb_true_iff in H.
  apply orb_false_elim in H as [H He]. apply orb_false_elim in H as [Hd Hp].
  split; [ | now split ].
  exists 0. cbn [Num.scan_exponent]. now rewrite He.
Qed.

Lemma literal_tail_exponent (sign digits r : string) :
  sign = "+" \/ sign = "-" ->
  Str.all_chars Str.is_digit digits = true -> digits <> "" ->
  ends_literal r = true ->
  literal_tail (String "e" (sign +:+ digits)) r.
Proof.
  intros Hs Hd Hne Hr. unfold literal_tail. rewrite append_cons, append_assoc.
  split; [ | now split ].
  assert (Hspan : Str.span_digits (digits +:+ r) = (digits, r)).
  { apply span_digits_app; [ exact Hd | ].
    destruct r as [|c r]; [ reflexivity | ]. cbn [ends_literal] in Hr.
    apply negb_true_iff in Hr. apply orb_false_elim in Hr as [Hr _].
    apply orb_false_elim in Hr as [-> _]. reflexivity. }
  assert (He : Str.is_empty digits = false) by now destruct digits.
  cbn [Num.scan_exponent]. change (Num.is_exponent_indicator "e") with true.
  cbv iota.
  destruct Hs as [-> | ->].
  - rewrite (strip_prefix_app "+"). rewrite Hspan, He. now eexists.
  - change (Str.strip_prefix "+" ("-" +:+ digits +:+ r)) with (@None string).
    rewrite (strip_prefix_app "-"). rewrite Hspan, He. now eexists.
Qed.

Lemma strip_prefix_dot_tail (x r : string) :
  literal_tail x r -> Str.strip_prefix "." (x +:+ r) = None.
Proof.
  intros [_ H]. destruct (x +:+ r) as [|c t]; [ reflexivity | ].
  destruct H as [_ H]. cbn [Str.strip_prefix]. now rewrite H.
Qed.

Lemma span_digits_tail (d x r : string) :
  Str.all_chars Str.is_digit d = true ->
  literal_tail x r ->
  Str.span_digits (d +:+ x +:+ r) = (d, x +:+ r).
Proof.
  intros Hd [_ H]. apply span_digits_app; [ exact Hd | ].
  destruct (x +:+ r) as [|c t]; [ reflexivity | ]. now destruct H as [-> _].
Qed.

Lemma strip_prefix_Infinity_digit (c : ascii) (s : string) :
  Str.is_digit c = true -> Str.strip_prefix "Infinity" (String c s) = None.
Proof.
  intros H. apply strip_prefix_head. now apply digit_not_literal_mark in H.
Qed.

(** Digits, then an exponent part if any. *)
Lemma scan_unsigned_integer (d x r : string) :
  Str.all_chars Str.is_digit d = true -> d <> "" ->
  literal_tail x r ->
  exists v, Num.scan_unsigned (d +:+ x +:+ r) = Some (d +:+ x, v, r).
Proof.
  intros Hd Hne Ht. unfold Num.scan_unsigned.
  rewrite (span_digits_tail d x r Hd Ht), (strip_prefix_dot_tail x r Ht).
  destruct d as [|c d]; [ congruence | ].
  cbn [Str.all_chars] in Hd. apply andb_prop in Hd as [Hc _].
  rewrite append_cons, (strip_prefix_Infinity_digit c _ Hc). cbn [Str.is_empty].
  destruct Ht as [(v & ->) _]. now eexists.
Qed.

(** Digits, a point, digits, then an exponent part if any. *)
Lemma scan_unsigned_fraction (i f x r : string) :
  Str.all_chars Str.is_digit i = true -> i <> "" ->
  Str.all_chars Str.is_digit f = true ->
  literal_tail x r ->
  exists v,
    Num.scan_unsigned (i +:+ "." +:+ f +:+ x +:+ r)
    = Some (i +:+ "." +:+ f +:+ x, v, r).
Proof.
  intros Hi Hne Hf Ht. unfold Num.scan_unsigned.
  rewrite (span_digits_app i ("." +:+ f +:+ x +:+ r) Hi) by reflexivity.
  rewrite (strip_prefix_app "."), (span_digits_tail f x r Hf Ht).
  destruct i as [|c i]; [ congruence | ].
  cbn [Str.all_chars] in Hi. apply andb_prop in Hi as [Hc _].
  rewrite append_cons, (strip_prefix_Infinity_digit c _ Hc).
  cbn [Str.is_empty andb].
  destruct Ht as [(v & ->) _]. now eexists.
Qed.

Lemma take_nonempty (n : nat) (s : string) :
  (0 < n)%nat -> s <> "" -> Str.take n s <> "".
Proof. destruct n, s; cbn; intros; try lia; congruence. Qed.

(** The scanner reads the whole of a numeral laid out by [format_decimal]. *)
Lemma scan_unsigned_format_decimal (ds : string) (n : Z) (r : string) :
  Str.all_chars Str.is_digit ds = true -> ds <> "" ->
  ends_literal r = true ->
  exists v,
    Num.scan_unsigned (Num.format_decimal ds n +:+ r)
    = Some (Num.format_decimal ds n, v, r).
Proof.
  intros Hd Hne Hr. pose proof (literal_tail_none r Hr) as Ht.
  unfold Num.format_decimal.
  destruct ((Z.of_nat (String.length ds) <=? n) && (n <=? 21)) eqn:E1;
    [ | destruct ((0 <? n) && (n <=? 21)) eqn:E2;
        [ | destruct ((-6 <? n) && (n <=? 0)) eqn:E3 ] ].
  - (* digits and zeros *)
    set (d := ds +:+ _).
    assert (Hd' : Str.all_chars Str.is_digit d = true)
      by (unfold d; rewrite all_chars_app, Hd; now apply all_chars_repeat).
    assert (Hne' : d <> "") by (unfold d; destruct ds; [ congruence | discriminate ]).
    destruct (scan_unsigned_integer d "" r Hd' Hne' Ht) as (v & Hv).
    rewrite append_empty_l, append_empty_r in Hv. eauto.
  - (* point inside *)
    apply andb_prop in E2 as [E2 _]. apply Z.ltb_lt in E2.
    rewrite !append_assoc.
    destruct (scan_unsigned_fraction (Str.take (Z.to_nat n) ds)
                (Str.drop (Z.to_nat n) ds) "" r) as (v & Hv);
      [ now apply all_chars_take | apply take_nonempty; [ lia | exact Hne ]
      | now apply all_chars_drop | exact Ht | ].
    rewrite append_empty_l, append_empty_r in Hv. eauto.
  - (* zeros after the point *)
    set (f := Str.repeat_char "0" (Z.to_nat (- n)) +:+ ds).
    assert (Hf : Str.all_chars Str.is_digit f = true)
      by (unfold f; rewrite all_chars_app, Hd; now rewrite all_chars_repeat).
    destruct (scan_unsigned_fraction "0" f "" r) as (v & Hv);
      [ reflexivity | discriminate | exact Hf | exact Ht | ].
    rewrite append_empty_l, append_empty_r in Hv.
    change ("0." +:+ f) with ("0" +:+ "." +:+ f).
    rewrite !append_assoc. eauto.
  - (* exponent notation *)
    set (es := (if n - 1 <? 0 then "-" else "+") +:+ _).
    assert (Hx : literal_tail (String "e" es) r).
    { apply literal_tail_exponent;
        [ destruct (n - 1 <? 0); auto | apply of_N_digits | apply of_N_nonempty
        | exact Hr ]. }
    destruct ds as [|d [|d' rest]]; [ congruence | | ].
    + cbn [Str.all_chars] in Hd.
      destruct (scan_unsigned_integer (String d "") (String "e" es) r)
        as (v & Hv); [ exact Hd | discriminate | exact Hx | ].
      exists v. exact Hv.
    + cbn [Str.all_chars] in Hd. apply andb_prop in Hd as [Hd1 Hd2].
      destruct (scan_unsigned_fraction (String d "") (String d' rest)
                  (String "e" es) r) as (v & Hv);
        [ cbn; now rewrite Hd1 | discriminate | exact Hd2 | exact Hx | ].
      exists v.
      change (String d ("." +:+ String d' rest +:+ "e" +:+ es))
        with (String d "" +:+ "." +:+ String d' rest +:+ String "e" es).
      rewrite <- Hv. f_equal. now rewrite !append_assoc.
Qed.

Lemma scan_unsigned_sign (c : ascii) (r : string) :
  Ascii.eqb "+" c = true \/ Ascii.eqb "-" c = true ->
  Num.scan_unsigned (String c r) = None.
Proof.
  intros [H | H]; apply Ascii.eqb_eq in H; subst c; reflexivity.
Qed.

(** Without a sign in front, the signed scanner is the unsigned one. *)
Lemma scan_decimal_unsigned (t : string) (x : string * Num.double * string) :
  Num.scan_unsigned t = Some x -> Num.scan_decimal t = Some x.
Proof.
  intros H. destruct t as [|c t]; [ discriminate | ].
  unfold Num.scan_decimal. cbn [Str.strip_prefix].
  destruct (Ascii.eqb "+" c) eqn:Ep;
    [ rewrite scan_unsigned_sign in H by auto; discriminate | ].
  destruct (Ascii.eqb "-" c) eqn:Em;
    [ rewrite scan_unsigned_sign in H by auto; discriminate | ].
  exact H.
Qed.

(** [parseFloat] reads the whole of the canonical rendering of a number. *)
Lemma scan_decimal_to_string (x : Num.double) (r : string) :
  Num.is_nan x = false -> ends_literal r = true ->
  exists v,
    Num.scan_decimal (Num.to_string x +:+ r) = Some (Num.to_string x, v, r).
Proof.
  intros Hx Hr. destruct x as [s|s| |s m e]; [ | | discriminate | ].
  - (* zero *)
    cbn [Num.to_string].
    destruct (scan_unsigned_integer "0" "" r) as (v & Hv);
      [ reflexivity | discriminate | now apply literal_tail_none | ].
    rewrite append_empty_l, append_empty_r in Hv.
    exists v. now apply scan_decimal_unsigned.
  - (* infinities *)
    destruct s; cbn [Num.to_string].
    + unfold Num.scan_decimal.
      change (Str.strip_prefix "+" ("-Infinity" +:+ r)) with (@None string).
      change ("-Infinity" +:+ r) with ("-" +:+ "Infinity" +:+ r).
      rewrite (strip_prefix_app "-"). unfold Num.scan_unsigned.
      rewrite (strip_prefix_app "Infinity"). now eexists.
    + eexists. apply scan_decimal_unsigned. unfold Num.scan_unsigned.
      now rewrite (strip_prefix_app "Infinity").
  - (* finite *)
    cbn [Num.to_string]. destruct (Num.ratio m e) as [num den].
    destruct (Num.shortest _ _ _ _ _ _) as [d n].
    destruct (scan_unsigned_format_decimal (Str.of_N (Z.to_N d)) n r)
      as (v & Hv); [ apply of_N_digits | apply of_N_nonempty | exact Hr | ].
    destruct s.
    + exists (Num.opp v). rewrite append_assoc. unfold Num.scan_decimal.
      change (Str.strip_prefix "+" ("-" +:+ ?t)) with (@None string).
      rewrite (strip_prefix_app "-"), Hv. reflexivity.
    + exists v. rewrite append_empty_l. now apply scan_decimal_unsigned.
Qed.

Lemma scan_decimal_bad_start (c : ascii) (t : string) :
  starts_literal c = false -> Num.scan_decimal (String c t) = None.
Proof.
  unfold starts_literal. intros H.
  apply orb_false_elim in H as [H HI]. apply orb_false_elim in H as [H Hm].
  apply orb_false_elim in H as [H Hp]. apply orb_false_elim in H as [Hd Hdot].
  unfold Num.scan_decimal. cbn [Str.strip_prefix]. rewrite Hp, Hm.
  unfold Num.scan_unsigned. rewrite (strip_prefix_head _ _ _ _ HI).
  cbn [Str.span_digits]. rewrite Hd. cbn [Str.strip_prefix]. now rewrite Hdot.
Qed.

(** Text that is a known unit, or nothing, followed by white space only: no
    numeral starts there, and a numeral before it ends there. *)
Lemma unit_then_whitespace (u w : string) :
  u = "" \/ u ∈ knownUnits ->
  Str.all_chars Str.is_whitespace w = true ->
  Num.scan_decimal (u +:+ w) = None /\ ends_literal (u +:+ w) = true.
Proof.
  intros [-> | Hu] Hw.
  - rewrite append_empty_l. split; [ | now apply whitespace_ends_literal ].
    destruct w as [|c w]; [ reflexivity | ].
    cbn [Str.all_chars] in Hw. apply andb_prop in Hw as [Hc _].
    now apply scan_decimal_bad_start, whitespace_starts_literal.
  - apply knownUnits_spec in Hu.
    destruct Hu as [-> | [-> | [-> | [-> | ->]]]]; rewrite append_cons;
      (split; [ now apply scan_decimal_bad_start | reflexivity ]).
Qed.

Lemma unit_head (c : ascii) (t : string) :
  String c t ∈ knownUnits -> starts_literal c = false.
Proof.
  intros H. apply knownUnits_spec in H.
  destruct H as [H | [H | [H | [H | H]]]]; injection H as -> _; reflexivity.
Qed.

(** C10, as the code has it.  The unit is what is left of the trimmed input
    once the first occurrence of [String(Number.parseFloat(str))] is deleted.
    For every string with a non-zero parsed magnitude whose written magnitude
    is not, character for character, that canonical rendering, what is left is
    neither empty nor one of the five units, and the call throws the
    unknown-unit error of line 168. *)
Theorem noncanonical_magnitude_unknown_unit (s : string) (theme : Theme)
    (windowDimensions : ScaledSize) :
  Num.is_nan (Num.parseFloat s) = false ->
  Num.eqb (Num.parseFloat s) Num.zero = false ->
  Num.written_magnitude s <> Num.to_string (Num.parseFloat s) ->
  unitText s = Str.replace (Str.trim s) (Num.to_string (Num.parseFloat s)) ""
  /\ unitText s <> ""
  /\ (unitText s ∉ knownUnits)
  /\ resolveLengthUnit (VStr s) theme windowDimensions
     = throw (UnknownUnit s (unitText s)).
Proof.
  intros Hnan Hnz Hw.
  assert (Hs : s <> "") by (intros ->; discriminate).
  assert (Hunit : ~ (unitText s = "" \/ unitText s ∈ knownUnits)).
  { intros Hu. unfold unitText, Str.trim in Hu.
    unfold Num.parseFloat, Num.written_magnitude in *.
    set (u := Str.trimStart s) in *.
    destruct (trimEnd_split u) as (w & Hsplit & Hws).
    set (t := Str.trimEnd u) in *.
    destruct (Num.scan_decimal u) as [[[txt v] rest]|] eqn:Hscan;
      [ | discriminate ].
    destruct (replace_cases t (Num.to_string v)) as [E | (a & b & Ht & E)];
      rewrite E in Hu.
    - (* nothing was deleted: the text is a bare unit *)
      destruct (unit_then_whitespace t w Hu Hws) as [Hnone _].
      rewrite <- Hsplit in Hnone. congruence.
    - destruct a as [|c a].
      + (* the rendering was deleted at the front: it is the written text *)
        rewrite append_empty_l in Hu, Ht.
        destruct (unit_then_whitespace b w Hu Hws) as [_ Hends].
        destruct (scan_decimal_to_string v (b +:+ w) Hnan Hends) as (v' & Hv').
        rewrite <- append_assoc, <- Ht, <- Hsplit in Hv'. congruence.
      + (* something stands before the rendering: no numeral starts the text *)
        rewrite append_cons in Hu, Ht.
        assert (Hc : starts_literal c = false)
          by (destruct Hu as [Hu | Hu]; [ discriminate | exact (unit_head _ _ Hu) ]).
        rewrite Hsplit, Ht, append_cons in Hscan.
        rewrite (scan_decimal_bad_start _ _ Hc) in Hscan. discriminate. }
  assert (Hne : unitText s <> "") by tauto.
  assert (Hknown : unitText s ∉ knownUnits) by tauto.
  repeat split; try assumption.
  now apply (resolveLengthUnit_string s theme windowDimensions Hs Hnz).
Qed.

(** ['.5rem'] and ['1.50px'] are written otherwise than ['0.5'] and ['1.5']. *)
Lemma noncanonical_magnitude_samples :
  (unitText ".5rem" = ".5rem"
   /\ resolveLengthUnit (VStr ".5rem") sampleTheme sampleViewport
      = throw (UnknownUnit ".5rem" ".5rem"))
  /\ (unitText "1.50px" = "0px"
      /\ resolveLengthUnit (VStr "1.50px") sampleTheme sampleViewport
         = throw (UnknownUnit "1.50px" "0px")).
Proof.
  split.
  - destruct (noncanonical_magnitude_unknown_unit ".5rem" sampleTheme
                sampleViewport) as (_ & _ & _ & H);
      [ reflexivity | reflexivity | vm_compute; discriminate | ].
    split; [ vm_compute; reflexivity | exact H ].
  - destruct (noncanonical_magnitude_unknown_unit "1.50px" sampleTheme
                sampleViewport) as (_ & _ & _ & H);
      [ reflexivity | reflexivity | vm_compute; discriminate | ].
    split; [ vm_compute; reflexivity | exact H ].
Defined.

(** C10 as stated fails on ['+5px']: the written magnitude ['+5'] is not the
    rendering ['5'], yet the unit left, ['+px'], holds no digit. *)
Lemma unit_without_digit :
  Num.written_magnitude "+5px" = "+5"
  /\ Num.to_string (Num.parseFloat "+5px") = "5"
  /\ Num.eqb (Num.parseFloat "+5px") Num.zero = false
  /\ unitText "+5px" = "+px"
  /\ Str.any_char Str.is_digit (unitText "+5px") = false
  /\ resolveLengthUnit (VStr "+5px") sampleTheme sampleViewport
     = throw (UnknownUnit "+5px" "+px").
Proof. vm_compute. repeat split. Qed.

(** ** The margin check *)

Lemma truthy_js_or_undefined (v : value) :
  truthy (js_or v VUndefined) = truthy v.
Proof. unfold js_or. now destruct (truthy v) eqn:E. Qed.

Lemma to_int32_js_or_undefined (v : value) :
  Num.to_int32 (to_number (js_or v VUndefined)) <> 0 -> truthy v = true.
Proof.
  unfold js_or. destruct (truthy v); [ reflexivity | ].
  intros H. now contradiction H.
Qed.

Lemma js_bitand_truthy (a b : value) :
  truthy (js_bitand a b) = true ->
  Num.to_int32 (to_number a) <> 0 /\ Num.to_int32 (to_number b) <> 0.
Proof.
  unfold js_bitand. intros H. split; intros E; rewrite E in H.
  - now rewrite Z.land_0_l in H.
  - now rewrite Z.land_0_r in H.
Qed.

Lemma js_bitand_to_int32 (a b : value) :
  Num.to_int32 (to_number (js_bitand a b)) <> 0 ->
  Num.to_int32 (to_number a) <> 0 /\ Num.to_int32 (to_number b) <> 0.
Proof.
  unfold js_bitand. cbn [to_number]. intros H. split; intros E; rewrite E in H.
  - now rewrite Z.land_0_l in H.
  - now rewrite Z.land_0_r in H.
Qed.

(** The sound half of C1: the recomputation only happens when all four
    margins are truthy. *)
Lemma marginCheck_sound (styleObject : object) :
  marginCheck styleObject = true ->
  truthy (obj_get styleObject "marginLeft") = true
  /\ truthy (obj_get styleObject "marginRight") = true
  /\ truthy (obj_get styleObject "marginTop") = true
  /\ truthy (obj_get styleObject "marginBottom") = true.
Proof.
  unfold marginCheck. unfold js_and at 1.
  rewrite truthy_js_or_undefined.
  destruct (truthy (obj_get styleObject "marginLeft")) eqn:HL.
  - intros H. apply js_bitand_truthy in H as [H1 H2].
    apply js_bitand_to_int32 in H1 as [H0 H1].
    auto using to_int32_js_or_undefined.
  - rewrite truthy_js_or_undefined, HL. discriminate.
Qed.

(** C1, as the code has it.  Line 253 joins the last three margins with the
    bitwise [&]: margins 1, 1, 2 and 1 are all truthy after the per-property
    pass, but [1 & 2 & 1] is 0, the check fails and the width is left as
    declared, where the Dimension Formatter would have made it 48. *)
Theorem marginCheck_bitwise :
  resolveProperties sampleExternals initialRegistry sampleTheme sampleViewport
    VUndefined (obj_keys sampleMargins) sampleMargins = ok sampleMargins
  /\ truthy (obj_get sampleMargins "marginLeft") = true
  /\ truthy (obj_get sampleMargins "marginRight") = true
  /\ truthy (obj_get sampleMargins "marginTop") = true
  /\ truthy (obj_get sampleMargins "marginBottom") = true
  /\ marginCheck sampleMargins = false
  /\ resolveThemeVariables sampleExternals initialRegistry sampleMargins
       sampleTheme sampleViewport VUndefined = ok sampleMargins
  /\ (w <- recomputeDimensions sampleMargins sampleTheme sampleViewport ;;
      ok (obj_get w "width")) = ok (VNum (Num.of_Z 48)).
Proof. vm_compute. repeat split. Qed.

(** ** findNestedObj *)

Section Traversal.

Variable proto : Builtins.

(** Induction on values, with the hypothesis for every property of an
    object. *)
Lemma value_ind_props (P : value -> Prop) :
  P VUndefined -> P VNull -> (forall b, P (VBool b)) -> (forall x, P (VNum x)) ->
  (forall s, P (VStr s)) ->
  (forall props, Forall (fun kv => P (snd kv)) props -> P (VObj props)) ->
  (forall src, P (VFun src)) ->
  forall v, P v.
Proof.
  intros Hu Hn Hb Hx Hs Ho Hf.
  fix IH 1. intros [ | |b|x|s|props|src];
    [ exact Hu | exact Hn | apply Hb | apply Hx | apply Hs | | apply Hf ].
  apply Ho.
  revert props. fix all 1. intros [|kv ps]; constructor.
  - apply IH.
  - apply all.
Qed.

Lemma visited_obj (props : list (string * value)) :
  visited (VObj props) = VObj props :: flat_map (fun kv => visited (snd kv)) props.
Proof.
  cbn. f_equal. induction props as [|[k v] ps IH]; [ reflexivity | ].
  cbn. now rewrite IH.
Qed.

Lemma stringify_obj (keyToFind : string) (props : list (string * value))
    (foundObj : value) :
  stringify proto keyToFind (VObj props) foundObj =
    fold_left (fun acc kv => stringify proto keyToFind (snd kv) acc) props
      (replacer proto keyToFind foundObj (VObj props)).
Proof.
  cbn. generalize (replacer proto keyToFind foundObj (VObj props)).
  induction props as [|[k v] ps IH]; intros f; [ reflexivity | ].
  cbn. now rewrite IH.
Qed.

(** [JSON.stringify] threads [foundObj] through the replacer, one visited
    value after the other. *)
Lemma stringify_fold (keyToFind : string) (v : value) :
  forall foundObj,
    stringify proto keyToFind v foundObj =
      fold_left (replacer proto keyToFind) (visited v) foundObj.
Proof.
  induction v as [ | |b|x|s|props IH|src] using value_ind_props;
    intros foundObj; try reflexivity.
  rewrite stringify_obj, visited_obj. cbn [fold_left].
  generalize (replacer proto keyToFind foundObj (VObj props)).
  induction IH as [|[k c] ps Hc _ IHps]; intros f; [ reflexivity | ].
  cbn [fold_left flat_map snd]. rewrite fold_left_app, <- Hc. apply IHps.
Qed.

Lemma fold_replacer_last (keyToFind : string) (l : list value) :
  forall foundObj,
    fold_left (replacer proto keyToFind) l foundObj =
      default foundObj (last (filter (fun v => defines proto keyToFind v) l)).
Proof.
  induction l as [|v l IH]; intros foundObj; [ reflexivity | ].
  cbn [fold_left]. rewrite IH, filter_cons. unfold replacer.
  fold (defines proto keyToFind v).
  destruct (defines proto keyToFind v) eqn:E.
  - rewrite decide_True by exact I. rewrite last_cons.
    now destruct (last (filter _ l)).
  - now rewrite decide_False by (intros []).
Qed.

(** [findNestedObj] returns the last visited value that defines the name. *)
Lemma findNestedObj_last (entireObj : value) (keyToFind : string) :
  findNestedObj proto entireObj keyToFind =
    default VUndefined
      (last (filter (fun v => defines proto keyToFind v) (visited entireObj))).
Proof.
  unfold findNestedObj. now rewrite stringify_fold, fold_replacer_last.
Qed.

(** What [findNestedObj] returns defines the name, if any visited value
    does. *)
Lemma findNestedObj_defines (entireObj : value) (keyToFind : string) :
  (exists v, v ∈ visited entireObj /\ defines proto keyToFind v = true) ->
  defines proto keyToFind (findNestedObj proto entireObj keyToFind) = true.
Proof.
  intros (v & Hv & Hd). rewrite findNestedObj_last.
  assert (Hin : v ∈ filter (fun v => defines proto keyToFind v) (visited entireObj)).
  { apply list_elem_of_filter. split; [ now rewrite Hd | exact Hv ]. }
  destruct (last (filter _ (visited entireObj))) as [w|] eqn:E.
  - apply last_Some_elem_of in E. apply list_elem_of_filter in E as [Hw _].
    cbn. now apply Is_true_true.
  - apply last_None in E. rewrite E in Hin. now apply elem_of_nil in Hin.
Qed.

Lemma findNestedObj_none (entireObj : value) (keyToFind : string) :
  (forall v, v ∈ visited entireObj -> defines proto keyToFind v = false) ->
  findNestedObj proto entireObj keyToFind = VUndefined.
Proof.
  intros H. rewrite findNestedObj_last.
  destruct (last (filter _ (visited entireObj))) as [w|] eqn:E; [ | reflexivity ].
  apply last_Some_elem_of in E. apply list_elem_of_filter in E as [Hw Hin].
  rewrite (H _ Hin) in Hw. destruct Hw.
Qed.

Lemma definedIn_spec (theme : Theme) (name : string) :
  definedIn proto theme name = true ->
  exists v, v ∈ visited (VObj (theme_props theme)) /\ defines proto name v = true.
Proof.
  unfold definedIn. rewrite existsb_exists. intros (v & Hin & Hd).
  exists v. split; [ now apply list_elem_of_In | exact Hd ].
Qed.


End Traversal.

(** ** Substitution of theme variables *)

Lemma substituteVariable_found (proto : Builtins) (reg : Registry)
    (theme : Theme) (key : string) (hex : value)
    (undefinedError : string -> error) (styleObject : object) (name : string) :
  map_get (nameForHex reg) hex = Some name ->
  name <> "" ->
  definedIn proto theme name = true ->
  substituteVariable proto reg theme key hex undefinedError styleObject =
    ok (obj_set styleObject key
          (get_prop proto
             (findNestedObj proto (VObj (theme_props theme)) name) name)).
Proof.
  intros Hhex Hname Hdef. unfold substituteVariable. rewrite Hhex.
  destruct name as [|c name]; [ congruence | ]. cbn [Str.is_empty].
  pose proof (findNestedObj_defines _ _ _ (definedIn_spec _ _ _ Hdef)) as Hd.
  unfold defines in Hd. now rewrite Hd.
Qed.






(** Once a property throws, the loop is left with that error. *)
Lemma resolveProperties_throw (ext : Externals) (reg : Registry) (theme : Theme)
    (windowDimensions : ScaledSize) (units : value) (keys : list string)
    (e : error) :
  fold_left
    (fun (acc : result object) (key : string) =>
       styleObject <- acc ;;
       resolveProperty ext reg theme windowDimensions units key styleObject)
    keys (throw e) = throw e.
Proof. induction keys as [|k keys IH]; [ reflexivity | exact IH ]. Qed.




(** Names that the values of a theme inherit.  [small] and [constructor] are
    found on the last string of the sample theme and the color becomes the
    method and the constructor of strings, without an error; [length] is found
    there too, and a margin becomes the length of that string. *)
Lemma inherited_names_are_defined :
  let color name :=
    resolveThemeVariables sampleExternals
      (snd (resolveColorVariablePlaceholder name None initialRegistry))
      [("color", VStr "#00000100")] sampleTheme sampleViewport VUndefined in
  color "$small" = ok [("color", nativeFunction "small")]
  /\ color "$constructor" = ok [("color", nativeFunction "String")]
  /\ absentFrom sampleBuiltins sampleTheme "constructor" = false
  /\ resolveThemeVariables sampleExternals
       (snd (resolverLengsVariables sampleHashGenerate "$length" None
               initialRegistry))
       [("marginTop", VStr "")] sampleTheme sampleViewport VUndefined
     = ok [("marginTop", VNum (Num.of_Z 3))].
Proof. vm_compute. repeat split. Qed.

(** ** Color placeholders *)

Lemma digit_value_upper (c : ascii) :
  Str.digit_value (Str.upper_char c) = Str.digit_value c.
Proof. destruct c as [[] [] [] [] [] [] [] []]; reflexivity. Qed.

Lemma digits_value_upper (b : N) (s : string) :
  forall acc, Str.digits_value b acc (Str.toUpperCase s) = Str.digits_value b acc s.
Proof.
  induction s as [|c s IH]; intros acc; [ reflexivity | ].
  cbn [Str.toUpperCase Str.digits_value]. rewrite digit_value_upper.
  destruct (Str.digit_value c); [ | reflexivity ].
  destruct (_ <? _)%N; [ apply IH | reflexivity ].
Qed.

Lemma digits_value_app (b : N) (s t : string) :
  forall acc,
    Str.digits_value b acc (s +:+ t) =
      match Str.digits_value b acc s with
      | Some v => Str.digits_value b v t
      | None => None
      end.
Proof.
  induction s as [|c s IH]; intros acc; [ reflexivity | ].
  rewrite append_cons. cbn [Str.digits_value].
  destruct (Str.digit_value c); [ | reflexivity ].
  destruct (_ <? _)%N; [ apply IH | reflexivity ].
Qed.

Lemma digits_value_zeros (b : N) (k : nat) (s : string) :
  (1 < b)%N ->
  Str.digits_value b 0 (Str.repeat_char "0" k +:+ s) = Str.digits_value b 0 s.
Proof.
  intros Hb. induction k as [|k IH]; [ reflexivity | ].
  cbn [Str.repeat_char]. rewrite append_cons. cbn [Str.digits_value].
  change (Str.digit_value "0") with (Some 0%N).
  cbn match. destruct (N.ltb_spec 0 b); [ | lia ]. exact IH.
Qed.

Lemma digits_value_hex_acc (d : Hexadecimal.uint) :
  forall acc : positive,
    Str.digits_value 16 (Npos acc) (HexadecimalString.NilEmpty.string_of_uint d)
    = Some (Npos (Pos.of_hex_uint_acc d acc)).
Proof.
  induction d; intros acc; cbn [HexadecimalString.NilEmpty.string_of_uint
    Str.digits_value Pos.of_hex_uint_acc]; try reflexivity;
    match goal with
    | |- context [Str.digit_value ?c] =>
        let v := eval vm_compute in (Str.digit_value c) in
        change (Str.digit_value c) with v
    end; cbn match;
    match goal with
    | |- context [(?a <? 16)%N] => change (a <? 16)%N with true
    end; cbn match; rewrite <- IHd; f_equal; lia.
Qed.

Lemma digits_value_hex (d : Hexadecimal.uint) :
  Str.digits_value 16 0 (HexadecimalString.NilEmpty.string_of_uint d)
  = Some (N.of_hex_uint d).
Proof.
  unfold N.of_hex_uint.
  induction d; cbn [HexadecimalString.NilEmpty.string_of_uint
    Str.digits_value Pos.of_hex_uint]; try reflexivity;
    match goal with
    | |- context [Str.digit_value ?c] =>
        let v := eval vm_compute in (Str.digit_value c) in
        change (Str.digit_value c) with v
    end; cbn match;
    match goal with
    | |- context [(?a <? 16)%N] => change (a <? 16)%N with true
    end; cbn match; [ exact IHd | .. ];
    match goal with
    | |- Str.digits_value 16 ?a _ = _ =>
        let v := eval vm_compute in a in change a with v
    end; apply digits_value_hex_acc.
Qed.

Lemma digits_value_hex_of_N (n : N) :
  Str.digits_value 16 0 (Str.hex_of_N n) = Some n.
Proof.
  unfold Str.hex_of_N. now rewrite digits_value_hex, HexadecimalN.Unsigned.of_to.
Qed.

(** The hexadecimal digits of a color placeholder read back as [256 * n]. *)
Lemma colorHash_value (n : N) :
  exists digits,
    colorHash n = String "#" digits
    /\ Str.digits_value 16 0 digits = Some (n * 256)%N.
Proof.
  unfold colorHash. eexists. split; [ reflexivity | ].
  rewrite digits_value_app, digits_value_upper. unfold Str.padStart.
  rewrite digits_value_zeros by lia. rewrite digits_value_hex_of_N.
  change (Str.digits_value 16 n "00") with (Some ((n * 16 + 0) * 16 + 0)%N).
  f_equal. lia.
Qed.

Lemma colorHash_inj (a b : N) : colorHash a = colorHash b -> a = b.
Proof.
  destruct (colorHash_value a) as (da & Ea & Va).
  destruct (colorHash_value b) as (db & Eb & Vb).
  rewrite Ea, Eb. intros [= E]. rewrite E in Va. rewrite Va in Vb.
  injection Vb. lia.
Qed.

(** ** The placeholder registry *)

Lemma initialRegistry_inv (hashGenerate : nat -> string) : registry_inv hashGenerate initialRegistry.
Proof.
  unfold registry_inv, initialRegistry. cbn. repeat split.
  - lia.
  - intros name h H. now rewrite lookup_empty in H.
  - intros a b h H. now rewrite lookup_empty in H.
Qed.

Section Encoders.

Variable hashGenerate : nat -> string.
Hypothesis hashGenerate_inj : forall i j, hashGenerate i = hashGenerate j -> i = j.
Hypothesis hashGenerate_fresh : forall i n, hashGenerate i <> colorHash n.

Lemma resolveColorVariablePlaceholder_inv (name : string) (fb : option string)
    (reg : Registry) :
  registry_inv hashGenerate reg ->
  registry_inv hashGenerate (snd (resolveColorVariablePlaceholder name fb reg)).
Proof using hashGenerate_fresh.
  intros (Hc & Hsrc & Hinj). unfold resolveColorVariablePlaceholder. cbn [snd].
  destruct (hexForVarName reg !! name) eqn:E; [ repeat split; assumption | ].
  unfold registry_inv. cbn [currentColorId hexForVarName hashCalls].
  assert (Hnew : forall b h, hexForVarName reg !! b = Some h ->
                 h <> colorHash (currentColorId reg)).
  { intros b h Hb ->. destruct (Hsrc _ _ Hb) as [(n & Hn & En) | (i & _ & Ei)].
    - apply colorHash_inj in En. lia.
    - symmetry in Ei. now apply hashGenerate_fresh in Ei. }
  repeat split.
  - lia.
  - intros name' h. rewrite lookup_insert. case_decide as Hd.
    + intros [= <-]. left. exists (currentColorId reg). split; [ lia | reflexivity ].
    + intros H. destruct (Hsrc _ _ H) as [(n & Hn & En) | Hg]; [ left | now right ].
      exists n. split; [ lia | exact En ].
  - intros a b h. rewrite !lookup_insert.
    repeat case_decide; subst.
    + reflexivity.
    + intros [= <-] Hb. now apply Hnew in Hb.
    + intros Ha [= <-]. now apply Hnew in Ha.
    + apply Hinj.
Qed.

Lemma resolverLengsVariables_inv (name : string) (fb : option string)
    (reg : Registry) :
  registry_inv hashGenerate reg ->
  registry_inv hashGenerate (snd (resolverLengsVariables hashGenerate name fb reg)).
Proof using hashGenerate_inj hashGenerate_fresh.
  intros (Hc & Hsrc & Hinj). unfold resolverLengsVariables. cbn [snd].
  destruct (hexForVarName reg !! name) eqn:E; [ repeat split; assumption | ].
  unfold registry_inv. cbn [currentColorId hexForVarName hashCalls].
  assert (Hnew : forall b h, hexForVarName reg !! b = Some h ->
                 h <> hashGenerate (hashCalls reg)).
  { intros b h Hb ->. destruct (Hsrc _ _ Hb) as [(n & _ & En) | (i & Hi & Ei)].
    - now apply hashGenerate_fresh in En.
    - apply hashGenerate_inj in Ei. lia. }
  repeat split.
  - exact Hc.
  - intros name' h. rewrite lookup_insert. case_decide as Hd.
    + intros [= <-]. right. exists (hashCalls reg). split; [ lia | reflexivity ].
    + intros H. destruct (Hsrc _ _ H) as [Hn | (i & Hi & Ei)]; [ now left | right ].
      exists i. split; [ lia | exact Ei ].
  - intros a b h. rewrite !lookup_insert.
    repeat case_decide; subst.
    + reflexivity.
    + intros [= <-] Hb. now apply Hnew in Hb.
    + intros Ha [= <-]. now apply Hnew in Ha.
    + apply Hinj.
Qed.

Lemma run_call_inv (c : call) (reg : Registry) :
  registry_inv hashGenerate reg -> registry_inv hashGenerate (snd (run_call hashGenerate c reg)).
Proof using hashGenerate_inj hashGenerate_fresh.
  destruct c;
    [ apply resolveColorVariablePlaceholder_inv
    | apply resolverLengsVariables_inv ].
Qed.

Lemma run_calls_inv (cs : list call) :
  forall reg, registry_inv hashGenerate reg -> registry_inv hashGenerate (run_calls hashGenerate cs reg).
Proof using hashGenerate_inj hashGenerate_fresh.
  induction cs as [|c cs IH]; intros reg Hreg; [ exact Hreg | ].
  apply IH. now apply run_call_inv.
Qed.

End Encoders.

(** A binding, once made, stays. *)
Lemma run_call_keeps (hashGenerate : nat -> string) (c : call) (reg : Registry)
    (name h : string) :
  hexForVarName reg !! name = Some h ->
  hexForVarName (snd (run_call hashGenerate c reg)) !! name = Some h.
Proof.
  intros H.
  destruct c as [n f|n f]; cbn [run_call];
    unfold resolveColorVariablePlaceholder, resolverLengsVariables; cbn [snd];
    destruct (hexForVarName reg !! n) eqn:E; try exact H;
    cbn [hexForVarName]; rewrite lookup_insert_ne; congruence.
Qed.

Lemma run_calls_keeps (hashGenerate : nat -> string) (cs : list call) (name h : string) :
  forall reg,
    hexForVarName reg !! name = Some h ->
    hexForVarName (run_calls hashGenerate cs reg) !! name = Some h.
Proof.
  induction cs as [|c cs IH]; intros reg H; [ exact H | ].
  apply IH. now apply run_call_keeps.
Qed.

(** A call binds its name, and returns what [placeholderFor] makes of the
    binding. *)
Lemma run_call_binds (hashGenerate : nat -> string) (c : call) (reg : Registry) :
  exists h,
    hexForVarName (snd (run_call hashGenerate c reg)) !! call_name c = Some h
    /\ fst (run_call hashGenerate c reg)
       = placeholderFor (snd (run_call hashGenerate c reg)) (call_name c) (call_fallback c).
Proof.
  destruct c as [n f|n f]; cbn [run_call call_name call_fallback];
    unfold resolveColorVariablePlaceholder, resolverLengsVariables; cbn [snd fst];
    destruct (hexForVarName reg !! n) eqn:E; eexists; split;
    try exact E; try reflexivity; cbn [hexForVarName]; apply lookup_insert_eq.
Qed.

Lemma run_call_bound (hashGenerate : nat -> string) (c : call) (reg : Registry) (h : string) :
  hexForVarName reg !! call_name c = Some h ->
  run_call hashGenerate c reg =
    (match call_fallback c with
     | Some f => if Str.is_empty f then h else h +:+ " " +:+ h
     | None => h
     end, reg).
Proof.
  intros H.
  destruct c as [n f|n f]; cbn [run_call call_name call_fallback] in *;
    unfold resolveColorVariablePlaceholder, resolverLengsVariables, placeholderFor;
    rewrite H; cbv beta iota zeta; rewrite H; reflexivity.
Qed.

(** C7.  From the empty registry, after any sequence of calls to the two
    encoders: a call repeated later, whatever was resolved in between, returns
    the same string as the first time; the placeholder a call without fallback
    returns is the one the registry binds to the name; and no placeholder is
    bound to two names.  The color variant needs nothing for this (its counter
    only advances); the generic variant needs the token generator never to
    repeat itself nor to return a color placeholder. *)
Theorem placeholders_idempotent_injective (hashGenerate : nat -> string)
    (calls : list call) :
  (forall i j, hashGenerate i = hashGenerate j -> i = j) ->
  (forall i n, hashGenerate i <> colorHash n) ->
  let reg := run_calls hashGenerate calls initialRegistry in
  (forall (c : call) (between : list call),
     fst (run_call hashGenerate c (run_calls hashGenerate between (snd (run_call hashGenerate c reg))))
     = fst (run_call hashGenerate c reg))
  /\ (forall c : call,
       call_fallback c = None ->
       hexForVarName (snd (run_call hashGenerate c reg)) !! call_name c
       = Some (fst (run_call hashGenerate c reg)))
  /\ (forall (a b h : string),
       hexForVarName reg !! a = Some h -> hexForVarName reg !! b = Some h ->
       a = b)
  /\ (forall (c1 c2 : call) (between : list call),
       call_fallback c1 = None -> call_fallback c2 = None ->
       call_name c1 <> call_name c2 ->
       fst (run_call hashGenerate c1 reg)
       <> fst (run_call hashGenerate c2 (run_calls hashGenerate between (snd (run_call hashGenerate c1 reg))))).
Proof.
  intros Hinj Hfresh reg.
  assert (Hreg : registry_inv hashGenerate reg)
    by apply (run_calls_inv hashGenerate Hinj Hfresh calls initialRegistry
                (initialRegistry_inv hashGenerate)).
  split; [ | split; [ | split ] ].
  - intros c between.
    destruct (run_call_binds hashGenerate c reg) as (h & Hh & Hfst).
    rewrite (run_call_bound hashGenerate c _ h)
      by (apply run_calls_keeps; exact Hh).
    rewrite Hfst. unfold placeholderFor. rewrite Hh. reflexivity.
  - intros c Hfb.
    destruct (run_call_binds hashGenerate c reg) as (h & Hh & Hfst).
    rewrite Hfst, Hh. unfold placeholderFor. now rewrite Hh, Hfb.
  - apply Hreg.
  - intros c1 c2 between Hf1 Hf2 Hne Heq.
    destruct (run_call_binds hashGenerate c1 reg) as (h1 & Hh1 & Hfst1).
    set (reg2 := run_calls hashGenerate between (snd (run_call hashGenerate c1 reg))) in *.
    destruct (run_call_binds hashGenerate c2 reg2) as (h2 & Hh2 & Hfst2).
    assert (Hinv : registry_inv hashGenerate (snd (run_call hashGenerate c2 reg2))).
    { apply (run_call_inv hashGenerate Hinj Hfresh), (run_calls_inv hashGenerate Hinj Hfresh).
      now apply (run_call_inv hashGenerate Hinj Hfresh). }
    assert (Hk : hexForVarName (snd (run_call hashGenerate c2 reg2)) !! call_name c1
                 = Some h1)
      by (apply run_call_keeps, run_calls_keeps; exact Hh1).
    unfold placeholderFor in Hfst1, Hfst2.
    rewrite Hh1, Hf1 in Hfst1. rewrite Hh2, Hf2 in Hfst2.
    apply Hne. destruct Hinv as (_ & _ & Hi). apply (Hi _ _ h1 Hk). congruence.
Qed.

Lemma sampleHashGenerate_inj (i j : nat) :
  sampleHashGenerate i = sampleHashGenerate j -> i = j.
Proof.
  unfold sampleHashGenerate. revert j.
  induction i as [|i IH]; intros [|j]; cbn [Str.repeat_char];
    rewrite ?append_cons, ?append_empty_l; try discriminate; try reflexivity.
  intros [= E]. f_equal. now apply IH.
Qed.

Lemma sampleHashGenerate_fresh (i : nat) (n : N) :
  sampleHashGenerate i <> colorHash n.
Proof.
  destruct (colorHash_value n) as (digits & -> & _).
  unfold sampleHashGenerate.
  destruct i; cbn [Str.repeat_char]; rewrite ?append_cons, ?append_empty_l;
    discriminate.
Qed.

(** After a color and a length variable have been registered. *)
Lemma placeholders_idempotent_injective_sample :
  let reg :=
    run_calls sampleHashGenerate
      [CallColor "$primary" None; CallLength "$gap" None] initialRegistry in
  (forall (c : call) (between : list call),
     fst (run_call sampleHashGenerate c
            (run_calls sampleHashGenerate between
               (snd (run_call sampleHashGenerate c reg))))
     = fst (run_call sampleHashGenerate c reg))
  /\ (forall c : call,
       call_fallback c = None ->
       hexForVarName (snd (run_call sampleHashGenerate c reg)) !! call_name c
       = Some (fst (run_call sampleHashGenerate c reg)))
  /\ (forall (a b h : string),
       hexForVarName reg !! a = Some h -> hexForVarName reg !! b = Some h ->
       a = b)
  /\ (forall (c1 c2 : call) (between : list call),
       call_fallback c1 = None -> call_fallback c2 = None ->
       call_name c1 <> call_name c2 ->
       fst (run_call sampleHashGenerate c1 reg)
       <> fst (run_call sampleHashGenerate c2
                 (run_calls sampleHashGenerate between
                    (snd (run_call sampleHashGenerate c1 reg))))).
Proof.
  exact (placeholders_idempotent_injective sampleHashGenerate
           [CallColor "$primary" None; CallLength "$gap" None]
           sampleHashGenerate_inj sampleHashGenerate_fresh).
Defined.

(** ** formatValue: the remaining branches *)

(** X1. Margin dominance on the width axis (lines 16-18): a truthy width whose
    magnitude is at most [marginLeft + marginRight], and is written the way
    [String] renders it, comes back as that magnitude followed by the unit
    written after it (['px'] when there is none): the margins are not
    subtracted. *)
Theorem formatValue_width_dominated (style : object) (dimensions : ScaledSize) :
  truthy (obj_get style "width") = true ->
  js_le (parseFloat (obj_get style "width"))
    (js_add (obj_get style "marginLeft") (obj_get style "marginRight")) = true ->
  Num.written_magnitude (to_string (obj_get style "width"))
  = Num.to_string (parseFloat (obj_get style "width")) ->
  formatValue style dimensions "width" =
    VStr (Num.to_string (parseFloat (obj_get style "width"))
          +:+ writtenUnitOrPx (obj_get style "width")).
Proof.
  intros Hw Hle Hcan. rewrite <- (declaredUnit_canonical _ Hcan).
  unfold formatValue, declaredUnit.
  rewrite Hw. cbn [andb String.eqb Ascii.eqb Bool.eqb]. now rewrite Hle.
Qed.

(** The example of the specification: ['10px'] under margins 6 and 6. *)
Lemma formatValue_width_dominated_10px :
  formatValue
    [("width", VStr "10px"); ("marginLeft", VNum (Num.of_Z 6));
     ("marginRight", VNum (Num.of_Z 6))] sampleViewport "width"
  = VStr "10px".
Proof.
  rewrite formatValue_width_dominated;
    [ | reflexivity | reflexivity | vm_compute; reflexivity ].
  vm_compute. reflexivity.
Defined.

(** X2. The adjusted height (line 23) carries the unit of the height itself:
    for a truthy height whose magnitude is greater than [marginTop +
    marginBottom] and is written the way [String] renders it, the result is
    the adjusted magnitude followed by the text written after the magnitude of
    the height (['px'] when there is none), whatever the width is. *)
Theorem formatValue_height_adjusted (style : object) (dimensions : ScaledSize) :
  truthy (obj_get style "height") = true ->
  js_gt (parseFloat (obj_get style "height"))
    (js_add (obj_get style "marginTop") (obj_get style "marginBottom")) = true ->
  Num.written_magnitude (to_string (obj_get style "height"))
  = Num.to_string (parseFloat (obj_get style "height")) ->
  formatValue style dimensions "height" =
    VStr (Num.to_string
            (Num.sub (parseFloat (obj_get style "height"))
               (Num.div
                  (js_mul (VNum (Num.of_Z 100))
                     (js_add (obj_get style "marginTop") (obj_get style "marginBottom")))
                  (height dimensions)))
          +:+ writtenUnitOrPx (obj_get style "height")).
Proof.
  intros Hh Hgt Hcan. rewrite <- (declaredUnit_canonical _ Hcan).
  unfold formatValue, declaredUnit.
  cbn [String.eqb Ascii.eqb Bool.eqb]. rewrite andb_false_r, Hh. cbn [andb].
  unfold js_gt in Hgt. unfold js_le.
  now rewrite (ltb_leb_false _ _ Hgt).
Qed.

Lemma formatValue_height_adjusted_40vh :
  formatValue
    [("width", VStr "5rem"); ("height", VStr "50vh");
     ("marginTop", VNum (Num.of_Z 5)); ("marginBottom", VNum (Num.of_Z 5))]
    sampleViewport "height"
  = VStr "40vh".
Proof.
  rewrite formatValue_height_adjusted;
    [ | reflexivity | reflexivity | vm_compute; reflexivity ].
  vm_compute. reflexivity.
Defined.

(** X3. [formatValue] gives a string when the dimension named by [key] is
    declared with a truthy value, and [undefined] in every other case: any
    other key, or a dimension that is missing, [0], [''] or [null]. *)
Theorem formatValue_undefined (style : object) (dimensions : ScaledSize)
    (key : string) :
  (formatValue style dimensions key = VUndefined <->
   ~ ((key = "width" \/ key = "height") /\ truthy (obj_get style key) = true))
  /\ (formatValue style dimensions key = VUndefined
      \/ is_string (formatValue style dimensions key) = true).
Proof.
  unfold formatValue.
  destruct (String.eqb_spec key "width") as [-> | Hw].
  - destruct (truthy (obj_get style "width")) eqn:E; cbn [andb].
    + split.
      * split; [ destruct (js_le _ _); discriminate | ].
        intros H. exfalso. apply H. auto.
      * right. now destruct (js_le _ _).
    + cbn [String.eqb Ascii.eqb Bool.eqb]. rewrite andb_false_r. split; [ | now left ].
      split; [ | reflexivity ]. intros _ [_ H]. congruence.
  - rewrite andb_false_r.
    destruct (String.eqb_spec key "height") as [-> | Hh].
    + destruct (truthy (obj_get style "height")) eqn:E; cbn [andb].
      * split.
        -- split; [ destruct (js_le _ _); discriminate | ].
           intros H. exfalso. apply H. auto.
        -- right. now destruct (js_le _ _).
      * split; [ | now left ].
        split; [ | reflexivity ]. intros _ [_ H]. congruence.
    + rewrite andb_false_r. split; [ | now left ].
      split; [ | reflexivity ]. intros _ [[H | H] _]; congruence.
Qed.

(** X4. What a result depends on. For ['width']: the declared width, the two
    horizontal margins and the viewport width, nothing else. For ['height']:
    the declared height, the two vertical margins, the viewport height, and the
    declared width as well (its unit is read on line 22). *)
Theorem formatValue_depends_on (style style' : object)
    (dimensions dimensions' : ScaledSize) :
  (obj_get style "width" = obj_get style' "width" ->
   obj_get style "marginLeft" = obj_get style' "marginLeft" ->
   obj_get style "marginRight" = obj_get style' "marginRight" ->
   width dimensions = width dimensions' ->
   formatValue style dimensions "width" = formatValue style' dimensions' "width")
  /\ (obj_get style "height" = obj_get style' "height" ->
      obj_get style "width" = obj_get style' "width" ->
      obj_get style "marginTop" = obj_get style' "marginTop" ->
      obj_get style "marginBottom" = obj_get style' "marginBottom" ->
      height dimensions = height dimensions' ->
      formatValue style dimensions "height"
      = formatValue style' dimensions' "height").
Proof.
  split.
  - intros Hw Hl Hr Hd. unfold formatValue. rewrite Hw, Hl, Hr, Hd.
    cbn [String.eqb Ascii.eqb Bool.eqb]. rewrite !andb_false_r, !andb_true_r.
    reflexivity.
  - intros Hh Hw Ht Hb Hd. unfold formatValue. rewrite Hh, Hw, Ht, Hb, Hd.
    cbn [String.eqb Ascii.eqb Bool.eqb]. rewrite !andb_false_r, !andb_true_r.
    reflexivity.
Qed.

(** X5. A truthy dimension that starts with no numeral, such as ['auto'], has
    the magnitude NaN: it fails every comparison and comes back as ['NaN']
    followed by what [replace] left of its text. *)
Theorem formatValue_not_a_number (style : object) (dimensions : ScaledSize)
    (key : string) :
  key = "width" \/ key = "height" ->
  truthy (obj_get style key) = true ->
  Num.is_nan (parseFloat (obj_get style key)) = true ->
  formatValue style dimensions key
  = VStr ("NaN" +:+ declaredUnit (obj_get style key)).
Proof.
  intros [-> | ->] Hk Hnan; unfold formatValue, declaredUnit;
    destruct (parseFloat (obj_get style _)) eqn:E; try discriminate;
    cbn [String.eqb Ascii.eqb Bool.eqb]; rewrite ?andb_false_r, Hk; reflexivity.
Qed.

Lemma formatValue_not_a_number_auto :
  formatValue [("width", VStr "auto"); ("marginLeft", VNum (Num.of_Z 1));
               ("marginRight", VNum (Num.of_Z 1))] sampleViewport "width"
  = VStr "NaNauto".
Proof.
  rewrite (formatValue_not_a_number _ _ "width");
    [ reflexivity | left; reflexivity | reflexivity | reflexivity ].
Defined.

(** ** resolveLengthUnit: what it returns *)

(** What a successful call returns: the input itself when it is falsy, a
    number, or a string in [%]; a number in every other case. *)
Lemma resolveLengthUnit_ok_cases (str v : value) (theme : Theme)
    (windowDimensions : ScaledSize) :
  resolveLengthUnit str theme windowDimensions = ok v ->
  (v = str /\ (truthy str = false \/ is_number str = true
               \/ exists s, str = VStr s /\ unitText s = "%"))
  \/ (is_number v = true /\ is_string str = true /\ truthy str = true).
Proof.
  unfold resolveLengthUnit.
  destruct (truthy str) eqn:Ht; [ destruct (is_number str) eqn:Hn | ]; cbn [negb orb].
  - intros [= <-]. left. auto.
  - destruct str as [ | |b|x|s|o|src]; try discriminate.
    fold (unitText s).
    destruct (Num.eqb _ _); [ intros [= <-]; right; auto | ].
    destruct (Str.is_empty _); [ discriminate | ].
    destruct (String.eqb_spec (unitText s) "rem");
      [ intros [= <-]; right; unfold js_or; cbn [truthy];
        destruct (Num.truthy _); auto | ].
    destruct (String.eqb_spec (unitText s) "px"); [ intros [= <-]; right; auto | ].
    destruct (String.eqb_spec (unitText s) "%");
      [ intros [= <-]; left; split; [ reflexivity | right; right; eauto ] | ].
    destruct (String.eqb_spec (unitText s) "vw"); [ intros [= <-]; right; auto | ].
    destruct (String.eqb_spec (unitText s) "vh"); [ intros [= <-]; right; auto | ].
    discriminate.
  - intros [= <-]. left. auto.
Qed.

(** X6. The result of [resolveLengthUnit] is its own fixed point: resolving a
    resolved value again changes nothing and cannot fail. *)
Theorem resolveLengthUnit_idempotent (str v : value) (theme : Theme)
    (windowDimensions : ScaledSize) :
  resolveLengthUnit str theme windowDimensions = ok v ->
  resolveLengthUnit v theme windowDimensions = ok v.
Proof.
  intros H. destruct (resolveLengthUnit_ok_cases _ _ _ _ H) as [[-> _] | [Hn _]].
  - exact H.
  - unfold resolveLengthUnit. now rewrite Hn, orb_true_r.
Qed.

Lemma resolveLengthUnit_idempotent_50vw :
  resolveLengthUnit (VNum (Num.of_Z 50)) sampleTheme sampleViewport
  = ok (VNum (Num.of_Z 50)).
Proof.
  apply (resolveLengthUnit_idempotent (VStr "50vw")). reflexivity.
Defined.

(** X7. A string never resolves to another string: the result is a number,
    except for a length in [%], which comes back as the very string that was
    given (white space included). *)
Theorem resolveLengthUnit_string_result (s : string) (v : value) (theme : Theme)
    (windowDimensions : ScaledSize) :
  s <> "" ->
  resolveLengthUnit (VStr s) theme windowDimensions = ok v ->
  is_number v = true \/ (v = VStr s /\ unitText s = "%").
Proof.
  intros Hs H.
  destruct (resolveLengthUnit_ok_cases _ _ _ _ H)
    as [[-> [Hf | [Hn | (s' & [= <-] & Hu)]]] | [Hn _]]; auto; try discriminate.
  destruct s; [ congruence | discriminate ].
Qed.

Lemma resolveLengthUnit_string_result_percent :
  resolveLengthUnit (VStr " 50% ") sampleTheme sampleViewport = ok (VStr " 50% ")
  /\ unitText " 50% " = "%".
Proof.
  split; [ reflexivity | ].
  destruct (resolveLengthUnit_string_result " 50% " (VStr " 50% ") sampleTheme
              sampleViewport) as [H | [_ H]];
    [ discriminate | reflexivity | discriminate H | exact H ].
Defined.

Lemma trimStart_whitespace (w s : string) :
  Str.all_chars Str.is_whitespace w = true ->
  Str.trimStart (w +:+ s) = Str.trimStart s.
Proof.
  induction w as [|c w IH]; [ reflexivity | ].
  cbn [Str.all_chars]. intros H. apply andb_prop in H as [Hc Hw].
  rewrite append_cons. cbn [Str.trimStart]. rewrite Hc. now apply IH.
Qed.

(** X8. White space in front of a length does not change the number it resolves
    to. *)
Theorem resolveLengthUnit_leading_whitespace (w s : string) (x : Num.double)
    (theme : Theme) (windowDimensions : ScaledSize) :
  Str.all_chars Str.is_whitespace w = true ->
  resolveLengthUnit (VStr s) theme windowDimensions = ok (VNum x) ->
  resolveLengthUnit (VStr (w +:+ s)) theme windowDimensions = ok (VNum x).
Proof.
  intros Hw H.
  assert (Hp : Num.parseFloat (w +:+ s) = Num.parseFloat s)
    by (unfold Num.parseFloat; now rewrite trimStart_whitespace).
  assert (Hu : unitText (w +:+ s) = unitText s)
    by (unfold unitText, Str.trim; now rewrite Hp, trimStart_whitespace).
  assert (Hs : s <> "") by (intros ->; discriminate).
  assert (Hws : w +:+ s <> "")
    by (destruct w; [ exact Hs | rewrite append_cons; discriminate ]).
  revert H. unfold resolveLengthUnit.
  destruct s as [|c s]; [ congruence | ].
  destruct (w +:+ String c s) as [|c' s'] eqn:E; [ congruence | ].
  cbn [truthy Str.is_empty negb is_number orb].
  fold (unitText (String c s)). fold (unitText (String c' s')).
  rewrite Hp, Hu.
  destruct (Num.eqb _ _); [ trivial | ].
  destruct (Str.is_empty _); [ discriminate | ].
  repeat (destruct (String.eqb _ _); [ first [ exact (fun h => h) | discriminate ] | ]).
  discriminate.
Qed.

Lemma resolveLengthUnit_leading_whitespace_5px :
  resolveLengthUnit (VStr "  5px") sampleTheme sampleViewport
  = ok (VNum (Num.of_Z 5)).
Proof.
  apply (resolveLengthUnit_leading_whitespace "  " "5px"); reflexivity.
Defined.

(** ** The registry: both directions, and its size *)

Lemma registry_fresh_color (hashGenerate : nat -> string) (reg : Registry)
    (b h : string) :
  (forall i n, hashGenerate i <> colorHash n) ->
  registry_inv hashGenerate reg ->
  hexForVarName reg !! b = Some h -> h <> colorHash (currentColorId reg).
Proof.
  intros Hfresh (_ & Hsrc & _) Hb ->.
  destruct (Hsrc _ _ Hb) as [(n & Hn & En) | (i & _ & Ei)].
  - apply colorHash_inj in En. lia.
  - symmetry in Ei. now apply Hfresh in Ei.
Qed.

Lemma registry_fresh_token (hashGenerate : nat -> string) (reg : Registry)
    (b h : string) :
  (forall i j, hashGenerate i = hashGenerate j -> i = j) ->
  (forall i n, hashGenerate i <> colorHash n) ->
  registry_inv hashGenerate reg ->
  hexForVarName reg !! b = Some h -> h <> hashGenerate (hashCalls reg).
Proof.
  intros Hinj Hfresh (_ & Hsrc & _) Hb ->.
  destruct (Hsrc _ _ Hb) as [(n & _ & En) | (i & Hi & Ei)].
  - now apply Hfresh in En.
  - apply Hinj in Ei. lia.
Qed.

(** Registering one more binding under a fresh placeholder keeps the two maps
    in step. *)
Lemma registry_consistent_insert (reg reg' : Registry) (name hash : string) :
  hexForVarName reg !! name = None ->
  (forall b h, hexForVarName reg !! b = Some h -> h <> hash) ->
  hexForVarName reg' = <[name := hash]> (hexForVarName reg) ->
  nameForHex reg' = <[hash := Str.substring1 name]> (nameForHex reg) ->
  registry_consistent reg -> registry_consistent reg'.
Proof.
  intros Hnone Hnew Hhex Hname [Hto Hfrom]. unfold registry_consistent.
  rewrite Hhex, Hname. split.
  - intros name0 h0. rewrite lookup_insert. case_decide as Hd.
    + intros [= <-]. subst name0. apply lookup_insert_eq.
    + intros H. rewrite lookup_insert_ne by (symmetry; exact (Hnew _ _ H)).
      now apply Hto.
  - intros h0 n. rewrite lookup_insert. case_decide as Hd.
    + intros [= <-]. subst h0. exists name. split; [ apply lookup_insert_eq | reflexivity ].
    + intros H. destruct (Hfrom _ _ H) as (name0 & H0 & ->).
      exists name0. split; [ | reflexivity ].
      rewrite lookup_insert_ne; [ exact H0 | congruence ].
Qed.

Lemma run_call_consistent (hashGenerate : nat -> string) (c : call)
    (reg : Registry) :
  (forall i j, hashGenerate i = hashGenerate j -> i = j) ->
  (forall i n, hashGenerate i <> colorHash n) ->
  registry_inv hashGenerate reg ->
  registry_consistent reg ->
  registry_consistent (snd (run_call hashGenerate c reg)).
Proof.
  intros Hinj Hfresh Hinv Hcons.
  destruct c as [name f|name f]; cbn [run_call];
    unfold resolveColorVariablePlaceholder, resolverLengsVariables; cbn [snd];
    destruct (hexForVarName reg !! name) eqn:E; try exact Hcons.
  - apply (registry_consistent_insert reg _ name (colorHash (currentColorId reg)));
      try reflexivity; try assumption.
    intros b h. now apply (registry_fresh_color hashGenerate).
  - apply (registry_consistent_insert reg _ name (hashGenerate (hashCalls reg)));
      try reflexivity; try assumption.
    intros b h. now apply (registry_fresh_token hashGenerate).
Qed.

Lemma run_calls_consistent (hashGenerate : nat -> string) (cs : list call) :
  (forall i j, hashGenerate i = hashGenerate j -> i = j) ->
  (forall i n, hashGenerate i <> colorHash n) ->
  forall reg,
    registry_inv hashGenerate reg -> registry_consistent reg ->
    registry_inv hashGenerate (run_calls hashGenerate cs reg)
    /\ registry_consistent (run_calls hashGenerate cs reg).
Proof.
  intros Hinj Hfresh.
  induction cs as [|c cs IH]; intros reg Hinv Hcons; [ now split | ].
  apply IH.
  - now apply run_call_inv.
  - now apply run_call_consistent.
Qed.

Lemma initialRegistry_consistent : registry_consistent initialRegistry.
Proof.
  unfold registry_consistent, initialRegistry. cbn. split.
  - intros name h H. now rewrite lookup_empty in H.
  - intros h n H. now rewrite lookup_empty in H.
Qed.

(** X9. Decoding undoes encoding. After any sequence of calls to the two
    encoders, [nameForHex] sends the placeholder of every registered name back
    to that name without its first character (the sigil), and holds nothing
    else. As for injectivity, the token generator must never repeat itself nor
    return a color placeholder. *)
Theorem registry_round_trip (hashGenerate : nat -> string) (calls : list call) :
  (forall i j, hashGenerate i = hashGenerate j -> i = j) ->
  (forall i n, hashGenerate i <> colorHash n) ->
  let reg := run_calls hashGenerate calls initialRegistry in
  (forall name h, hexForVarName reg !! name = Some h ->
     nameForHex reg !! h = Some (Str.substring1 name))
  /\ (forall h n, nameForHex reg !! h = Some n ->
      exists name, hexForVarName reg !! name = Some h /\ n = Str.substring1 name).
Proof.
  intros Hinj Hfresh.
  apply (run_calls_consistent hashGenerate calls Hinj Hfresh initialRegistry
           (initialRegistry_inv hashGenerate) initialRegistry_consistent).
Qed.

Lemma registry_round_trip_sample :
  let reg :=
    run_calls sampleHashGenerate
      [CallColor "$primary" None; CallLength "$gap" None] initialRegistry in
  (forall name h, hexForVarName reg !! name = Some h ->
     nameForHex reg !! h = Some (Str.substring1 name))
  /\ (forall h n, nameForHex reg !! h = Some n ->
      exists name, hexForVarName reg !! name = Some h /\ n = Str.substring1 name).
Proof.
  exact (registry_round_trip sampleHashGenerate
           [CallColor "$primary" None; CallLength "$gap" None]
           sampleHashGenerate_inj sampleHashGenerate_fresh).
Defined.

Lemma run_call_size (hashGenerate : nat -> string) (c : call) (reg : Registry) :
  (1 <= currentColorId reg)%N
  /\ size (hexForVarName reg)
     = (N.to_nat (currentColorId reg) - 1 + hashCalls reg)%nat ->
  let reg' := snd (run_call hashGenerate c reg) in
  (1 <= currentColorId reg')%N
  /\ size (hexForVarName reg')
     = (N.to_nat (currentColorId reg') - 1 + hashCalls reg')%nat.
Proof.
  intros [Hc Hs].
  destruct c as [name f|name f]; cbn [run_call];
    unfold resolveColorVariablePlaceholder, resolverLengsVariables; cbn [snd];
    destruct (hexForVarName reg !! name) eqn:E; cbn zeta; try (split; assumption);
    cbn [currentColorId hexForVarName hashCalls];
    rewrite (map_size_insert_None _ _ _ E), Hs; split; lia.
Qed.

(** X10. The two counters count the registered names: a name takes a new color
    code or a new token only the first time it is seen, so the registry holds
    exactly [currentColorId - 1] names registered through the color encoder
    plus one per call made to [hashGenerate]. *)
Theorem registry_size (hashGenerate : nat -> string) (calls : list call) :
  let reg := run_calls hashGenerate calls initialRegistry in
  (1 <= currentColorId reg)%N
  /\ size (hexForVarName reg)
     = (N.to_nat (currentColorId reg) - 1 + hashCalls reg)%nat.
Proof.
  cbn zeta.
  assert (H0 : (1 <= currentColorId initialRegistry)%N
               /\ size (hexForVarName initialRegistry)
                  = (N.to_nat (currentColorId initialRegistry) - 1
                     + hashCalls initialRegistry)%nat)
    by (split; [ reflexivity | apply map_size_empty ]).
  revert H0. generalize initialRegistry.
  induction calls as [|c cs IH]; intros reg H; [ exact H | ].
  apply IH. now apply run_call_size.
Qed.

(** ** The shape of a color placeholder *)

Lemma digits_value_bounds (b : N) (s : string) :
  forall acc v,
    Str.digits_value b acc s = Some v ->
    (acc * b ^ N.of_nat (String.length s) <= v
     /\ v < (acc + 1) * b ^ N.of_nat (String.length s))%N.
Proof.
  induction s as [|c s IH]; intros acc v; cbn [Str.digits_value String.length].
  - intros [= <-]. cbn. lia.
  - destruct (Str.digit_value c) as [d|]; [ | discriminate ].
    destruct (N.ltb_spec d b) as [Hd|]; [ | discriminate ].
    intros H. apply IH in H as [Hlo Hhi].
    rewrite Nat2N.inj_succ, N.pow_succ_r'. split; nia.
Qed.

Lemma toUpperCase_app (a b : string) :
  Str.toUpperCase (a +:+ b) = Str.toUpperCase a +:+ Str.toUpperCase b.
Proof.
  induction a as [|c a IH]; [ reflexivity | ].
  rewrite append_cons. cbn [Str.toUpperCase]. now rewrite IH, append_cons.
Qed.

Lemma toUpperCase_length (s : string) :
  String.length (Str.toUpperCase s) = String.length s.
Proof. induction s as [|c s IH]; [ reflexivity | ]. cbn. now rewrite IH. Qed.

Lemma append_length (a b : string) :
  String.length (a +:+ b) = (String.length a + String.length b)%nat.
Proof.
  induction a as [|c a IH]; [ reflexivity | ]. rewrite append_cons. cbn. now rewrite IH.
Qed.

Lemma repeat_char_length (c : ascii) (n : nat) :
  String.length (Str.repeat_char c n) = n.
Proof. induction n as [|n IH]; [ reflexivity | ]. cbn. now rewrite IH. Qed.

Lemma toUpperCase_hex (d : Hexadecimal.uint) :
  Str.all_chars is_upper_hex
    (Str.toUpperCase (HexadecimalString.NilEmpty.string_of_uint d)) = true.
Proof. induction d; cbn; auto. Qed.

(** The hexadecimal numeral of a positive number starts with a non-zero
    digit. *)
Lemma hex_of_N_head (n : N) :
  n <> 0%N ->
  exists c s k,
    Str.hex_of_N n = String c s /\ Str.digit_value c = Some k
    /\ (1 <= k < 16)%N.
Proof.
  intros Hn. unfold Str.hex_of_N.
  pose proof (HexadecimalN.Unsigned.to_of (N.to_hex_uint n)) as Hu.
  rewrite HexadecimalN.Unsigned.of_to in Hu.
  assert (Hnz : Hexadecimal.nzhead (N.to_hex_uint n) <> Hexadecimal.Nil).
  { intros E. apply HexadecimalFacts.unorm_0 in E. rewrite E in Hu.
    apply Hn. rewrite <- (HexadecimalN.Unsigned.of_to n), Hu. reflexivity. }
  rewrite (HexadecimalFacts.unorm_nzhead _ Hnz) in Hu.
  pose proof (HexadecimalFacts.nzhead_nonzero (N.to_hex_uint n)) as H0.
  rewrite <- Hu in H0, Hnz.
  destruct (N.to_hex_uint n) as [|u|u|u|u|u|u|u|u|u|u|u|u|u|u|u|u];
    [ congruence | exfalso; now apply (H0 u) | .. ];
    cbn [HexadecimalString.NilEmpty.string_of_uint];
    do 2 eexists; eexists; (split; [ reflexivity | split; [ cbv; reflexivity | lia ] ]).
Qed.

(** Six digits are enough exactly below [16^6]. *)
Lemma hex_of_N_length (n : N) :
  ((n < 16777216)%N -> (String.length (Str.hex_of_N n) <= 6)%nat)
  /\ ((16777216 <= n)%N -> (6 < String.length (Str.hex_of_N n))%nat).
Proof.
  destruct (N.eq_dec n 0%N) as [-> | Hn]; [ split; [ cbn; lia | lia ] | ].
  destruct (hex_of_N_head n Hn) as (c & s & k & Hs & Hk & Hrange).
  pose proof (digits_value_hex_of_N n) as Hv. rewrite Hs in Hv |- *.
  cbn [Str.digits_value] in Hv. rewrite Hk in Hv.
  destruct (N.ltb_spec k 16); [ | lia ].
  apply digits_value_bounds in Hv as [Hlo Hhi]. cbn [String.length].
  change 16777216%N with (16 ^ 6)%N.
  split; intros Hb.
  - assert (16 ^ N.of_nat (String.length s) < 16 ^ 6)%N by nia.
    apply N.pow_lt_mono_r_iff in H0; lia.
  - assert (16 ^ 6 < 16 ^ N.of_nat (S (String.length s)))%N
      by (rewrite Nat2N.inj_succ, N.pow_succ_r'; nia).
    apply N.pow_lt_mono_r_iff in H0; lia.
Qed.

(** X11. A color placeholder is [#], upper-case hexadecimal digits, and [00].
    While the counter is below 16777216 the digits are six, which makes the
    placeholder a color code of the form [#RRGGBB00]; from there on they are
    more. *)
Theorem colorHash_shape (n : N) :
  exists digits,
    colorHash n = "#" +:+ digits +:+ "00"
    /\ Str.all_chars is_upper_hex digits = true
    /\ ((n < 16777216)%N -> String.length digits = 6%nat)
    /\ ((16777216 <= n)%N -> (6 < String.length digits)%nat).
Proof.
  exists (Str.toUpperCase (Str.padStart (Str.hex_of_N n) 6 "0")).
  destruct (hex_of_N_length n) as [Hshort Hlong].
  split; [ reflexivity | split; [ | split ] ].
  - unfold Str.padStart. rewrite toUpperCase_app, all_chars_app.
    apply andb_true_intro. split.
    + generalize (6 - String.length (Str.hex_of_N n))%nat as k.
      induction k as [|k IH]; [ reflexivity | exact IH ].
    + apply toUpperCase_hex.
  - intros Hb. apply Hshort in Hb. unfold Str.padStart.
    rewrite toUpperCase_length, append_length, repeat_char_length. lia.
  - intros Hb. apply Hlong in Hb. unfold Str.padStart.
    rewrite toUpperCase_length, append_length, repeat_char_length. lia.
Qed.

(** ** Objects *)

Lemma obj_lookup_set (o : object) (k k' : string) (v : value) :
  obj_lookup (obj_set o k v) k' =
    if String.eqb k' k then Some v else obj_lookup o k'.
Proof.
  induction o as [|[k0 v0] o IH]; cbn [obj_set obj_lookup].
  - reflexivity.
  - destruct (String.eqb_spec k k0) as [-> | Hne]; cbn [obj_lookup].
    + now destruct (String.eqb k' k0).
    + destruct (String.eqb_spec k' k0) as [-> | Hne'].
      * destruct (String.eqb_spec k0 k); [ congruence | reflexivity ].
      * exact IH.
Qed.

Lemma obj_lookup_None (o : object) (k : string) :
  obj_lookup o k = None <-> k ∉ obj_keys o.
Proof.
  induction o as [|[k0 v0] o IH]; cbn [obj_lookup obj_keys map fst].
  - split; [ intros _; apply not_elem_of_nil | reflexivity ].
  - rewrite not_elem_of_cons.
    destruct (String.eqb_spec k k0) as [-> | Hne].
    + split; [ discriminate | intros [H _]; congruence ].
    + rewrite IH. tauto.
Qed.

Lemma obj_keys_set (o : object) (k k' : string) (v : value) :
  k' ∈ obj_keys (obj_set o k v) <-> k' = k \/ k' ∈ obj_keys o.
Proof.
  induction o as [|[k0 v0] o IH]; cbn [obj_set obj_keys map fst].
  - rewrite elem_of_cons, elem_of_nil. tauto.
  - destruct (String.eqb_spec k k0) as [-> | Hne]; cbn [map fst].
    + rewrite !elem_of_cons. tauto.
    + rewrite !elem_of_cons. unfold obj_keys in IH. rewrite IH. tauto.
Qed.

Lemma obj_set_NoDup (o : object) (k : string) (v : value) :
  NoDup (obj_keys o) -> NoDup (obj_keys (obj_set o k v)).
Proof.
  induction o as [|[k0 v0] o IH]; cbn [obj_set obj_keys map fst].
  - intros _. apply NoDup_singleton.
  - destruct (String.eqb_spec k k0) as [-> | Hne]; cbn [map fst]; [ trivial | ].
    rewrite !NoDup_cons. intros [Hin Hnd]. split; [ | now apply IH ].
    intros H. apply obj_keys_set in H as [H | H]; [ congruence | now apply Hin ].
Qed.

Lemma obj_delete_lookup (o : object) (k k' : string) :
  NoDup (obj_keys o) ->
  obj_lookup (obj_delete o k) k' =
    if String.eqb k' k then None else obj_lookup o k'.
Proof.
  induction o as [|[k0 v0] o IH]; cbn [obj_delete obj_lookup obj_keys map fst].
  - intros _. now destruct (String.eqb k' k).
  - rewrite NoDup_cons. intros [Hin Hnd].
    destruct (String.eqb_spec k k0) as [E | Hne]; cbn [obj_lookup].
    + subst k0. destruct (String.eqb_spec k' k) as [E' | Hne']; [ | reflexivity ].
      subst k'. now apply obj_lookup_None.
    + destruct (String.eqb_spec k' k0) as [E' | Hne'].
      * subst k'. destruct (String.eqb_spec k0 k); [ congruence | reflexivity ].
      * now apply IH.
Qed.

Lemma obj_delete_keys (o : object) (k k' : string) :
  k' ∈ obj_keys (obj_delete o k) -> k' ∈ obj_keys o.
Proof.
  induction o as [|[k0 v0] o IH]; cbn [obj_delete obj_keys map fst]; [ trivial | ].
  destruct (String.eqb_spec k k0) as [-> | Hne]; cbn [map fst];
    rewrite ?elem_of_cons; [ auto | ].
  intros [H | H]; [ auto | right; now apply IH ].
Qed.

Lemma obj_delete_NoDup (o : object) (k : string) :
  NoDup (obj_keys o) -> NoDup (obj_keys (obj_delete o k)).
Proof.
  induction o as [|[k0 v0] o IH]; cbn [obj_delete obj_keys map fst]; [ trivial | ].
  rewrite NoDup_cons. intros [Hin Hnd].
  destruct (String.eqb_spec k k0) as [-> | Hne]; cbn [map fst]; [ exact Hnd | ].
  apply NoDup_cons. split; [ | now apply IH ].
  intros H. now apply Hin, (obj_delete_keys o k).
Qed.

Lemma touches_only_refl (key : string) (o : object) : touches_only key o o.
Proof. now split. Qed.

Lemma touches_only_set (key : string) (o : object) (v : value) :
  touches_only key o (obj_set o key v).
Proof.
  split; [ | apply obj_set_NoDup ].
  intros k Hk. rewrite obj_lookup_set.
  destruct (String.eqb_spec k key); [ congruence | reflexivity ].
Qed.

Lemma touches_only_trans (key : string) (o1 o2 o3 : object) :
  touches_only key o1 o2 -> touches_only key o2 o3 -> touches_only key o1 o3.
Proof.
  intros [H1 N1] [H2 N2]. split; [ | auto ].
  intros k Hk. now rewrite H2, H1.
Qed.

(** The merge of lines 195-199: the properties of [shadow] win over the
    properties of the same name, the others stay. *)
Lemma merge_lookup (shadow : object) :
  forall (o : object) (k : string),
    NoDup (obj_keys shadow) ->
    obj_lookup (fold_left (fun o kv => obj_set o kv.1 kv.2) shadow o) k =
      match obj_lookup shadow k with
      | Some v => Some v
      | None => obj_lookup o k
      end.
Proof.
  induction shadow as [|[k0 v0] shadow IH]; intros o k; [ reflexivity | ].
  cbn [fold_left obj_keys map fst obj_lookup]. rewrite NoDup_cons.
  intros [Hin Hnd]. rewrite (IH _ _ Hnd). cbn [fst snd].
  rewrite obj_lookup_set.
  destruct (String.eqb_spec k k0) as [-> | Hne]; [ | reflexivity ].
  apply obj_lookup_None in Hin. now rewrite Hin.
Qed.

Lemma merge_frame (shadow : object) :
  forall (o : object) (k : string),
    obj_lookup shadow k = None ->
    obj_lookup (fold_left (fun o kv => obj_set o kv.1 kv.2) shadow o) k
    = obj_lookup o k.
Proof.
  induction shadow as [|[k0 v0] shadow IH]; intros o k; [ reflexivity | ].
  cbn [fold_left obj_lookup fst snd].
  destruct (String.eqb_spec k k0) as [-> | Hne]; [ discriminate | ].
  intros H. rewrite (IH _ _ H), obj_lookup_set.
  destruct (String.eqb_spec k k0); [ congruence | reflexivity ].
Qed.

Lemma merge_NoDup (shadow : object) :
  forall o : object,
    NoDup (obj_keys o) ->
    NoDup (obj_keys (fold_left (fun o kv => obj_set o kv.1 kv.2) shadow o)).
Proof.
  induction shadow as [|[k0 v0] shadow IH]; intros o H; [ exact H | ].
  cbn [fold_left]. apply IH. now apply obj_set_NoDup.
Qed.

Lemma obj_get_lookup (o o' : object) (k : string) :
  obj_lookup o' k = obj_lookup o k -> obj_get o' k = obj_get o k.
Proof. unfold obj_get. now intros ->. Qed.

(** ** The per-property pass *)

Lemma obj_delete_lookup_ne (o : object) (k k' : string) :
  k' <> k -> obj_lookup (obj_delete o k) k' = obj_lookup o k'.
Proof.
  intros Hne. induction o as [|[k0 v0] o IH]; cbn [obj_delete obj_lookup];
    [ reflexivity | ].
  destruct (String.eqb_spec k k0) as [E | Hk]; cbn [obj_lookup].
  - subst k0. destruct (String.eqb_spec k' k); [ congruence | reflexivity ].
  - destruct (String.eqb k' k0); [ reflexivity | exact IH ].
Qed.

Section Pass.

Variable ext : Externals.
Variable reg : Registry.
Variable theme : Theme.
Variable windowDimensions : ScaledSize.
Variable units : value.

(** The loop, one property at a time. *)
Lemma resolveProperties_cons (key : string) (keys : list string)
    (styleObject : object) :
  resolveProperties ext reg theme windowDimensions units (key :: keys) styleObject
  = (styleObject <-
       resolveProperty ext reg theme windowDimensions units key styleObject ;;
     resolveProperties ext reg theme windowDimensions units keys styleObject).
Proof.
  unfold resolveProperties. cbn [fold_left].
  change (styleObject0 <- ok styleObject ;;
          resolveProperty ext reg theme windowDimensions units key styleObject0)
    with (resolveProperty ext reg theme windowDimensions units key styleObject).
  destruct (resolveProperty ext reg theme windowDimensions units key styleObject)
    as [e|st]; [ apply resolveProperties_throw | reflexivity ].
Qed.

Lemma resolveProperties_app (pre post : list string) (styleObject : object) :
  resolveProperties ext reg theme windowDimensions units (pre ++ post) styleObject
  = (styleObject <-
       resolveProperties ext reg theme windowDimensions units pre styleObject ;;
     resolveProperties ext reg theme windowDimensions units post styleObject).
Proof.
  revert styleObject. induction pre as [|k pre IH]; intros st; [ reflexivity | ].
  cbn [app]. rewrite !resolveProperties_cons.
  destruct (resolveProperty ext reg theme windowDimensions units k st);
    [ reflexivity | apply IH ].
Qed.

Lemma substituteVariable_touches (key : string) (hex : value)
    (undefinedError : string -> error) (st st' : object) :
  substituteVariable (builtins ext) reg theme key hex undefinedError st = ok st' ->
  touches_only key st st'.
Proof.
  unfold substituteVariable.
  destruct (map_get _ _) as [n|]; [ | intros [= <-]; apply touches_only_refl ].
  destruct (Str.is_empty n); [ intros [= <-]; apply touches_only_refl | ].
  destruct (_ && _); [ intros [= <-]; apply touches_only_set | discriminate ].
Qed.

Lemma resolveColor_touches (key : string) (st st' : object) :
  resolveColor ext reg theme key st = ok st' -> touches_only key st st'.
Proof.
  unfold resolveColor. destruct (colorAttributes ext key).
  - apply substituteVariable_touches.
  - intros [= <-]. apply touches_only_refl.
Qed.

Lemma convertLength_touches (key : string) (st st' : object) :
  convertLength ext theme windowDimensions units key st = ok st' ->
  touches_only key st st'.
Proof.
  unfold convertLength.
  match goal with
  | |- context [resolveLengthUnit (obj_get ?s key) _ _] => set (st1 := s)
  end.
  assert (H1 : touches_only key st st1).
  { unfold st1. destruct (_ || _); [ | apply touches_only_refl ].
    destruct (negb _); [ apply touches_only_set | apply touches_only_refl ]. }
  destruct (resolveLengthUnit _ _ _) as [e|v]; [ discriminate | ].
  intros [= <-]. eapply touches_only_trans; [ exact H1 | apply touches_only_set ].
Qed.

Lemma resolveLength_touches (key : string) (st st' : object) :
  resolveLength ext reg theme windowDimensions units key st = ok st' ->
  touches_only key st st'.
Proof.
  unfold resolveLength. destruct (lengthAttributes ext key);
    [ | intros [= <-]; apply touches_only_refl ].
  destruct (substituteVariable _ _ _ _ _ _ _) as [e|st1] eqn:E; [ discriminate | ].
  cbn [bind]. intros H. eapply touches_only_trans.
  - eapply substituteVariable_touches, E.
  - eapply convertLength_touches, H.
Qed.

Lemma expandElevation_frame (key : string) (st st' : object) :
  expandElevation theme key st = ok st' ->
  (NoDup (obj_keys st) -> NoDup (obj_keys st'))
  /\ (forall k, (forall v, obj_lookup (elevation_fn theme v) k = None) ->
      obj_lookup st' k = obj_lookup st k).
Proof.
  unfold expandElevation. destruct (_ && _); [ | intros [= <-]; now split ].
  destruct (theme_get theme "elevation"); try discriminate.
  intros [= <-]. split; [ apply merge_NoDup | ].
  intros k Hk. now apply merge_frame.
Qed.

(** One turn of the loop leaves alone every property other than the current
    one that the elevation does not produce, and keeps the keys distinct. *)
Lemma resolveProperty_frame (key : string) (st st' : object) :
  resolveProperty ext reg theme windowDimensions units key st = ok st' ->
  (NoDup (obj_keys st) -> NoDup (obj_keys st'))
  /\ (forall k, k <> key ->
      (forall v, obj_lookup (elevation_fn theme v) k = None) ->
      obj_lookup st' k = obj_lookup st k).
Proof.
  unfold resolveProperty.
  destruct (expandElevation theme key st) as [e|st1] eqn:E1; [ discriminate | ].
  cbn [bind].
  match goal with
  | |- context [resolveColor ext reg theme key ?s] => set (st2 := s)
  end.
  destruct (resolveColor ext reg theme key st2) as [e|st3] eqn:E3; [ discriminate | ].
  cbn [bind]. intros E4.
  apply expandElevation_frame in E1 as [N1 F1].
  apply resolveColor_touches in E3 as [F3 N3].
  apply resolveLength_touches in E4 as [F4 N4].
  assert (N2 : NoDup (obj_keys st1) -> NoDup (obj_keys st2))
    by (unfold st2; destruct (_ && _); [ apply obj_delete_NoDup | trivial ]).
  split; [ auto | ].
  intros k Hk Hshadow. rewrite F4, F3 by exact Hk. rewrite <- (F1 k Hshadow).
  unfold st2. destruct (String.eqb_spec key "cursor") as [-> | Hc]; cbn [andb].
  - destruct (negb _); [ now apply obj_delete_lookup_ne | reflexivity ].
  - reflexivity.
Qed.

(** A property that is neither a color nor a length, nor a [cursor] to be
    removed, is not changed by its own turn either. *)
Lemma resolveProperty_passive (key : string) (st st' : object) :
  colorAttributes ext key = false ->
  lengthAttributes ext key = false ->
  key <> "cursor" \/ plattformIsWeb ext = true ->
  (forall v, obj_lookup (elevation_fn theme v) key = None) ->
  resolveProperty ext reg theme windowDimensions units key st = ok st' ->
  obj_lookup st' key = obj_lookup st key.
Proof.
  intros Hc Hl Hcur Hshadow. unfold resolveProperty, resolveColor, resolveLength.
  rewrite Hc, Hl.
  destruct (expandElevation theme key st) as [e|st1] eqn:E1; [ discriminate | ].
  cbn [bind ok]. intros [= <-].
  apply expandElevation_frame in E1 as [_ F1].
  rewrite <- (F1 key Hshadow).
  destruct (String.eqb_spec key "cursor") as [-> | Hk]; cbn [andb]; [ | reflexivity ].
  destruct Hcur as [Hcur | ->]; [ congruence | reflexivity ].
Qed.

(** The turn of [cursor] off the web removes it. *)
Lemma resolveProperty_cursor (st st' : object) :
  plattformIsWeb ext = false ->
  lengthAttributes ext "cursor" = false ->
  NoDup (obj_keys st) ->
  resolveProperty ext reg theme windowDimensions units "cursor" st = ok st' ->
  obj_lookup st' "cursor" = None.
Proof.
  intros Hweb Hl Hnd. unfold resolveProperty, expandElevation, resolveLength.
  rewrite Hweb, Hl. cbn [String.eqb Ascii.eqb Bool.eqb andb negb bind ok].
  assert (Hdel : obj_lookup (obj_delete st "cursor") "cursor" = None)
    by (rewrite obj_delete_lookup by exact Hnd; reflexivity).
  unfold resolveColor, substituteVariable, obj_get. rewrite Hdel.
  destruct (colorAttributes ext "cursor"); cbn [map_get bind];
    intros [= <-]; exact Hdel.
Qed.

End Pass.

(** ** The whole pass *)

Lemma recomputeDimensions_frame (st st' : object) (theme : Theme)
    (windowDimensions : ScaledSize) (k : string) :
  recomputeDimensions st theme windowDimensions = ok st' ->
  k <> "width" -> k <> "height" ->
  obj_lookup st' k = obj_lookup st k.
Proof.
  unfold recomputeDimensions.
  destruct (resolveLengthUnit (formatValue st windowDimensions "width") _ _)
    as [e|w]; [ discriminate | ]. cbn [bind].
  destruct (resolveLengthUnit (formatValue st windowDimensions "height") _ _)
    as [e|h]; [ discriminate | ]. cbn [bind].
  intros [= <-] Hw Hh. rewrite !obj_lookup_set.
  destruct (String.eqb_spec k "height"); [ congruence | ].
  destruct (String.eqb_spec k "width"); [ congruence | reflexivity ].
Qed.

Lemma format_decimal_head (ds : string) (n : Z) :
  Str.all_chars Str.is_digit ds = true -> ds <> "" ->
  exists c r, Num.format_decimal ds n = String c r /\ Str.is_digit c = true.
Proof.
  intros Hd Hne. destruct ds as [|d ds]; [ congruence | ].
  cbn [Str.all_chars] in Hd. apply andb_prop in Hd as [Hd _].
  unfold Num.format_decimal. cbv zeta.
  destruct ((_ <=? n) && (n <=? 21)); [ rewrite append_cons; eauto | ].
  destruct ((0 <? n) && (n <=? 21)) eqn:E.
  - apply andb_prop in E as [E _]. apply Z.ltb_lt in E.
    destruct (Z.to_nat n) eqn:En; [ lia | ].
    cbn [Str.take]. rewrite append_cons. eauto.
  - destruct ((-6 <? n) && (n <=? 0)).
    + rewrite append_cons. exists "0"%char. eauto.
    + destruct ds; do 2 eexists; (split; [ reflexivity | exact Hd ]).
Qed.

(** The text of a number starts with a digit, a minus sign, or the [N] of
    [NaN] or the [I] of [Infinity]. *)
Lemma to_string_head (x : Num.double) :
  exists c r,
    Num.to_string x = String c r
    /\ (Str.is_digit c = true \/ c = "-"%char \/ c = "N"%char \/ c = "I"%char).
Proof.
  destruct x as [s|s| |s m e]; cbn [Num.to_string].
  - exists "0"%char, "". auto.
  - destruct s; do 2 eexists; split; try reflexivity; auto.
  - do 2 eexists; split; try reflexivity; auto.
  - destruct (Num.ratio m e) as [num den].
    destruct (Num.shortest _ _ _ _ _ _) as [d n].
    destruct (format_decimal_head (Str.of_N (Z.to_N d)) n (of_N_digits _)
                (of_N_nonempty _)) as (c & r & -> & Hc).
    destruct s; [ do 2 eexists; split; [ reflexivity | auto ] | ].
    rewrite append_empty_l. eauto.
Qed.

Lemma digit_not_c_m (c : ascii) :
  Str.is_digit c = true \/ c = "-"%char \/ c = "N"%char \/ c = "I"%char ->
  Ascii.eqb "c" c = false /\ Ascii.eqb "m" c = false.
Proof.
  intros [H | [-> | [-> | ->]]]; try (split; reflexivity).
  revert H. destruct c as [[] [] [] [] [] [] [] []]; cbn; intros; try discriminate; auto.
Qed.

(** No number reads as a [calc], [max] or [min] expression. *)
Lemma number_not_calc (x : Num.double) (p : string) :
  p = "calc" \/ p = "max" \/ p = "min" ->
  Str.startsWith (Num.to_string x) p = false.
Proof.
  intros Hp. destruct (to_string_head x) as (c & r & -> & Hc).
  apply digit_not_c_m in Hc as [Hc Hm]. unfold Str.startsWith.
  destruct Hp as [-> | [-> | ->]]; cbn [Str.strip_prefix]; now rewrite ?Hc, ?Hm.
Qed.

Section WholePass.

Variable ext : Externals.
Variable reg : Registry.
Variable theme : Theme.
Variable windowDimensions : ScaledSize.
Variable units : value.

Lemma resolveProperties_no_cursor (keys : list string) :
  plattformIsWeb ext = false ->
  lengthAttributes ext "cursor" = false ->
  (forall v, obj_lookup (elevation_fn theme v) "cursor" = None) ->
  forall st st',
    NoDup keys -> NoDup (obj_keys st) ->
    "cursor" ∈ keys \/ obj_lookup st "cursor" = None ->
    resolveProperties ext reg theme windowDimensions units keys st = ok st' ->
    obj_lookup st' "cursor" = None.
Proof.
  intros Hweb Hl Hshadow.
  induction keys as [|k keys IH]; intros st st' Hk Hst Hc.
  - intros [= <-]. destruct Hc as [Hc | Hc]; [ now apply elem_of_nil in Hc | exact Hc ].
  - rewrite resolveProperties_cons.
    destruct (resolveProperty ext reg theme windowDimensions units k st)
      as [e|st1] eqn:E; [ discriminate | ].
    cbn [bind]. apply NoDup_cons in Hk as [Hin Hk].
    destruct (resolveProperty_frame _ _ _ _ _ _ _ _ E) as [Hnd Hframe].
    apply IH; [ exact Hk | now apply Hnd | ].
    destruct (String.eqb_spec k "cursor") as [-> | Hne].
    + right. now apply (resolveProperty_cursor ext reg theme windowDimensions units st).
    + destruct Hc as [Hc | Hc].
      * apply elem_of_cons in Hc as [Hc | Hc]; [ congruence | now left ].
      * right. rewrite Hframe; [ exact Hc | congruence | exact Hshadow ].
Qed.

(** X12. The platform filter. Off the web, a style object that is resolved
    without error has no [cursor] property left, provided [cursor] is not
    classified as a length (the length step would write it back as [undefined])
    and the elevation does not produce one. *)
Theorem resolveThemeVariables_no_cursor (styleObject st' : object) :
  plattformIsWeb ext = false ->
  lengthAttributes ext "cursor" = false ->
  (forall v, obj_lookup (elevation_fn theme v) "cursor" = None) ->
  NoDup (obj_keys styleObject) ->
  resolveThemeVariables ext reg styleObject theme windowDimensions units = ok st' ->
  obj_lookup st' "cursor" = None.
Proof.
  intros Hweb Hl Hshadow Hnd. unfold resolveThemeVariables.
  destruct (resolveProperties _ _ _ _ _ _ _) as [e|st1] eqn:E; [ discriminate | ].
  cbn [bind].
  assert (H1 : obj_lookup st1 "cursor" = None).
  { apply (resolveProperties_no_cursor (obj_keys styleObject) Hweb Hl Hshadow
             styleObject st1 Hnd Hnd); [ | exact E ].
    destruct (decide ("cursor" ∈ obj_keys styleObject)) as [Hin | Hin];
      [ now left | right; now apply obj_lookup_None ]. }
  destruct (marginCheck st1); [ | now intros [= <-] ].
  intros H. rewrite (recomputeDimensions_frame _ _ _ _ "cursor" H); easy.
Qed.

Lemma resolveProperties_passive (k : string) (keys : list string) :
  colorAttributes ext k = false ->
  lengthAttributes ext k = false ->
  k <> "cursor" \/ plattformIsWeb ext = true ->
  (forall v, obj_lookup (elevation_fn theme v) k = None) ->
  forall st st',
    resolveProperties ext reg theme windowDimensions units keys st = ok st' ->
    obj_lookup st' k = obj_lookup st k.
Proof.
  intros Hc Hl Hcur Hshadow.
  induction keys as [|key keys IH]; intros st st'; [ now intros [= <-] | ].
  rewrite resolveProperties_cons.
  destruct (resolveProperty ext reg theme windowDimensions units key st)
    as [e|st1] eqn:E; [ discriminate | ].
  cbn [bind]. intros H. rewrite (IH _ _ H).
  destruct (String.eqb_spec k key) as [<- | Hne].
  - now apply (resolveProperty_passive ext reg theme windowDimensions units k st).
  - now apply (resolveProperty_frame _ _ _ _ _ _ _ _ E).
Qed.

(** X13. The pass only writes where it has to. A property that is neither a
    color nor a length, that is not [width], [height] or a [cursor] to be
    removed, and that the elevation does not produce, has in the resolved
    object the value it had before (and is missing there if it was missing). *)
Theorem resolveThemeVariables_frame (styleObject st' : object) (k : string) :
  colorAttributes ext k = false ->
  lengthAttributes ext k = false ->
  k <> "cursor" \/ plattformIsWeb ext = true ->
  (forall v, obj_lookup (elevation_fn theme v) k = None) ->
  k <> "width" -> k <> "height" ->
  resolveThemeVariables ext reg styleObject theme windowDimensions units = ok st' ->
  obj_lookup st' k = obj_lookup styleObject k.
Proof.
  intros Hc Hl Hcur Hshadow Hw Hh. unfold resolveThemeVariables.
  destruct (resolveProperties _ _ _ _ _ _ _) as [e|st1] eqn:E; [ discriminate | ].
  cbn [bind].
  pose proof (resolveProperties_passive k _ Hc Hl Hcur Hshadow _ _ E) as H1.
  destruct (marginCheck st1); [ | now intros [= <-] ].
  intros H. now rewrite (recomputeDimensions_frame _ _ _ _ k H).
Qed.

Lemma resolveProperties_first_throw (keys : list string) (e : error) :
  forall st,
    resolveProperties ext reg theme windowDimensions units keys st = throw e <->
    exists pre key post st1,
      keys = pre ++ key :: post
      /\ resolveProperties ext reg theme windowDimensions units pre st = ok st1
      /\ resolveProperty ext reg theme windowDimensions units key st1 = throw e.
Proof.
  induction keys as [|k keys IH]; intros st.
  - split; [ discriminate | ].
    intros (pre & key & post & st1 & H & _). now destruct pre.
  - rewrite resolveProperties_cons.
    destruct (resolveProperty ext reg theme windowDimensions units k st)
      as [e1|st1] eqn:E; cbn [bind].
    + split.
      * intros [= ->]. exists [], k, keys, st. auto.
      * intros (pre & key & post & st1 & H & Hpre & Hkey).
        destruct pre as [|k' pre]; cbn [app] in H; injection H as <- ->.
        -- injection Hpre as <-. unfold throw, ok in *. congruence.
        -- rewrite resolveProperties_cons, E in Hpre. discriminate.
    + rewrite IH. split.
      * intros (pre & key & post & st2 & -> & Hpre & Hkey).
        exists (k :: pre), key, post, st2. split; [ reflexivity | ].
        split; [ | exact Hkey ]. now rewrite resolveProperties_cons, E.
      * intros (pre & key & post & st2 & H & Hpre & Hkey).
        destruct pre as [|k' pre]; cbn [app] in H; injection H as <- ->.
        -- injection Hpre as <-. unfold throw, ok in *. congruence.
        -- rewrite resolveProperties_cons, E in Hpre.
           exists pre, key, post, st2. auto.
Qed.

Lemma resolveThemeVariables_first_throw (styleObject st1 : object)
    (pre post : list string) (key : string) (e : error) :
  obj_keys styleObject = pre ++ key :: post ->
  resolveProperties ext reg theme windowDimensions units pre styleObject = ok st1 ->
  resolveProperty ext reg theme windowDimensions units key st1 = throw e ->
  resolveThemeVariables ext reg styleObject theme windowDimensions units = throw e.
Proof.
  intros Hkeys Hpre Hstep. unfold resolveThemeVariables.
  assert (H : resolveProperties ext reg theme windowDimensions units
                (obj_keys styleObject) styleObject = throw e).
  { apply resolveProperties_first_throw. exists pre, key, post, st1. auto. }
  now rewrite H.
Qed.

Lemma obj_set_same (o : object) (k : string) (v : value) :
  obj_lookup o k = Some v -> obj_set o k v = o.
Proof.
  induction o as [|[k0 v0] o IH]; cbn [obj_lookup obj_set]; [ discriminate | ].
  destruct (String.eqb k k0); [ now intros [= ->] | ].
  intros H. now rewrite IH.
Qed.

Lemma obj_lookup_get (o : object) (k : string) :
  k ∈ obj_keys o -> obj_lookup o k = Some (obj_get o k).
Proof.
  intros H. unfold obj_get. destruct (obj_lookup o k) eqn:E; [ reflexivity | ].
  now apply obj_lookup_None in E.
Qed.

Lemma resolveProperty_settled (st : object) (key : string) :
  key ∈ obj_keys st ->
  settled ext reg theme st key ->
  resolveProperty ext reg theme windowDimensions units key st = ok st.
Proof.
  intros Hin (He & Hcur & Hc & Hl). unfold resolveProperty.
  assert (E1 : expandElevation theme key st = ok st).
  { unfold expandElevation.
    destruct He as [He | ->]; [ | now rewrite andb_false_r ].
    apply String.eqb_neq in He. now rewrite He. }
  rewrite E1. cbn [bind ok].
  assert (E2 : String.eqb key "cursor" && negb (plattformIsWeb ext) = false).
  { destruct Hcur as [Hcur | ->]; [ | apply andb_false_r ].
    apply String.eqb_neq in Hcur. now rewrite Hcur. }
  rewrite E2. cbv iota.
  assert (E3 : resolveColor ext reg theme key st = ok st).
  { unfold resolveColor, substituteVariable.
    destruct Hc as [-> | ->]; [ reflexivity | now destruct (colorAttributes ext key) ]. }
  rewrite E3. cbn [bind ok]. unfold resolveLength.
  destruct Hl as [-> | [Hreg Hv]]; [ reflexivity | ].
  destruct (lengthAttributes ext key); [ | reflexivity ].
  unfold substituteVariable. cbn [map_get]. rewrite Hreg. cbn [bind ok].
  unfold convertLength.
  assert (Hcalc : forall p, (p = "calc" \/ p = "max" \/ p = "min") ->
            Str.startsWith (to_string (obj_get st key)) p = false).
  { intros p Hp. destruct (obj_get st key) as [ | |b|x|s|o|src];
      try (now apply number_not_calc);
      try (destruct Hv as [Hv | Hv]; discriminate);
      try (destruct Hp as [-> | [-> | ->]]; reflexivity).
    - destruct b; destruct Hp as [-> | [-> | ->]]; reflexivity.
    - destruct Hv as [Hv | Hv]; [ | discriminate ].
      destruct s; [ | discriminate ].
      destruct Hp as [-> | [-> | ->]]; reflexivity. }
  rewrite !Hcalc by auto. cbn [orb].
  assert (Hr : resolveLengthUnit (obj_get st key) theme windowDimensions
               = ok (obj_get st key)).
  { unfold resolveLengthUnit. destruct Hv as [-> | ->]; [ reflexivity | ].
    now rewrite orb_true_r. }
  rewrite Hr. cbn [bind ok]. unfold ok. f_equal.
  now apply obj_set_same, obj_lookup_get.
Qed.

(** X15. Ordinary literals pass through untouched. A style object on whose
    properties the pass has nothing to do, and whose margins do not open the
    recomputation, is returned as it is. *)
Theorem resolveThemeVariables_settled (styleObject : object) :
  Forall (settled ext reg theme styleObject) (obj_keys styleObject) ->
  marginCheck styleObject = false ->
  resolveThemeVariables ext reg styleObject theme windowDimensions units
  = ok styleObject.
Proof.
  intros Hall Hm. unfold resolveThemeVariables.
  assert (H : forall keys,
            Forall (fun k => k ∈ obj_keys styleObject
                             /\ settled ext reg theme styleObject k) keys ->
            resolveProperties ext reg theme windowDimensions units keys styleObject
            = ok styleObject).
  { induction keys as [|k keys IH]; [ reflexivity | ].
    intros Hk. apply Forall_cons in Hk as [[Hin Hs] Hk].
    rewrite resolveProperties_cons, (resolveProperty_settled _ _ Hin Hs).
    cbn [bind ok]. now apply IH. }
  rewrite H; [ cbn [bind ok]; now rewrite Hm | ].
  apply Forall_forall. intros k Hin. split; [ exact Hin | ].
  rewrite Forall_forall in Hall. now apply Hall.
Qed.

End WholePass.

(** Off the web the [cursor] of a style is dropped, the color stays. *)
Lemma resolveThemeVariables_no_cursor_pointer :
  resolveThemeVariables sampleExternals initialRegistry
    [("cursor", VStr "pointer"); ("color", VStr "red")]
    sampleTheme sampleViewport VUndefined
  = ok [("color", VStr "red")]
  /\ obj_lookup [("color", VStr "red")] "cursor" = None.
Proof.
  assert (H : resolveThemeVariables sampleExternals initialRegistry
                [("cursor", VStr "pointer"); ("color", VStr "red")]
                sampleTheme sampleViewport VUndefined
              = ok [("color", VStr "red")]) by (vm_compute; reflexivity).
  split; [ exact H | ].
  apply (resolveThemeVariables_no_cursor sampleExternals initialRegistry
           sampleTheme sampleViewport VUndefined
           [("cursor", VStr "pointer"); ("color", VStr "red")]);
    [ reflexivity | reflexivity | reflexivity | | exact H ].
  apply (bool_decide_unpack _). vm_compute. exact I.
Defined.

(** [opacity] is neither a color nor a length: it comes out as it went in,
    next to a width that is converted. *)
Lemma resolveThemeVariables_frame_opacity :
  resolveThemeVariables sampleExternals initialRegistry
    [("width", VStr "50vw"); ("opacity", VStr "0.5")]
    sampleTheme sampleViewport VUndefined
  = ok [("width", VNum (Num.of_Z 50)); ("opacity", VStr "0.5")]
  /\ obj_lookup [("width", VNum (Num.of_Z 50)); ("opacity", VStr "0.5")] "opacity"
     = obj_lookup [("width", VStr "50vw"); ("opacity", VStr "0.5")] "opacity".
Proof.
  assert (H : resolveThemeVariables sampleExternals initialRegistry
                [("width", VStr "50vw"); ("opacity", VStr "0.5")]
                sampleTheme sampleViewport VUndefined
              = ok [("width", VNum (Num.of_Z 50)); ("opacity", VStr "0.5")])
    by (vm_compute; reflexivity).
  split; [ exact H | ].
  apply (resolveThemeVariables_frame sampleExternals initialRegistry
           sampleTheme sampleViewport VUndefined
           [("width", VStr "50vw"); ("opacity", VStr "0.5")]);
    [ reflexivity | reflexivity | left; discriminate | reflexivity
    | discriminate | discriminate | exact H ].
Defined.

(** A style of plain literals: a color name, a number, a missing margin. *)
Lemma resolveThemeVariables_settled_literals :
  resolveThemeVariables sampleExternals sampleRegistry
    [("color", VStr "red"); ("width", VNum (Num.of_Z 50)); ("opacity", VStr "0.5")]
    sampleTheme sampleViewport VUndefined
  = ok [("color", VStr "red"); ("width", VNum (Num.of_Z 50));
        ("opacity", VStr "0.5")].
Proof.
  apply resolveThemeVariables_settled; [ | reflexivity ].
  assert (Hs : forall key,
            key ∈ ["color"; "width"; "opacity"] ->
            settled sampleExternals sampleRegistry sampleTheme
              [("color", VStr "red"); ("width", VNum (Num.of_Z 50));
               ("opacity", VStr "0.5")] key).
  { intros key Hk. rewrite !elem_of_cons, elem_of_nil in Hk.
    destruct Hk as [-> | [-> | [-> | []]]];
      (split; [ left; discriminate | split; [ left; discriminate | split ] ]).
    - right. reflexivity.
    - left. reflexivity.
    - left. reflexivity.
    - right. split; [ reflexivity | right; reflexivity ].
    - left. reflexivity.
    - left. reflexivity. }
  apply Forall_forall. exact Hs.
Defined.

(** ** The margin check, in general *)

Lemma to_int32_falsy (x : Num.double) :
  Num.truthy x = false -> Num.to_int32 x = 0.
Proof. destruct x; try discriminate; reflexivity. Qed.

Lemma to_int32_js_or (v : value) :
  Num.to_int32 (to_number (js_or v VUndefined)) = Num.to_int32 (to_number v).
Proof.
  unfold js_or. destruct (truthy v) eqn:E; [ reflexivity | ].
  symmetry. now apply to_int32_falsy, falsy_to_number.
Qed.

(** The check fails as soon as [marginRight & marginTop] is 0, or the 32-bit
    integer of [marginBottom] is. *)
Lemma marginCheck_blocked (styleObject : object) :
  Z.land (Num.to_int32 (to_number (obj_get styleObject "marginRight")))
         (Num.to_int32 (to_number (obj_get styleObject "marginTop"))) = 0
  \/ Num.to_int32 (to_number (obj_get styleObject "marginBottom")) = 0 ->
  marginCheck styleObject = false.
Proof.
  intros H. unfold marginCheck, js_and.
  destruct (truthy (js_or (obj_get styleObject "marginLeft") VUndefined)) eqn:E;
    [ | exact E ].
  unfold js_bitand. cbn [to_number truthy]. rewrite !to_int32_js_or.
  destruct H as [-> | ->]; [ reflexivity | ].
  now rewrite Z.land_0_r.
Qed.

Lemma obj_get_single (key : string) (v : value) : obj_get [(key, v)] key = v.
Proof. unfold obj_get. cbn [obj_lookup]. now rewrite String.eqb_refl. Qed.

Lemma obj_set_single (key : string) (v w : value) :
  obj_set [(key, v)] key w = [(key, w)].
Proof. cbn [obj_set]. now rewrite String.eqb_refl. Qed.

Lemma obj_get_set (o : object) (k : string) (v : value) :
  obj_get (obj_set o k v) k = v.
Proof. unfold obj_get. now rewrite obj_lookup_set, String.eqb_refl. Qed.

(** An object of one property never opens the recomputation. *)
Lemma marginCheck_single (key : string) (v : value) :
  marginCheck [(key, v)] = false.
Proof.
  apply marginCheck_blocked. left. unfold obj_get. cbn [obj_lookup].
  destruct (String.eqb_spec "marginRight" key) as [<- | _];
    [ apply Z.land_0_r | apply Z.land_0_l ].
Qed.

(** X16. When the recomputation stays closed. The properties having been
    resolved, the width and the height are left as that pass made them whenever
    [marginLeft] is falsy, [marginRight & marginTop] is 0, or the 32-bit
    integer of [marginBottom] is 0: a margin that is missing, a percentage or
    less than 1 is enough. *)
Theorem resolveThemeVariables_margins_blocked (ext : Externals) (reg : Registry)
    (theme : Theme) (windowDimensions : ScaledSize) (units : value)
    (styleObject st1 : object) :
  resolveProperties ext reg theme windowDimensions units
    (obj_keys styleObject) styleObject = ok st1 ->
  truthy (obj_get st1 "marginLeft") = false
  \/ Z.land (Num.to_int32 (to_number (obj_get st1 "marginRight")))
            (Num.to_int32 (to_number (obj_get st1 "marginTop"))) = 0
  \/ Num.to_int32 (to_number (obj_get st1 "marginBottom")) = 0 ->
  resolveThemeVariables ext reg styleObject theme windowDimensions units = ok st1.
Proof.
  intros Hpass H. unfold resolveThemeVariables. rewrite Hpass. cbn [bind ok].
  assert (Hm : marginCheck st1 = false).
  { destruct H as [H | H]; [ | now apply marginCheck_blocked ].
    destruct (marginCheck st1) eqn:E; [ | reflexivity ].
    apply marginCheck_sound in E as [E _]. congruence. }
  now rewrite Hm.
Qed.

(** Four margins of 10%: each is truthy, none has a 32-bit integer other
    than 0, and the width stays as declared. *)
Lemma resolveThemeVariables_margins_blocked_percent :
  let style :=
    [("width", VStr "50%"); ("marginLeft", VStr "10%"); ("marginRight", VStr "10%");
     ("marginTop", VStr "10%"); ("marginBottom", VStr "10%")] in
  resolveThemeVariables sampleExternals initialRegistry style sampleTheme
    sampleViewport VUndefined = ok style.
Proof.
  apply resolveThemeVariables_margins_blocked;
    [ vm_compute; reflexivity | right; right; vm_compute; reflexivity ].
Defined.

(** ** Properties are resolved one by one *)

Section Local.

Variable ext : Externals.
Variable reg : Registry.
Variable theme : Theme.
Variable windowDimensions : ScaledSize.
Variable units : value.

Lemma substituteVariable_local (key : string) (hex : value)
    (undefinedError : string -> error) (st st' : object) (v : value) :
  substituteVariable (builtins ext) reg theme key hex undefinedError st = ok st' ->
  obj_lookup st key = Some v ->
  exists w,
    obj_lookup st' key = Some w
    /\ substituteVariable (builtins ext) reg theme key hex undefinedError [(key, v)]
       = ok [(key, w)].
Proof.
  unfold substituteVariable.
  destruct (map_get _ _) as [n|]; [ | intros [= <-]; eauto ].
  destruct (Str.is_empty n); [ intros [= <-]; eauto | ].
  destruct (_ && _); [ | discriminate ].
  intros [= <-] _. eexists. split.
  - rewrite obj_lookup_set, String.eqb_refl. reflexivity.
  - now rewrite obj_set_single.
Qed.

Lemma resolveColor_local (key : string) (st st' : object) (v : value) :
  resolveColor ext reg theme key st = ok st' ->
  obj_lookup st key = Some v ->
  exists w,
    obj_lookup st' key = Some w
    /\ resolveColor ext reg theme key [(key, v)] = ok [(key, w)].
Proof.
  unfold resolveColor. destruct (colorAttributes ext key);
    [ | intros [= <-]; eauto ].
  intros H Hv. rewrite obj_get_single.
  replace (obj_get st key) with v in H by (unfold obj_get; now rewrite Hv).
  now apply (substituteVariable_local _ _ _ st).
Qed.

Lemma convertLength_local (key : string) (st st' : object) (v : value) :
  convertLength ext theme windowDimensions units key st = ok st' ->
  obj_lookup st key = Some v ->
  exists w,
    obj_lookup st' key = Some w
    /\ convertLength ext theme windowDimensions units key [(key, v)]
       = ok [(key, w)].
Proof.
  intros H Hv. unfold convertLength in *. rewrite obj_get_single.
  replace (obj_get st key) with v in H by (unfold obj_get; now rewrite Hv).
  destruct (_ || _).
  - destruct (negb _).
    + rewrite obj_get_set in H. rewrite obj_set_single, obj_get_single.
      destruct (resolveLengthUnit _ _ _) as [e|r]; [ discriminate | ].
      cbn [bind ok] in *. injection H as <-. exists r.
      rewrite obj_lookup_set, String.eqb_refl, obj_set_single. auto.
    + replace (obj_get st key) with v in H by (unfold obj_get; now rewrite Hv).
      rewrite obj_get_single.
      destruct (resolveLengthUnit _ _ _) as [e|r]; [ discriminate | ].
      cbn [bind ok] in *. injection H as <-. exists r.
      rewrite obj_lookup_set, String.eqb_refl, obj_set_single. auto.
  - replace (obj_get st key) with v in H by (unfold obj_get; now rewrite Hv).
    rewrite obj_get_single.
    destruct (resolveLengthUnit _ _ _) as [e|r]; [ discriminate | ].
    cbn [bind ok] in *. injection H as <-. exists r.
    rewrite obj_lookup_set, String.eqb_refl, obj_set_single. auto.
Qed.

Lemma resolveLength_local (key : string) (st st' : object) (v : value) :
  resolveLength ext reg theme windowDimensions units key st = ok st' ->
  obj_lookup st key = Some v ->
  exists w,
    obj_lookup st' key = Some w
    /\ resolveLength ext reg theme windowDimensions units key [(key, v)]
       = ok [(key, w)].
Proof.
  unfold resolveLength. destruct (lengthAttributes ext key);
    [ | intros [= <-]; eauto ].
  intros H Hv. rewrite obj_get_single.
  replace (obj_get st key) with v in H by (unfold obj_get; now rewrite Hv).
  destruct (substituteVariable _ _ _ _ _ _ st) as [e|st1] eqn:E; [ discriminate | ].
  cbn [bind ok] in H.
  destruct (substituteVariable_local _ _ _ _ _ _ E Hv) as (w1 & Hw1 & ->).
  cbn [bind ok]. now apply (convertLength_local _ st1).
Qed.

Lemma resolveProperty_local (key : string) (st st' : object) (v : value) :
  key <> "elevation" ->
  key <> "cursor" \/ plattformIsWeb ext = true ->
  resolveProperty ext reg theme windowDimensions units key st = ok st' ->
  obj_lookup st key = Some v ->
  exists w,
    obj_lookup st' key = Some w
    /\ resolveProperty ext reg theme windowDimensions units key [(key, v)]
       = ok [(key, w)].
Proof.
  intros He Hcur. unfold resolveProperty, expandElevation.
  apply String.eqb_neq in He. rewrite He. cbn [andb bind ok].
  assert (E2 : String.eqb key "cursor" && negb (plattformIsWeb ext) = false).
  { destruct Hcur as [Hcur | ->]; [ | apply andb_false_r ].
    apply String.eqb_neq in Hcur. now rewrite Hcur. }
  rewrite E2. cbv iota.
  destruct (resolveColor ext reg theme key st) as [e|st1] eqn:E; [ discriminate | ].
  cbn [bind ok]. intros H Hv.
  destruct (resolveColor_local _ _ _ _ E Hv) as (w1 & Hw1 & ->).
  cbn [bind ok]. now apply (resolveLength_local _ st1).
Qed.

(** The turns of the other properties leave a property alone. *)
Lemma resolveProperties_other (key : string) (keys : list string) :
  key ∉ keys ->
  (forall u, obj_lookup (elevation_fn theme u) key = None) ->
  forall st st',
    resolveProperties ext reg theme windowDimensions units keys st = ok st' ->
    obj_lookup st' key = obj_lookup st key.
Proof.
  intros Hin Hshadow. induction keys as [|k keys IH]; intros st st';
    [ now intros [= <-] | ].
  apply not_elem_of_cons in Hin as [Hne Hin].
  rewrite resolveProperties_cons.
  destruct (resolveProperty ext reg theme windowDimensions units k st)
    as [e|st1] eqn:E; [ discriminate | ].
  cbn [bind]. intros H. rewrite (IH Hin _ _ H).
  now apply (resolveProperty_frame _ _ _ _ _ _ _ _ E).
Qed.

(** X17. Properties are resolved independently. In a style object resolved
    without error, a property other than [elevation], [width], [height] and a
    [cursor] to be removed, that the elevation does not produce, has the value
    it gets when it is resolved on its own: no property reads another one. *)
Theorem resolveThemeVariables_local (styleObject st' : object) (key : string)
    (v : value) :
  NoDup (obj_keys styleObject) ->
  obj_lookup styleObject key = Some v ->
  key <> "elevation" ->
  key <> "cursor" \/ plattformIsWeb ext = true ->
  key <> "width" -> key <> "height" ->
  (forall u, obj_lookup (elevation_fn theme u) key = None) ->
  resolveThemeVariables ext reg styleObject theme windowDimensions units = ok st' ->
  exists w,
    obj_lookup st' key = Some w
    /\ resolveThemeVariables ext reg [(key, v)] theme windowDimensions units
       = ok [(key, w)].
Proof.
  intros Hnd Hv He Hcur Hw Hh Hshadow. unfold resolveThemeVariables at 1.
  assert (Hin : key ∈ obj_keys styleObject).
  { destruct (decide (key ∈ obj_keys styleObject)) as [H | H]; [ exact H | ].
    apply obj_lookup_None in H. congruence. }
  apply list_elem_of_split in Hin as (pre & post & Hkeys).
  rewrite Hkeys in Hnd |- *.
  apply NoDup_app in Hnd as (_ & Hpre & Hpost).
  apply NoDup_cons in Hpost as [Hpost _].
  rewrite resolveProperties_app.
  destruct (resolveProperties _ _ _ _ _ pre styleObject) as [e|st1] eqn:E1;
    [ discriminate | ].
  cbn [bind]. rewrite resolveProperties_cons.
  destruct (resolveProperty _ _ _ _ _ key st1) as [e|st2] eqn:E2;
    [ discriminate | ].
  cbn [bind].
  destruct (resolveProperties _ _ _ _ _ post st2) as [e|st3] eqn:E3;
    [ discriminate | ].
  cbn [bind]. intros H.
  assert (H1 : obj_lookup st1 key = Some v).
  { rewrite (resolveProperties_other key pre) with (st := styleObject);
      [ exact Hv | | exact Hshadow | exact E1 ].
    intros Hk. apply (Hpre key Hk). apply elem_of_cons. now left. }
  destruct (resolveProperty_local _ _ _ _ He Hcur E2 H1) as (w & H2 & Hsingle).
  exists w. split.
  - assert (H3 : obj_lookup st3 key = Some w).
    { now rewrite (resolveProperties_other key post Hpost Hshadow _ _ E3). }
    destruct (marginCheck st3); [ | now injection H as <- ].
    now rewrite (recomputeDimensions_frame _ _ _ _ key H).
  - unfold resolveThemeVariables. cbn [obj_keys map fst].
    rewrite resolveProperties_cons, Hsingle. cbn [bind ok].
    change (resolveProperties ext reg theme windowDimensions units [] [(key, w)])
      with (ok [(key, w)]).
    cbn [bind ok]. now rewrite marginCheck_single.
Qed.

End Local.

(** The margin of a style with a removed [cursor] and a converted width is the
    margin resolved alone. *)
Lemma resolveThemeVariables_local_margin :
  resolveThemeVariables sampleExternals initialRegistry
    [("cursor", VStr "pointer"); ("marginTop", VStr "2rem"); ("width", VStr "50vw")]
    sampleTheme sampleViewport VUndefined
  = ok [("marginTop", VNum (Num.of_Z 16)); ("width", VNum (Num.of_Z 50))]
  /\ exists w,
       obj_lookup [("marginTop", VNum (Num.of_Z 16)); ("width", VNum (Num.of_Z 50))]
         "marginTop" = Some w
       /\ resolveThemeVariables sampleExternals initialRegistry
            [("marginTop", VStr "2rem")] sampleTheme sampleViewport VUndefined
          = ok [("marginTop", w)].
Proof.
  assert (H : resolveThemeVariables sampleExternals initialRegistry
                [("cursor", VStr "pointer"); ("marginTop", VStr "2rem");
                 ("width", VStr "50vw")]
                sampleTheme sampleViewport VUndefined
              = ok [("marginTop", VNum (Num.of_Z 16)); ("width", VNum (Num.of_Z 50))])
    by (vm_compute; reflexivity).
  split; [ exact H | ].
  apply (resolveThemeVariables_local sampleExternals initialRegistry sampleTheme
           sampleViewport VUndefined
           [("cursor", VStr "pointer"); ("marginTop", VStr "2rem");
            ("width", VStr "50vw")]);
    [ apply (bool_decide_unpack _); vm_compute; exact I
    | reflexivity | discriminate | left; discriminate
    | discriminate | discriminate | reflexivity | exact H ].
Defined.

(** ** From the placeholder back to the theme *)

Lemma definedIn_false (proto : Builtins) (theme : Theme) (name : string) :
  definedIn proto theme name = false ->
  findNestedObj proto (VObj (theme_props theme)) name = VUndefined.
Proof.
  intros H. apply findNestedObj_none. intros v Hv.
  destruct (defines proto name v) eqn:E; [ | reflexivity ].
  unfold definedIn in H.
  assert (Hex : existsb (defines proto name)
                  (visited (VObj (theme_props theme))) = true).
  { apply existsb_exists. exists v.
    split; [ now apply list_elem_of_In | exact E ]. }
  congruence.
Qed.

Section Single.

Variable ext : Externals.
Variable reg : Registry.
Variable theme : Theme.
Variable windowDimensions : ScaledSize.
Variable units : value.

(** The pass over an object of one property is the turn of that property. *)
Lemma resolveThemeVariables_single (key : string) (v : value)
    (r : result value) :
  resolveProperty ext reg theme windowDimensions units key [(key, v)]
  = (w <- r ;; ok [(key, w)]) ->
  resolveThemeVariables ext reg [(key, v)] theme windowDimensions units
  = (w <- r ;; ok [(key, w)]).
Proof.
  intros H. unfold resolveThemeVariables. cbn [obj_keys map fst].
  rewrite resolveProperties_cons, H.
  destruct r as [e|w]; [ reflexivity | ]. cbn [bind ok].
  change (resolveProperties ext reg theme windowDimensions units [] [(key, w)])
    with (ok [(key, w)]).
  cbn [bind ok]. now rewrite marginCheck_single.
Qed.

Lemma resolveProperty_plain (key : string) (st : object) :
  key <> "elevation" ->
  key <> "cursor" \/ plattformIsWeb ext = true ->
  resolveProperty ext reg theme windowDimensions units key st
  = (st <- resolveColor ext reg theme key st ;;
     resolveLength ext reg theme windowDimensions units key st).
Proof.
  intros He Hcur. unfold resolveProperty, expandElevation.
  apply String.eqb_neq in He. rewrite He. cbn [andb bind ok].
  assert (E2 : String.eqb key "cursor" && negb (plattformIsWeb ext) = false).
  { destruct Hcur as [Hcur | ->]; [ | apply andb_false_r ].
    apply String.eqb_neq in Hcur. now rewrite Hcur. }
  now rewrite E2.
Qed.

Lemma color_variable_single (key hex name : string) :
  key <> "elevation" ->
  key <> "cursor" \/ plattformIsWeb ext = true ->
  colorAttributes ext key = true ->
  lengthAttributes ext key = false ->
  nameForHex reg !! hex = Some name ->
  name <> "" ->
  definedIn (builtins ext) theme name = true ->
  resolveThemeVariables ext reg [(key, VStr hex)] theme windowDimensions units
  = ok [(key,
         get_prop (builtins ext)
           (findNestedObj (builtins ext) (VObj (theme_props theme)) name)
           name)].
Proof.
  intros He Hcur Hc Hl Hhex Hname Hdef.
  apply (resolveThemeVariables_single key (VStr hex) (ok _)).
  rewrite resolveProperty_plain by assumption.
  unfold resolveColor, resolveLength. rewrite Hc, Hl, obj_get_single.
  rewrite (substituteVariable_found (builtins ext) reg theme key (VStr hex)
             _ _ name Hhex Hname Hdef).
  now rewrite obj_set_single.
Qed.

Lemma length_variable_single (key name : string) (v : value) :
  key <> "elevation" ->
  key <> "cursor" \/ plattformIsWeb ext = true ->
  colorAttributes ext key = false ->
  lengthAttributes ext key = true ->
  nameForHex reg !! (to_string v +:+ "px") = Some name ->
  name <> "" ->
  definedIn (builtins ext) theme name = true ->
  let found :=
    get_prop (builtins ext)
      (findNestedObj (builtins ext) (VObj (theme_props theme)) name) name in
  (forall p, p = "calc" \/ p = "max" \/ p = "min" ->
     Str.startsWith (to_string found) p = false) ->
  resolveThemeVariables ext reg [(key, v)] theme windowDimensions units
  = (w <- resolveLengthUnit found theme windowDimensions ;; ok [(key, w)]).
Proof.
  intros He Hcur Hc Hl Hhex Hname Hdef found Hcalc.
  apply resolveThemeVariables_single.
  rewrite resolveProperty_plain by assumption.
  unfold resolveColor, resolveLength. rewrite Hc, Hl. cbn [bind ok].
  rewrite obj_get_single.
  rewrite (substituteVariable_found (builtins ext) reg theme key
             (VStr (to_string v +:+ "px")) _ _ name Hhex Hname Hdef).
  cbn [bind ok]. rewrite obj_set_single. fold found.
  unfold convertLength. rewrite obj_get_single, !Hcalc by auto. cbn [orb].
  rewrite obj_get_single.
  destruct (resolveLengthUnit found theme windowDimensions); [ reflexivity | ].
  cbn [bind ok]. now rewrite obj_set_single.
Qed.

End Single.

Section Decode.

Variable hashGenerate : nat -> string.
Hypothesis hashGenerate_inj : forall i j, hashGenerate i = hashGenerate j -> i = j.
Hypothesis hashGenerate_fresh : forall i n, hashGenerate i <> colorHash n.

Lemma registered_decodes (calls : list call) (name h : string) :
  hexForVarName (run_calls hashGenerate calls initialRegistry) !! name = Some h ->
  nameForHex (run_calls hashGenerate calls initialRegistry) !! h
  = Some (Str.substring1 name).
Proof.
  destruct (run_calls_consistent hashGenerate calls hashGenerate_inj
              hashGenerate_fresh initialRegistry
              (initialRegistry_inv hashGenerate) initialRegistry_consistent)
    as [_ [Hto _]].
  apply Hto.
Qed.

End Decode.

(** X18. A color variable comes back as its theme value. Whatever calls the two
    encoders have served, a color property that holds the placeholder of a
    variable is resolved to what the name of the variable (without the sigil)
    reads as on the value [findNestedObj] finds in the theme, provided it
    reads as a truthy value on some value of the theme.  Inherited properties
    count: for a name such as [small] the value is the method of that
    name. *)
Theorem color_variable_resolved (hashGenerate : nat -> string)
    (calls : list call) (ext : Externals) (theme : Theme)
    (windowDimensions : ScaledSize) (units : value) (key name hex : string) :
  (forall i j, hashGenerate i = hashGenerate j -> i = j) ->
  (forall i n, hashGenerate i <> colorHash n) ->
  let reg := run_calls hashGenerate calls initialRegistry in
  hexForVarName reg !! name = Some hex ->
  key <> "elevation" ->
  key <> "cursor" \/ plattformIsWeb ext = true ->
  colorAttributes ext key = true ->
  lengthAttributes ext key = false ->
  Str.substring1 name <> "" ->
  definedIn (builtins ext) theme (Str.substring1 name) = true ->
  resolveThemeVariables ext reg [(key, VStr hex)] theme windowDimensions units
  = ok [(key,
         get_prop (builtins ext)
           (findNestedObj (builtins ext) (VObj (theme_props theme))
              (Str.substring1 name))
           (Str.substring1 name))].
Proof.
  intros Hinj Hfresh reg Hhex He Hcur Hc Hl Hname Hdef.
  apply color_variable_single; try assumption.
  now apply registered_decodes.
Qed.

Lemma color_variable_resolved_accent :
  fst (resolveColorVariablePlaceholder "$accent" None initialRegistry)
  = "#00000100"
  /\ resolveThemeVariables sampleExternals
       (run_calls sampleHashGenerate [CallColor "$accent" None] initialRegistry)
       [("color", VStr "#00000100")] sampleTheme sampleViewport VUndefined
     = ok [("color", VStr "red")].
Proof.
  split; [ vm_compute; reflexivity | ].
  apply (color_variable_resolved sampleHashGenerate [CallColor "$accent" None]
           sampleExternals sampleTheme sampleViewport VUndefined
           "color" "$accent" "#00000100"
           sampleHashGenerate_inj sampleHashGenerate_fresh);
    [ vm_compute; reflexivity | discriminate | left; discriminate
    | vm_compute; reflexivity | vm_compute; reflexivity | discriminate
    | vm_compute; reflexivity ].
Defined.

(** X19. A length variable comes back as its theme value, converted. A length
    property whose text, followed by [px], is the token of a variable is
    resolved to what [resolveLengthUnit] makes of the value the name of the
    variable reads as on what [findNestedObj] finds in the theme (own and
    inherited properties alike), or fails as [resolveLengthUnit] does on it; a
    value that reads as a [calc], [max] or [min] expression goes to the
    expression evaluator first. *)
Theorem length_variable_resolved (hashGenerate : nat -> string)
    (calls : list call) (ext : Externals) (theme : Theme)
    (windowDimensions : ScaledSize) (units : value) (key name : string)
    (v : value) :
  (forall i j, hashGenerate i = hashGenerate j -> i = j) ->
  (forall i n, hashGenerate i <> colorHash n) ->
  let reg := run_calls hashGenerate calls initialRegistry in
  hexForVarName reg !! name = Some (to_string v +:+ "px") ->
  key <> "elevation" ->
  key <> "cursor" \/ plattformIsWeb ext = true ->
  colorAttributes ext key = false ->
  lengthAttributes ext key = true ->
  Str.substring1 name <> "" ->
  definedIn (builtins ext) theme (Str.substring1 name) = true ->
  let found :=
    get_prop (builtins ext)
      (findNestedObj (builtins ext) (VObj (theme_props theme))
         (Str.substring1 name))
      (Str.substring1 name) in
  (forall p, p = "calc" \/ p = "max" \/ p = "min" ->
     Str.startsWith (to_string found) p = false) ->
  resolveThemeVariables ext reg [(key, v)] theme windowDimensions units
  = (w <- resolveLengthUnit found theme windowDimensions ;; ok [(key, w)]).
Proof.
  intros Hinj Hfresh reg Hhex He Hcur Hc Hl Hname Hdef found Hcalc.
  apply length_variable_single; try assumption.
  now apply registered_decodes.
Qed.

(** The token of [$gap] is ['hpx']; the theme gives [gap] 2rem, 16 with a
    root metric of 8. *)
Lemma length_variable_resolved_gap :
  let theme :=
    {| theme_props :=
         [("rem", VNum (Num.of_Z 8)); ("sizes", VObj [("gap", VStr "2rem")])];
       elevation_fn := fun _ => [] |} in
  let calls := [CallLength "$edge" None; CallLength "$gap" None] in
  fst (run_call sampleHashGenerate (CallLength "$gap" None)
         (run_calls sampleHashGenerate [CallLength "$edge" None] initialRegistry))
  = "hpx"
  /\ resolveThemeVariables sampleExternals
       (run_calls sampleHashGenerate calls initialRegistry)
       [("marginTop", VStr "h")] theme sampleViewport VUndefined
     = ok [("marginTop", VNum (Num.of_Z 16))].
Proof.
  intros theme calls. split; [ vm_compute; reflexivity | ].
  rewrite (length_variable_resolved sampleHashGenerate calls sampleExternals
             theme sampleViewport VUndefined "marginTop" "$gap" (VStr "h")
             sampleHashGenerate_inj sampleHashGenerate_fresh);
    [ vm_compute; reflexivity | vm_compute; reflexivity | discriminate
    | left; discriminate | vm_compute; reflexivity | vm_compute; reflexivity
    | discriminate | vm_compute; reflexivity | ].
  intros p [-> | [-> | ->]]; vm_compute; reflexivity.
Defined.

(** ** Variables the theme does not define *)

(** X20. A length variable without a theme value. When the pass reaches a
    length property whose text, followed by [px], is a token registered under a
    non-empty name, and that name reads as a truthy value on no value of the
    theme, own and inherited properties alike (it is missing everywhere, or it
    is 0, the empty string or another falsy value), [resolveThemeVariables]
    throws the error of line 233, whose message names the variable. *)
Theorem undefined_length_variable (ext : Externals) (reg : Registry)
    (theme : Theme) (windowDimensions : ScaledSize) (units : value)
    (styleObject st : object) (pre post : list string) (key name : string) :
  obj_keys styleObject = pre ++ key :: post ->
  resolveProperties ext reg theme windowDimensions units pre styleObject = ok st ->
  key <> "elevation" -> key <> "cursor" ->
  colorAttributes ext key = false ->
  lengthAttributes ext key = true ->
  nameForHex reg !! (to_string (obj_get st key) +:+ "px") = Some name ->
  name <> "" ->
  definedIn (builtins ext) theme name = false ->
  resolveThemeVariables ext reg styleObject theme windowDimensions units
    = throw (UndefinedVariable name)
  /\ message (UndefinedVariable name)
     = "the variable '" +:+ name +:+ "' has not been defined in the theme.".
Proof.
  intros Hkeys Hpre He Hcur Hc Hl Hreg Hname Hdef. split; [ | reflexivity ].
  apply (resolveThemeVariables_first_throw ext reg theme windowDimensions units
           styleObject st pre post key); [ exact Hkeys | exact Hpre | ].
  rewrite resolveProperty_plain by auto.
  unfold resolveColor, resolveLength. rewrite Hc, Hl. cbn [bind ok].
  unfold substituteVariable. cbn [map_get]. rewrite Hreg.
  destruct name as [|c name]; [ congruence | ]. cbn [Str.is_empty].
  now rewrite (definedIn_false _ _ _ Hdef).
Qed.

(** The theme gives [gap] the value 0: the variable counts as not defined. *)
Lemma undefined_length_variable_zero :
  let theme :=
    {| theme_props :=
         [("rem", VNum (Num.of_Z 8)); ("sizes", VObj [("gap", VNum Num.zero)])];
       elevation_fn := fun _ => [] |} in
  let reg :=
    run_calls sampleHashGenerate
      [CallLength "$edge" None; CallLength "$gap" None] initialRegistry in
  resolveThemeVariables sampleExternals reg [("marginTop", VStr "h")] theme
    sampleViewport VUndefined
  = throw (UndefinedVariable "gap")
  /\ message (UndefinedVariable "gap")
     = "the variable 'gap' has not been defined in the theme.".
Proof.
  intros theme reg.
  apply (undefined_length_variable sampleExternals reg theme sampleViewport
           VUndefined [("marginTop", VStr "h")] [("marginTop", VStr "h")]
           [] [] "marginTop" "gap");
    try (vm_compute; reflexivity); discriminate.
Defined.

(** ** Expressions *)

Lemma trimEnd_head (c : ascii) (s : string) :
  Str.is_whitespace c = false ->
  exists r, Str.trimEnd (String c s) = String c r.
Proof. intros H. cbn [Str.trimEnd]. rewrite H. cbn [andb]. eauto. Qed.

Lemma replace_head (c p : ascii) (s pat : string) :
  Ascii.eqb p c = false ->
  Str.replace (String c s) (String p pat) ""
  = String c (Str.replace s (String p pat) "").
Proof.
  intros H. cbn [Str.replace]. now rewrite (strip_prefix_head _ _ _ _ H).
Qed.

Lemma to_string_nan_head : exists r, Num.to_string Num.nan = String "N" r.
Proof. now eexists. Qed.

(** A text that starts with [c] or [m] has no magnitude, and its unit starts
    with that letter. *)
Lemma letter_unit (c : ascii) (s : string) :
  c = "c"%char \/ c = "m"%char ->
  Num.parseFloat (String c s) = Num.nan
  /\ exists r, unitText (String c s) = String c r.
Proof.
  intros Hc.
  assert (Hw : Str.is_whitespace c = false)
    by (destruct Hc as [-> | ->]; reflexivity).
  assert (Hl : starts_literal c = false)
    by (destruct Hc as [-> | ->]; reflexivity).
  assert (Hn : Ascii.eqb "N" c = false)
    by (destruct Hc as [-> | ->]; reflexivity).
  assert (Hp : Num.parseFloat (String c s) = Num.nan).
  { unfold Num.parseFloat. cbn [Str.trimStart]. rewrite Hw.
    now rewrite scan_decimal_bad_start. }
  split; [ exact Hp | ].
  unfold unitText, Str.trim. rewrite Hp. cbn [Str.trimStart]. rewrite Hw.
  destruct (trimEnd_head c s Hw) as (r & ->).
  change (Num.to_string Num.nan) with "NaN".
  rewrite (replace_head _ _ _ _ Hn). eauto.
Qed.

Lemma expression_head (s p : string) :
  p = "calc" \/ p = "max" \/ p = "min" ->
  Str.startsWith s p = true ->
  exists c r, s = String c r /\ (c = "c"%char \/ c = "m"%char).
Proof.
  unfold Str.startsWith. intros Hp H.
  destruct (Str.strip_prefix p s) as [r|] eqn:E; [ | discriminate ].
  apply strip_prefix_Some in E. subst s.
  destruct Hp as [-> | [-> | ->]]; rewrite append_cons; eauto.
Qed.

(** X21. An expression the evaluator gives up on. When the pass reaches a
    length property whose text starts with [calc], [max] or [min] and for which
    [convertValue] returns NaN, the text is handed to [resolveLengthUnit] as it
    is: it has no magnitude, its unit starts with the letter of the expression,
    and the pass throws the unknown-unit error for it. *)
Theorem unevaluated_expression (ext : Externals) (reg : Registry)
    (theme : Theme) (windowDimensions : ScaledSize) (units : value)
    (styleObject st : object) (pre post : list string) (key s p : string) :
  obj_keys styleObject = pre ++ key :: post ->
  resolveProperties ext reg theme windowDimensions units pre styleObject = ok st ->
  key <> "elevation" -> key <> "cursor" ->
  colorAttributes ext key = false ->
  lengthAttributes ext key = true ->
  obj_get st key = VStr s ->
  nameForHex reg !! (s +:+ "px") = None ->
  p = "calc" \/ p = "max" \/ p = "min" ->
  Str.startsWith s p = true ->
  isNaN (convertValue ext key (VStr s) units) = true ->
  resolveThemeVariables ext reg styleObject theme windowDimensions units
  = throw (UnknownUnit s (unitText s)).
Proof.
  intros Hkeys Hpre He Hcur Hc Hl Hs Hreg Hp Hstart Hnan.
  apply (resolveThemeVariables_first_throw ext reg theme windowDimensions units
           styleObject st pre post key); [ exact Hkeys | exact Hpre | ].
  rewrite resolveProperty_plain by auto.
  unfold resolveColor, resolveLength. rewrite Hc, Hl. cbn [bind ok].
  unfold substituteVariable. rewrite Hs. cbn [map_get to_string]. rewrite Hreg.
  cbn [bind ok]. unfold convertLength. rewrite Hs. cbn [to_string].
  assert (Hor : Str.startsWith s "calc" || Str.startsWith s "max"
                || Str.startsWith s "min" = true).
  { destruct Hp as [-> | [-> | ->]]; rewrite Hstart;
      rewrite ?orb_true_r; reflexivity. }
  rewrite Hor, Hnan. cbn [negb]. rewrite Hs.
  destruct (expression_head s p Hp Hstart) as (c & r & -> & Hcm).
  destruct (letter_unit c r Hcm) as (Hpf & u & Hu).
  destruct (resolveLengthUnit_string (String c r) theme windowDimensions)
    as (_ & _ & Hunknown); [ discriminate | now rewrite Hpf | ].
  rewrite Hunknown; [ reflexivity | rewrite Hu; discriminate | ].
  rewrite Hu. intros Hin. apply knownUnits_spec in Hin.
  destruct Hcm as [-> | ->];
    destruct Hin as [H | [H | [H | [H | H]]]]; discriminate H.
Qed.

(** No evaluator at hand: [calc(100% - 10px)] is rejected with its own text
    as the unit. *)
Lemma unevaluated_expression_calc :
  resolveThemeVariables sampleExternals initialRegistry
    [("width", VStr "calc(100% - 10px)")] sampleTheme sampleViewport VUndefined
  = throw (UnknownUnit "calc(100% - 10px)" "calc(100% - 10px)").
Proof.
  apply (unevaluated_expression sampleExternals initialRegistry sampleTheme
           sampleViewport VUndefined [("width", VStr "calc(100% - 10px)")]
           [("width", VStr "calc(100% - 10px)")] [] [] "width"
           "calc(100% - 10px)" "calc");
    try (vm_compute; reflexivity); try discriminate.
  now left.
Defined.

(** X22. An expression the evaluator evaluates. On a length property whose text
    starts with [calc], [max] or [min], what [convertValue] returns, unless it
    is NaN, takes the place of the text and is then converted as any length is. *)
Theorem evaluated_expression (ext : Externals) (reg : Registry)
    (theme : Theme) (windowDimensions : ScaledSize) (units : value)
    (key s p : string) :
  key <> "elevation" ->
  key <> "cursor" \/ plattformIsWeb ext = true ->
  colorAttributes ext key = false ->
  lengthAttributes ext key = true ->
  nameForHex reg !! (s +:+ "px") = None ->
  p = "calc" \/ p = "max" \/ p = "min" ->
  Str.startsWith s p = true ->
  isNaN (convertValue ext key (VStr s) units) = false ->
  resolveThemeVariables ext reg [(key, VStr s)] theme windowDimensions units
  = (w <- resolveLengthUnit (convertValue ext key (VStr s) units) theme
            windowDimensions ;;
     ok [(key, w)]).
Proof.
  intros He Hcur Hc Hl Hreg Hp Hstart Hnan.
  apply resolveThemeVariables_single.
  rewrite resolveProperty_plain by assumption.
  unfold resolveColor, resolveLength. rewrite Hc, Hl. cbn [bind ok].
  unfold substituteVariable. rewrite obj_get_single. cbn [map_get to_string].
  rewrite Hreg. cbn [bind ok]. unfold convertLength.
  rewrite obj_get_single. cbn [to_string].
  assert (Hor : Str.startsWith s "calc" || Str.startsWith s "max"
                || Str.startsWith s "min" = true).
  { destruct Hp as [-> | [-> | ->]]; rewrite Hstart;
      rewrite ?orb_true_r; reflexivity. }
  rewrite Hor, Hnan. cbn [negb]. rewrite obj_set_single, obj_get_single.
  destruct (resolveLengthUnit _ _ _); [ reflexivity | ].
  cbn [bind ok]. now rewrite obj_set_single.
Qed.

(** An evaluator that makes 90 of every expression. *)
Lemma evaluated_expression_calc :
  let ext :=
    {| colorAttributes := colorAttributes sampleExternals;
       lengthAttributes := lengthAttributes sampleExternals;
       convertValue := fun _ _ _ => VNum (Num.of_Z 90);
       plattformIsWeb := false;
       builtins := sampleBuiltins |} in
  resolveThemeVariables ext initialRegistry
    [("width", VStr "calc(100% - 10px)")] sampleTheme sampleViewport VUndefined
  = ok [("width", VNum (Num.of_Z 90))].
Proof.
  intros ext.
  rewrite (evaluated_expression ext initialRegistry sampleTheme sampleViewport
             VUndefined "width" "calc(100% - 10px)" "calc");
    try (vm_compute; reflexivity); try discriminate;
    [ left; discriminate | now left ].
Defined.

(** ** The elevation *)

Section Elevation.

Variable ext : Externals.
Variable reg : Registry.
Variable theme : Theme.
Variable windowDimensions : ScaledSize.
Variable units : value.

(** The turn of a property other than [elevation] leaves alone every other
    property, and the property itself when the pass has nothing to do on
    it. *)
Lemma resolveProperty_keeps (key k : string) (st st' : object) :
  key <> "elevation" ->
  k <> key
  \/ (colorAttributes ext k = false /\ lengthAttributes ext k = false
      /\ (k <> "cursor" \/ plattformIsWeb ext = true)) ->
  resolveProperty ext reg theme windowDimensions units key st = ok st' ->
  obj_lookup st' k = obj_lookup st k.
Proof.
  intros He Hk. unfold resolveProperty, expandElevation.
  apply String.eqb_neq in He. rewrite He. cbn [andb bind ok].
  match goal with
  | |- context [resolveColor ext reg theme key ?s] => set (st2 := s)
  end.
  destruct (resolveColor ext reg theme key st2) as [e|st3] eqn:E3; [ discriminate | ].
  cbn [bind ok]. intros E4.
  destruct Hk as [Hne | (Hc & Hl & Hcur)].
  - apply resolveColor_touches in E3 as [F3 _].
    apply resolveLength_touches in E4 as [F4 _].
    rewrite F4, F3 by exact Hne. unfold st2.
    destruct (String.eqb_spec key "cursor") as [-> | Hc]; cbn [andb];
      [ | reflexivity ].
    destruct (negb _); [ now apply obj_delete_lookup_ne | reflexivity ].
  - destruct (String.eqb_spec k key) as [-> | Hne].
    + unfold resolveColor in E3. unfold resolveLength in E4.
      rewrite Hc in E3. rewrite Hl in E4.
      injection E3 as <-. injection E4 as <-. unfold st2.
      destruct (String.eqb_spec key "cursor") as [-> | Hk]; cbn [andb];
        [ | reflexivity ].
      destruct Hcur as [Hcur | ->]; [ congruence | reflexivity ].
    + apply resolveColor_touches in E3 as [F3 _].
      apply resolveLength_touches in E4 as [F4 _].
      rewrite F4, F3 by exact Hne. unfold st2.
      destruct (String.eqb_spec key "cursor") as [-> | Hc']; cbn [andb];
        [ | reflexivity ].
      destruct (negb _); [ now apply obj_delete_lookup_ne | reflexivity ].
Qed.

Lemma resolveProperties_keeps (k : string) (keys : list string) :
  "elevation" ∉ keys ->
  k ∉ keys
  \/ (colorAttributes ext k = false /\ lengthAttributes ext k = false
      /\ (k <> "cursor" \/ plattformIsWeb ext = true)) ->
  forall st st',
    resolveProperties ext reg theme windowDimensions units keys st = ok st' ->
    obj_lookup st' k = obj_lookup st k.
Proof.
  intros He Hk. induction keys as [|key keys IH]; intros st st';
    [ now intros [= <-] | ].
  apply not_elem_of_cons in He as [He1 He].
  rewrite resolveProperties_cons.
  destruct (resolveProperty ext reg theme windowDimensions units key st)
    as [e|st1] eqn:E; [ discriminate | ].
  cbn [bind]. intros H. rewrite (IH He) with (st := st1) (st' := st').
  - apply (resolveProperty_keeps key k st st1); [ congruence | | exact E ].
    destruct Hk as [Hk | Hk]; [ left | now right ].
    apply not_elem_of_cons in Hk as [Hk _]. exact Hk.
  - destruct Hk as [Hk | Hk]; [ left | now right ].
    apply not_elem_of_cons in Hk as [_ Hk]. exact Hk.
  - exact H.
Qed.

(** The turn of [elevation] writes the shadow properties. *)
Lemma resolveProperty_elevation (st st' : object) (src k : string) (v : value) :
  theme_get theme "elevation" = VFun src ->
  NoDup (obj_keys (elevation_fn theme (obj_get st "elevation"))) ->
  obj_lookup (elevation_fn theme (obj_get st "elevation")) k = Some v ->
  k <> "elevation" ->
  resolveProperty ext reg theme windowDimensions units "elevation" st = ok st' ->
  obj_lookup st' k = Some v.
Proof.
  intros Hf Hnd Hv Hk. unfold resolveProperty, expandElevation.
  rewrite Hf. cbn [String.eqb Ascii.eqb Bool.eqb truthy andb bind ok].
  match goal with
  | |- context [resolveColor ext reg theme "elevation" ?s] => set (st2 := s)
  end.
  destruct (resolveColor ext reg theme "elevation" st2) as [e|st3] eqn:E3;
    [ discriminate | ].
  cbn [bind ok]. intros E4.
  apply resolveColor_touches in E3 as [F3 _].
  apply resolveLength_touches in E4 as [F4 _].
  rewrite F4, F3 by exact Hk. unfold st2.
  rewrite merge_lookup by exact Hnd. now rewrite Hv.
Qed.

(** X23. The elevation is expanded. When the style has an [elevation] and the
    theme an [elevation] function, every property of the shadow the function
    returns for that level is in the resolved style with the shadow's value,
    provided the pass has nothing else to do on that property: it was not in
    the style to start with (the loop does not visit what is added on the
    way), or it is neither a color nor a length nor a [cursor] to be
    removed. *)
Theorem elevation_expanded (styleObject st' : object) (level v : value)
    (src k : string) :
  NoDup (obj_keys styleObject) ->
  obj_lookup styleObject "elevation" = Some level ->
  theme_get theme "elevation" = VFun src ->
  NoDup (obj_keys (elevation_fn theme level)) ->
  obj_lookup (elevation_fn theme level) k = Some v ->
  k <> "elevation" -> k <> "width" -> k <> "height" ->
  k ∉ obj_keys styleObject
  \/ (colorAttributes ext k = false /\ lengthAttributes ext k = false
      /\ (k <> "cursor" \/ plattformIsWeb ext = true)) ->
  resolveThemeVariables ext reg styleObject theme windowDimensions units = ok st' ->
  obj_lookup st' k = Some v.
Proof.
  intros Hnd Hlevel Hf Hshadow Hv Hke Hkw Hkh Hk. unfold resolveThemeVariables.
  assert (Hin : "elevation" ∈ obj_keys styleObject).
  { destruct (decide ("elevation" ∈ obj_keys styleObject)) as [H | H];
      [ exact H | ].
    apply obj_lookup_None in H. congruence. }
  apply list_elem_of_split in Hin as (pre & post & Hkeys).
  rewrite Hkeys in Hnd, Hk |- *.
  apply NoDup_app in Hnd as (_ & Hpre & Hpost).
  apply NoDup_cons in Hpost as [Hpost _].
  assert (Hpre' : "elevation" ∉ pre).
  { intros H. apply (Hpre _ H). apply elem_of_cons. now left. }
  assert (Hk1 : k ∉ pre
                \/ (colorAttributes ext k = false /\ lengthAttributes ext k = false
                    /\ (k <> "cursor" \/ plattformIsWeb ext = true))).
  { destruct Hk as [Hk | Hk]; [ left | now right ].
    intros H. apply Hk. apply elem_of_app. now left. }
  assert (Hk2 : k ∉ post
                \/ (colorAttributes ext k = false /\ lengthAttributes ext k = false
                    /\ (k <> "cursor" \/ plattformIsWeb ext = true))).
  { destruct Hk as [Hk | Hk]; [ left | now right ].
    intros H. apply Hk. apply elem_of_app. right. apply elem_of_cons. now right. }
  rewrite resolveProperties_app.
  destruct (resolveProperties _ _ _ _ _ pre styleObject) as [e|st1] eqn:E1;
    [ discriminate | ].
  cbn [bind]. rewrite resolveProperties_cons.
  destruct (resolveProperty _ _ _ _ _ "elevation" st1) as [e|st2] eqn:E2;
    [ discriminate | ].
  cbn [bind].
  destruct (resolveProperties _ _ _ _ _ post st2) as [e|st3] eqn:E3;
    [ discriminate | ].
  cbn [bind]. intros H.
  assert (H1 : obj_get st1 "elevation" = level).
  { unfold obj_get.
    rewrite (resolveProperties_keeps "elevation" pre Hpre' (or_introl Hpre')
               _ _ E1).
    now rewrite Hlevel. }
  assert (H2 : obj_lookup st2 k = Some v).
  { apply (resolveProperty_elevation st1 st2 src k v Hf); rewrite ?H1; auto. }
  assert (H3 : obj_lookup st3 k = Some v).
  { now rewrite (resolveProperties_keeps k post Hpost Hk2 _ _ E3). }
  destruct (marginCheck st3); [ | now injection H as <- ].
  now rewrite (recomputeDimensions_frame _ _ _ _ k H).
Qed.

End Elevation.

(** A theme whose elevation makes the shadow radius the level. *)
Lemma elevation_expanded_radius :
  let theme :=
    {| theme_props := [("rem", VNum (Num.of_Z 8)); ("elevation", VFun "level => ...")];
       elevation_fn := fun level => [("shadowRadius", level)] |} in
  resolveThemeVariables sampleExternals initialRegistry
    [("elevation", VNum (Num.of_Z 2)); ("color", VStr "red")] theme
    sampleViewport VUndefined
  = ok [("elevation", VNum (Num.of_Z 2)); ("color", VStr "red");
        ("shadowRadius", VNum (Num.of_Z 2))]
  /\ obj_lookup [("elevation", VNum (Num.of_Z 2)); ("color", VStr "red");
                 ("shadowRadius", VNum (Num.of_Z 2))] "shadowRadius"
     = Some (VNum (Num.of_Z 2)).
Proof.
  intros theme.
  assert (H : resolveThemeVariables sampleExternals initialRegistry
                [("elevation", VNum (Num.of_Z 2)); ("color", VStr "red")] theme
                sampleViewport VUndefined
              = ok [("elevation", VNum (Num.of_Z 2)); ("color", VStr "red");
                    ("shadowRadius", VNum (Num.of_Z 2))])
    by (vm_compute; reflexivity).
  split; [ exact H | ].
  apply (elevation_expanded sampleExternals initialRegistry theme sampleViewport
           VUndefined [("elevation", VNum (Num.of_Z 2)); ("color", VStr "red")]
           _ (VNum (Num.of_Z 2)) _ "level => ..." "shadowRadius");
    [ apply (bool_decide_unpack _); vm_compute; exact I
    | reflexivity | reflexivity
    | apply (bool_decide_unpack _); vm_compute; exact I
    | reflexivity | discriminate | discriminate | discriminate
    | right; split; [ reflexivity | split; [ reflexivity | left; discriminate ] ]
    | exact H ].
Defined.

(** ** The recomputation *)

(** X24. A dimension that is not declared. When the margins open the
    recomputation, a width that is missing or falsy after the per-property pass
    ([0] for instance) is written back as [undefined], and so is such a height:
    the resolved style then has the property, with no value. *)
Theorem recomputed_missing_dimension (ext : Externals) (reg : Registry)
    (theme : Theme) (windowDimensions : ScaledSize) (units : value)
    (styleObject st1 st' : object) :
  resolveProperties ext reg theme windowDimensions units
    (obj_keys styleObject) styleObject = ok st1 ->
  marginCheck st1 = true ->
  resolveThemeVariables ext reg styleObject theme windowDimensions units = ok st' ->
  (truthy (obj_get st1 "width") = false ->
   obj_lookup st' "width" = Some VUndefined)
  /\ (truthy (obj_get st1 "height") = false ->
      obj_lookup st' "height" = Some VUndefined).
Proof.
  intros Hpass Hm. unfold resolveThemeVariables. rewrite Hpass. cbn [bind ok].
  rewrite Hm. unfold recomputeDimensions.
  destruct (resolveLengthUnit (formatValue st1 windowDimensions "width") _ _)
    as [e|w] eqn:Ew; [ discriminate | ].
  cbn [bind ok].
  destruct (resolveLengthUnit (formatValue st1 windowDimensions "height") _ _)
    as [e|h] eqn:Eh; [ discriminate | ].
  cbn [bind ok]. intros [= <-]. split; intros Hf.
  - rewrite !obj_lookup_set. cbn [String.eqb Ascii.eqb Bool.eqb].
    unfold formatValue in Ew. rewrite Hf in Ew. cbn [andb] in Ew.
    cbn [String.eqb Ascii.eqb Bool.eqb] in Ew. rewrite andb_false_r in Ew.
    now injection Ew as <-.
  - rewrite !obj_lookup_set. cbn [String.eqb Ascii.eqb Bool.eqb].
    unfold formatValue in Eh. rewrite Hf in Eh.
    cbn [String.eqb Ascii.eqb Bool.eqb] in Eh.
    rewrite !andb_false_r in Eh. cbn [andb] in Eh.
    now injection Eh as <-.
Qed.

(** Four margins of 1 and nothing else. *)
Lemma recomputed_missing_dimension_margins :
  let style :=
    [("marginLeft", VNum (Num.of_Z 1)); ("marginRight", VNum (Num.of_Z 1));
     ("marginTop", VNum (Num.of_Z 1)); ("marginBottom", VNum (Num.of_Z 1))] in
  resolveThemeVariables sampleExternals initialRegistry style sampleTheme
    sampleViewport VUndefined
  = ok (style ++ [("width", VUndefined); ("height", VUndefined)])
  /\ obj_lookup (style ++ [("width", VUndefined); ("height", VUndefined)]) "width"
     = Some VUndefined
  /\ obj_lookup (style ++ [("width", VUndefined); ("height", VUndefined)]) "height"
     = Some VUndefined.
Proof.
  intros style.
  assert (H : resolveThemeVariables sampleExternals initialRegistry style
                sampleTheme sampleViewport VUndefined
              = ok (style ++ [("width", VUndefined); ("height", VUndefined)]))
    by (vm_compute; reflexivity).
  split; [ exact H | ].
  destruct (recomputed_missing_dimension sampleExternals initialRegistry
              sampleTheme sampleViewport VUndefined style style _
              ltac:(vm_compute; reflexivity) ltac:(vm_compute; reflexivity) H)
    as [Hw Hh].
  split; [ apply Hw | apply Hh ]; reflexivity.
Defined.

(** ** What findNestedObj returns *)

(** X25. [findNestedObj] returns [undefined] exactly when [keyToFind] reads
    as a truthy value on no value the serialiser visits, own and inherited
    properties alike; what it returns otherwise is one of the visited values,
    and [keyToFind] reads as a truthy value on it. *)
Theorem findNestedObj_sound (proto : Builtins) (entireObj : value)
    (keyToFind : string) :
  (findNestedObj proto entireObj keyToFind = VUndefined <->
   forall v, v ∈ visited entireObj -> defines proto keyToFind v = false)
  /\ (findNestedObj proto entireObj keyToFind <> VUndefined ->
      findNestedObj proto entireObj keyToFind ∈ visited entireObj
      /\ truthy (get_prop proto (findNestedObj proto entireObj keyToFind)
                   keyToFind) = true).
Proof.
  rewrite findNestedObj_last.
  destruct (last (filter (fun v => defines proto keyToFind v) (visited entireObj)))
    as [w|] eqn:E; cbn [default].
  - apply last_Some_elem_of in E. apply list_elem_of_filter in E as [Hw Hin].
    apply Is_true_true in Hw.
    assert (Hne : w <> VUndefined) by (intros ->; discriminate).
    split.
    + split; [ intros Hu; now contradiction Hne | ].
      intros H. rewrite (H w Hin) in Hw. discriminate.
    + intros _. split; [ exact Hin | ].
      unfold defines in Hw. now apply andb_prop in Hw as [_ Hw].
  - split; [ | intros Hu; now contradiction Hu ]. split; [ | reflexivity ].
    intros _ v Hin. destruct (defines proto keyToFind v) eqn:Hd; [ | reflexivity ].
    apply last_None in E.
    assert (Hv : v ∈ filter (fun v => defines proto keyToFind v) (visited entireObj)).
    { apply list_elem_of_filter. split; [ now rewrite Hd | exact Hin ]. }
    rewrite E in Hv. now apply elem_of_nil in Hv.
Qed.

(** In the sample theme nothing defines [gap], the colors define [accent],
    and every string has a [small]: the last string is found. *)
Lemma findNestedObj_sound_sample :
  findNestedObj sampleBuiltins (VObj (theme_props sampleTheme)) "gap"
  = VUndefined
  /\ findNestedObj sampleBuiltins (VObj (theme_props sampleTheme)) "small"
     = VStr "red"
  /\ findNestedObj sampleBuiltins (VObj (theme_props sampleTheme)) "accent"
       ∈ visited (VObj (theme_props sampleTheme)).
Proof.
  destruct (findNestedObj_sound sampleBuiltins (VObj (theme_props sampleTheme))
              "accent") as [_ H].
  split; [ vm_compute; reflexivity | split; [ vm_compute; reflexivity | ] ].
  apply H. vm_compute. discriminate.
Defined.
